(** * BgpCompare: set operations on collections of IP(v6) address ranges

    A shallow embedding of [IPAddress.h] (classes [IPv4] and [IPv6]) and of
    [BgpCompare.cpp] (the range decomposer [add], the sweep [traverse], the
    comparison kernels and [process]), followed by the properties of the
    address-range algebra engine.

    Conventions.
    - [uint32_t] and [uint64_t] are [Z] with the wrap-around written out.
    - A C++ exception is [Throw]; an operation the C++ standard leaves
      undefined (a shift by the full width of the operand, reading through an
      end iterator, signed overflow) is [Undefined].
    - [std::string] is [list ascii]; iterators are positions in the list.
    - The output callbacks append to a list. *)

From Stdlib Require Import Ascii String ZArith List Bool Lia.
From Stdlib Require Import Permutation Sorted.
Import ListNotations.
Local Open Scope Z_scope.

(** ** Results of fallible code *)

(** The two messages thrown as [std::runtime_error] by [IPAddress.h]. *)
Inductive runtime_error : Type :=
| Invalid_IPv4_format (text : list ascii)
| Invalid_IPv6_format (text : list ascii)
| Invalid_prefix_size.

(** [Timeout] is returned by the model of a [while] loop whose iteration
    bound is exhausted; the bound is chosen so that this never happens on
    values the fields can hold (see [add_returns]). *)
Inductive result (A : Type) : Type :=
| Ok (a : A)
| Throw (e : runtime_error)
| Undefined
| Timeout.
Arguments Ok {A} a.
Arguments Throw {A} e.
Arguments Undefined {A}.
Arguments Timeout {A}.

Definition bind {A B : Type} (r : result A) (k : A -> result B) : result B :=
  match r with
  | Ok a => k a
  | Throw e => Throw e
  | Undefined => Undefined
  | Timeout => Timeout
  end.

Notation "x <- r ;; k" := (bind r (fun x => k))
  (at level 61, r at next level, right associativity).
Notation "' pat <- r ;; k" := (bind r (fun x => match x with pat => k end))
  (at level 61, pat pattern, r at next level, right associativity).

(** The parse failures the specification calls [MalformedAddress]. *)
Definition MalformedAddress (e : runtime_error) : Prop :=
  match e with
  | Invalid_IPv4_format _ | Invalid_IPv6_format _ => True
  | Invalid_prefix_size => False
  end.

(** ** Fixed-width unsigned arithmetic *)

Definition wrap (w x : Z) : Z := x mod 2 ^ w.

(** [x << n] on a [w]-bit unsigned operand; undefined when the shift count is
    negative or not smaller than the width. *)
Definition shl (w x n : Z) : result Z :=
  if (0 <=? n) && (n <? w) then Ok (wrap w (Z.shiftl x n)) else Undefined.

(** [x >> n] on a [w]-bit unsigned operand. *)
Definition shr (w x n : Z) : result Z :=
  if (0 <=? n) && (n <? w) then Ok (Z.shiftr x n) else Undefined.

(** [~x] on a [w]-bit unsigned operand. *)
Definition bnot (w x : Z) : Z := Z.lxor x (Z.ones w).

Definition INT_MIN : Z := -2147483648.
Definition INT_MAX : Z := 2147483647.

(** [x << n] on a non-negative [int] operand: defined when the shifted
    value fits the corresponding unsigned type; converted to [uint32_t] it
    is that value. *)
Definition shl_int (x n : Z) : result Z :=
  if (0 <=? n) && (n <? 32) && (0 <=? x) && (x * 2 ^ n <? 2 ^ 32)
  then Ok (x * 2 ^ n) else Undefined.

(** Arithmetic on [int]: signed overflow is undefined. *)
Definition int_check (r : Z) : result Z :=
  if (INT_MIN <=? r) && (r <=? INT_MAX) then Ok r else Undefined.

(** ** Characters and formatted output *)

Definition code (c : ascii) : Z := Z.of_N (N_of_ascii c).

Definition char_of_code (n : Z) : ascii := ascii_of_N (Z.to_N n).

(** The digit [d] of a number printed in base 10 or 16 (lower case). *)
Definition digit_char (d : Z) : ascii :=
  if d <? 10 then char_of_code (code "0" + d) else char_of_code (code "a" + (d - 10)).

Fixpoint put_digits (n : nat) (base x : Z) (acc : list ascii) : list ascii :=
  match n with
  | O => acc
  | S n' =>
    let acc' := digit_char (x mod base) :: acc in
    if x / base =? 0 then acc' else put_digits n' base (x / base) acc'
  end.

(** [buf << std::dec << x] and [buf << std::hex << x] for an unsigned [x]:
    no leading zeros, no prefix, lower-case digits. *)
Definition put_unsigned (base x : Z) : list ascii :=
  put_digits (S (Z.to_nat (Z.log2 x))) base x [].

(** [std::cout << x] for a [short]. *)
Definition put_short (x : Z) : list ascii :=
  if x <? 0 then "-"%char :: put_unsigned 10 (- x) else put_unsigned 10 x.

(** ** The interface the templates of BgpCompare.cpp use of an address class *)

Class Address (T : Type) : Type := {
  bit_length : Z;
  ctor : T;
  parse : list ascii -> result T;
  to_string : T -> list ascii;
  network_zeros : T -> Z -> result T;
  network_ones : T -> Z -> result T;
  next : T -> Z -> result T;
  previous : T -> Z -> result T;
  lt : T -> T -> bool;
  le : T -> T -> bool;
  eq : T -> T -> bool
}.

(** ** class IPv4 *)

Module IPv4.

Record t : Type := IPv4 { value : Z }.

Definition bit_length : Z := 32.

(** The [for] loop of [parse]: [s] is the range from [iter] to [end]; the
    result is [(value, octet, count)] when the loop runs to its end. *)
Fixpoint parse_loop (text s : list ascii) (value octet count : Z)
  : result (Z * Z * Z) :=
  match s with
  | [] => Ok (value, octet, count)
  | c :: rest =>
    if (code c <=? code "9") && (code c >=? code "0") then
      octet' <- int_check (octet * 10 + (code c - code "0")) ;;
      parse_loop text rest value octet' count
    else if (code c =? code ".") && (octet <? 256) then
      match rest with
      | [] => Throw (Invalid_IPv4_format text)
      | c' :: _ =>
        if code c' =? code "." then Throw (Invalid_IPv4_format text)
        else
          count' <- int_check (count + 1) ;;
          parse_loop text rest (Z.lor (wrap 32 (Z.shiftl value 8)) octet) 0 count'
      end
    else Throw (Invalid_IPv4_format text)
  end.

(** [parse(begin, end)]; [*begin] on an empty range reads through the end
    iterator. *)
Definition parse (text : list ascii) : result t :=
  match text with
  | [] => Undefined
  | c :: _ =>
    if code c =? code "." then Throw (Invalid_IPv4_format text)
    else
      ' (value, octet, count) <- parse_loop text text 0 0 0 ;;
      if negb (count =? 3) || (octet >=? 256) then Throw (Invalid_IPv4_format text)
      else Ok (IPv4 (Z.lor (wrap 32 (Z.shiftl value 8)) octet))
  end.

Definition network_zeros (a : t) (prefix : Z) : result t :=
  if prefix =? 0 then Ok (IPv4 0)
  else m <- shl 32 0xffffffff (32 - prefix) ;;
       Ok (IPv4 (Z.land (value a) m)).

Definition network_ones (a : t) (prefix : Z) : result t :=
  if prefix =? 0 then Ok (IPv4 0xffffffff)
  else m <- shl 32 0xffffffff (32 - prefix) ;;
       Ok (IPv4 (Z.lor (value a) (bnot 32 m))).

Definition to_string (a : t) : list ascii :=
  put_unsigned 10 (Z.land (Z.shiftr (value a) 24) 0xff) ++ "."%char ::
  put_unsigned 10 (Z.land (Z.shiftr (value a) 16) 0xff) ++ "."%char ::
  put_unsigned 10 (Z.land (Z.shiftr (value a) 8) 0xff) ++ "."%char ::
  put_unsigned 10 (Z.land (Z.shiftr (value a) 0) 0xff).

(** The literal [0xffffff] is an [int], and so is the shifted value. *)
Definition subnet_mask (prefix : Z) : result t :=
  if (prefix <? 0) || (prefix >? 32) then Throw Invalid_prefix_size
  else m <- shl_int 0xffffff (32 - prefix) ;; Ok (IPv4 m).

(** [1 << (32 - prefix)] is computed on [int]; the sum is taken on
    [uint32_t], so only the low 32 bits of the shifted one matter. *)
Definition next (a : t) (prefix : Z) : result t :=
  if (prefix <? 0) || (prefix >? bit_length) then Throw Invalid_prefix_size
  else d <- shl 32 1 (32 - prefix) ;;
       Ok (IPv4 (wrap 32 (value a + d))).

Definition previous (a : t) (prefix : Z) : result t :=
  if (prefix <? 0) || (prefix >? bit_length) then Throw Invalid_prefix_size
  else d <- shl 32 1 (32 - prefix) ;;
       Ok (IPv4 (wrap 32 (value a - d))).

Definition lt (a b : t) : bool := value a <? value b.
Definition gt (a b : t) : bool := value a >? value b.
Definition le (a b : t) : bool := value a <=? value b.
Definition ge (a b : t) : bool := value a >=? value b.
Definition eq (a b : t) : bool := value a =? value b.
Definition ne (a b : t) : bool := negb (value a =? value b).

(** The values a [uint32_t] field can hold. *)
Definition wf (a : t) : Prop := 0 <= value a < 2 ^ 32.

End IPv4.

#[export] Instance IPv4_Address : Address IPv4.t := {|
  bit_length := IPv4.bit_length;
  ctor := IPv4.IPv4 0;
  parse := IPv4.parse;
  to_string := IPv4.to_string;
  network_zeros := IPv4.network_zeros;
  network_ones := IPv4.network_ones;
  next := IPv4.next;
  previous := IPv4.previous;
  lt := IPv4.lt;
  le := IPv4.le;
  eq := IPv4.eq
|}.

(** ** class IPv6 *)

Module IPv6.

Record t : Type := IPv6 { network : Z; host : Z }.

Definition bit_length : Z := 128.

Definition segmentize (a : t) : list Z :=
  map (fun i => Z.land (Z.shiftr (network a) (48 - i * 16)) 0xffff) [0; 1; 2; 3] ++
  map (fun i => Z.land (Z.shiftr (host a) (48 - i * 16)) 0xffff) [0; 1; 2; 3].

(** First loop of [collapse]. Iterators are positions in the vector, [end_]
    is the position one past the last segment; the state is
    [(collapse, collapse_start, collapse_end)]. *)
Fixpoint collapse_find (s : list Z) (iter end_ : Z) (st : Z * Z * Z) : Z * Z * Z :=
  match s with
  | [] => st
  | x :: rest =>
    let '(collapse, collapse_start, collapse_end) := st in
    collapse_find rest (iter + 1) end_
      (if x =? 0 then
         (if collapse =? end_ then (iter, collapse_start, collapse_end) else st)
       else
         (if negb (collapse =? end_) then
            (if iter - collapse >? collapse_end - collapse_start
             then (end_, collapse, iter)
             else (end_, collapse_start, collapse_end))
          else st))
  end.

(** Second loop of [collapse]: the segments are written to [buf]. *)
Fixpoint collapse_print (s : list Z) (iter end_ collapse_start collapse_end : Z)
  (buf : list ascii) : list ascii :=
  match s with
  | [] => buf
  | x :: rest =>
    let buf1 := if iter =? collapse_start then buf ++ [":"; ":"]%char else buf in
    if (iter >=? collapse_start) && (iter <? collapse_end) then
      collapse_print rest (iter + 1) end_ collapse_start collapse_end buf1
    else
      let buf2 := buf1 ++ put_unsigned 16 x in
      let buf3 :=
        if negb (iter + 1 =? end_) && negb (iter + 1 =? collapse_start)
        then buf2 ++ [":"]%char else buf2 in
      collapse_print rest (iter + 1) end_ collapse_start collapse_end buf3
  end.

Definition collapse (s : list Z) : list ascii :=
  let end_ := Z.of_nat (length s) in
  let '(collapse, collapse_start, collapse_end) :=
    collapse_find s 0 end_ (end_, end_, end_) in
  (* In the case of "::" at the end. *)
  let '(collapse_start, collapse_end) :=
    if negb (collapse =? end_) then
      (if end_ - collapse >? collapse_end - collapse_start
       then (collapse, end_) else (collapse_start, collapse_end))
    else (collapse_start, collapse_end) in
  (* If longest consecutive chain is 1 segment long, we do not collapse *)
  let collapse_start :=
    if collapse_end - collapse_start =? 1 then end_ else collapse_start in
  collapse_print s 0 end_ collapse_start collapse_end [].

Definition is_hex (c : ascii) : bool :=
  ((code c >=? code "a") && (code c <=? code "f")) ||
  ((code c >=? code "A") && (code c <=? code "F")) ||
  ((code c >=? code "0") && (code c <=? code "9")).

Definition hex_digit (c : ascii) : Z :=
  if (code c >=? code "a") && (code c <=? code "f") then code c - code "a" + 10
  else if (code c >=? code "A") && (code c <=? code "F") then code c - code "A" + 10
  else code c - code "0".

(** [buf >> std::hex >> result] into a [uint16_t], on a string of hexadecimal
    digits: a value that does not fit is stored as the largest [uint16_t]. *)
Definition parse_segment (s : list ascii) : Z :=
  let v := fold_left (fun acc c => acc * 16 + hex_digit c) s 0 in
  if v >? 0xffff then 0xffff else v.

(** The variables of [parse] that are live after its [for] loop.
    [segments = &segments_second] is [in_second]; [segment_start] is the
    range from that iterator to [end]. *)
Record scan : Type := Scan {
  segments_first : list Z;
  segments_second : list Z;
  in_second : bool;
  segment_start : list ascii;
  IPv4_embedded : bool
}.

Definition push_back (st : scan) (x : Z) : scan :=
  if in_second st
  then Scan (segments_first st) (segments_second st ++ [x]) true
            (segment_start st) (IPv4_embedded st)
  else Scan (segments_first st ++ [x]) (segments_second st) false
            (segment_start st) (IPv4_embedded st).

(** The [for] loop of [parse]: [s] is the range from [iter] to [end] and
    [seg] the range from [segment_start] to [iter]. *)
Fixpoint parse_loop (text s seg : list ascii) (first second : list Z)
  (second_active : bool) : result scan :=
  match s with
  | [] => Ok (Scan first second second_active seg false)
  | c :: rest =>
    if is_hex c then parse_loop text rest (seg ++ [c]) first second second_active
    else if code c =? code ":" then
      if Z.of_nat (length seg) >? 4 then Throw (Invalid_IPv6_format text)
      else if Z.of_nat (length seg) =? 0 then
        if second_active then Throw (Invalid_IPv6_format text)
        else parse_loop text rest [] first second true
      else if second_active
        then parse_loop text rest [] first (second ++ [parse_segment seg]) true
        else parse_loop text rest [] (first ++ [parse_segment seg]) second false
    else if code c =? code "." then
      Ok (Scan first second second_active (seg ++ c :: rest) true)
    else Throw (Invalid_IPv6_format text)
  end.

Fixpoint place_first (s : list Z) (i : Z) (a : t) : t :=
  match s with
  | [] => a
  | x :: rest =>
    place_first rest (i + 1)
      (if i <? 4
       then IPv6 (Z.lor (network a) (wrap 64 (Z.shiftl x ((3 - i) * 16)))) (host a)
       else IPv6 (network a) (Z.lor (host a) (wrap 64 (Z.shiftl x ((7 - i) * 16)))))
  end.

(** [rs] is [segments_second] read backwards. *)
Fixpoint place_second (rs : list Z) (i : Z) (a : t) : t :=
  match rs with
  | [] => a
  | x :: rest =>
    place_second rest (i + 1)
      (if i <? 4
       then IPv6 (network a) (Z.lor (host a) (wrap 64 (Z.shiftl x (i * 16))))
       else IPv6 (Z.lor (network a) (wrap 64 (Z.shiftl x ((i - 4) * 16)))) (host a))
  end.

(** The statements of [parse] after its [for] loop; [back] is [*(end-1)]. *)
Definition parse_finish (text : list ascii) (back : ascii) (st : scan) : result t :=
  if (code back =? code ":") &&
     negb (in_second st && (Z.of_nat (length (segments_second st)) =? 0))
  then Throw (Invalid_IPv6_format text)
  else
    st <- (if IPv4_embedded st then
             embedded_part <- IPv4.parse (segment_start st) ;;
             Ok (push_back
                   (push_back st (Z.shiftr (IPv4.value embedded_part) 16))
                   (Z.land (IPv4.value embedded_part) 0xffff))
           else if negb (code back =? code ":") then
             Ok (push_back st (parse_segment (segment_start st)))
           else Ok st) ;;
    let size1 := Z.of_nat (length (segments_first st)) in
    let size2 := Z.of_nat (length (segments_second st)) in
    if (if negb (in_second st) then negb (size1 =? 8) else size1 + size2 >=? 8)
    then Throw (Invalid_IPv6_format text)
    else
      Ok (place_second (rev (segments_second st)) 0
            (place_first (segments_first st) 0 (IPv6 0 0))).

(** [parse(begin, end)]; on an empty range [*begin] reads through the end
    iterator, and so does [*(begin+1)] on the text [":"]. *)
Definition parse (text : list ascii) : result t :=
  match text with
  | [] => Undefined
  | c :: rest =>
    st <- (if code c =? code ":" then
             match rest with
             | [] => Undefined
             | c' :: rest' =>
               if negb (code c' =? code ":") then Throw (Invalid_IPv6_format text)
               else parse_loop text rest' [] [] [] true
             end
           else parse_loop text text [] [] [] false) ;;
    parse_finish text (last text c) st
  end.

Definition network_zeros (a : t) (prefix : Z) : result t :=
  if prefix =? 0 then Ok (IPv6 0 0)
  else if prefix >? 64 then
    m <- shl 64 0xffffffffffffffff (128 - prefix) ;;
    Ok (IPv6 (network a) (Z.land (host a) m))
  else
    m <- shl 64 0xffffffffffffffff (64 - prefix) ;;
    Ok (IPv6 (Z.land (network a) m) 0).

Definition network_ones (a : t) (prefix : Z) : result t :=
  if prefix =? 0 then Ok (IPv6 0xffffffffffffffff 0xffffffffffffffff)
  else if prefix >? 64 then
    m <- shl 64 0xffffffffffffffff (128 - prefix) ;;
    Ok (IPv6 (network a) (Z.lor (host a) (bnot 64 m)))
  else
    m <- shl 64 0xffffffffffffffff (64 - prefix) ;;
    Ok (IPv6 (Z.lor (network a) (bnot 64 m)) 0xffffffffffffffff).

Definition to_string (a : t) : list ascii := collapse (segmentize a).

(** eg. "2001:db8::16.32.0.255". [*(v6part.end() - 1)] on an empty string
    reads before its beginning; [segments[6] << 16] is computed on [int]. *)
Definition to_string_v4_mapped (a : t) : result (list ascii) :=
  let segments := segmentize a in
  let v6part := collapse (firstn (length segments - 2) segments) in
  match v6part with
  | [] => Undefined
  | c :: _ =>
    hi <- shl_int (nth 6 segments 0) 16 ;;
    (* If there is a "::" at the end, we don't add another *)
    Ok (v6part ++ (if code (last v6part c) =? code ":" then [] else [":"%char]) ++
        IPv4.to_string (IPv4.IPv4 (Z.lor hi (nth 7 segments 0))))
  end.

(** One round of the loop of the lambda [print_part] of [to_string_full];
    the shift count [i*4] is at most 60. *)
Definition print_digit (part : Z) (buf : list ascii) (i : Z) : list ascii :=
  let buf := buf ++ put_unsigned 16 (Z.land (Z.shiftr part (i * 4)) 0xf) in
  if (i mod 4 =? 0) && negb (i =? 0) then buf ++ [":"%char] else buf.

(** A local lambda to print a single address part, ommiting the trailing
    ":": the loop runs [i] from 15 down to 0. *)
Definition print_part (part : Z) (buf : list ascii) : list ascii :=
  fold_left (print_digit part) (map Z.of_nat (rev (seq 0 16))) buf.

(** eg. "2001:0db8:0000:0000:0000:0000:1020:00ff" *)
Definition to_string_full (a : t) : list ascii :=
  print_part (host a) (print_part (network a) [] ++ [":"%char]).

(** [static_cast<uint64_t>(a.value) << 16] is a shift on [uint64_t]. *)
Definition prefix_6to4 (a : IPv4.t) : t :=
  IPv6 (Z.lor 0x2002000000000000 (wrap 64 (Z.shiftl (IPv4.value a) 16))) 0.

Definition next (a : t) (prefix : Z) : result t :=
  if (prefix <? 0) || (prefix >? bit_length) then Throw Invalid_prefix_size
  else if prefix <=? 64 then
    d <- shl 64 1 (64 - prefix) ;;
    Ok (IPv6 (wrap 64 (network a + d)) (host a))
  else
    d <- shl 64 1 (128 - prefix) ;;
    let newhost := wrap 64 (host a + d) in
    Ok (IPv6 (wrap 64 (network a + (if newhost <? host a then 1 else 0)))
             newhost).

Definition previous (a : t) (prefix : Z) : result t :=
  if (prefix <? 0) || (prefix >? bit_length) then Throw Invalid_prefix_size
  else if prefix <=? 64 then
    d <- shl 64 1 (64 - prefix) ;;
    Ok (IPv6 (wrap 64 (network a - d)) (host a))
  else
    d <- shl 64 1 (128 - prefix) ;;
    let newhost := wrap 64 (host a - d) in
    Ok (IPv6 (wrap 64 (network a - (if newhost >? host a then 1 else 0)))
             newhost).

Definition lt (a b : t) : bool :=
  (network a <? network b) || ((network a =? network b) && (host a <? host b)).
Definition gt (a b : t) : bool :=
  (network a >? network b) || ((network a =? network b) && (host a >? host b)).
Definition le (a b : t) : bool := negb (gt a b).
Definition ge (a b : t) : bool := negb (lt a b).
Definition eq (a b : t) : bool :=
  (network a =? network b) && (host a =? host b).
Definition ne (a b : t) : bool := negb (eq a b).

(** The values the two [uint64_t] fields can hold. *)
Definition wf (a : t) : Prop :=
  0 <= network a < 2 ^ 64 /\ 0 <= host a < 2 ^ 64.

End IPv6.

#[export] Instance IPv6_Address : Address IPv6.t := {|
  bit_length := IPv6.bit_length;
  ctor := IPv6.IPv6 0 0;
  parse := IPv6.parse;
  to_string := IPv6.to_string;
  network_zeros := IPv6.network_zeros;
  network_ones := IPv6.network_ones;
  next := IPv6.next;
  previous := IPv6.previous;
  lt := IPv6.lt;
  le := IPv6.le;
  eq := IPv6.eq
|}.

(** * BgpCompare.cpp *)

Module IPNode.
Record t (T : Type) : Type := IPNode { ip : T; prefix : Z }.
Arguments IPNode {T} ip prefix.
Arguments ip {T} _.
Arguments prefix {T} _.
End IPNode.

Inductive IPMarkerType : Type :=
| ipm_invalid
| ipm_a_open
| ipm_a_close
| ipm_b_open
| ipm_b_close.

Definition IPMarkerType_eqb (a b : IPMarkerType) : bool :=
  match a, b with
  | ipm_invalid, ipm_invalid
  | ipm_a_open, ipm_a_open
  | ipm_a_close, ipm_a_close
  | ipm_b_open, ipm_b_open
  | ipm_b_close, ipm_b_close => true
  | _, _ => false
  end.

Module IPMarker.
Record t (T : Type) : Type := IPMarker { ip : T; type : IPMarkerType }.
Arguments IPMarker {T} ip type.
Arguments ip {T} _.
Arguments type {T} _.

(** [operator <] of [IPMarker]: only the addresses are compared. *)
Definition lt {T : Type} `{Address T} (a b : t T) : bool := lt (ip a) (ip b).
End IPMarker.

(** ** Output adapters

    An adapter acts on what its callback writes to: [std::cout] for
    [SimpleAdapter] and [DiffAdapter], the marker vector for [InsertAdapter].
    That object is the state [O] threaded through the calls. *)
Record OutputAdapter (T O : Type) : Type := {
  callback : IPNode.t T -> O -> result O;
  empty : bool
}.
Arguments callback {T O} _ _ _.
Arguments empty {T O} _.

(** [std::cout], as the lines written so far. *)
Definition ostream : Type := list (list ascii).

(** ** Comparison kernels *)

Record ComparisonKernel : Type := {
  call : Z -> Z -> bool;
  symetric : bool
}.

Definition UnionKernel : ComparisonKernel :=
  {| call := fun A B => (A >? 0) || (B >? 0); symetric := true |}.

Definition IntersectionKernel : ComparisonKernel :=
  {| call := fun A B => (A >? 0) && (B >? 0); symetric := true |}.

Definition DifferenceKernel : ComparisonKernel :=
  {| call := fun A B => (A =? 0) && (B >? 0); symetric := false |}.

(** ** Loops *)

(** A [while] loop whose body either continues with a new state ([inl]) or
    leaves the loop with a value ([inr]), run for at most [2 ^ n] rounds. *)
Fixpoint iterate {S R : Type} (n : nat) (body : S -> result (S + R)) (s : S)
  : result (S + R) :=
  match n with
  | O => body s
  | Datatypes.S n' =>
    r <- iterate n' body s ;;
    match r with
    | inl s' => iterate n' body s'
    | inr x => Ok (inr x)
    end
  end.

Fixpoint for_each {A O : Type} (f : A -> O -> result O) (l : list A) (o : O)
  : result O :=
  match l with
  | [] => Ok o
  | a :: l' => o' <- f a o ;; for_each f l' o'
  end.

(** The body of a loop run at most [k] times. *)
Fixpoint repeat_body {S R : Type} (k : nat) (body : S -> result (S + R)) (s : S)
  : result (S + R) :=
  match k with
  | O => Ok (inl s)
  | Datatypes.S k' =>
    r <- body s ;;
    match r with
    | inl s' => repeat_body k' body s'
    | inr x => Ok (inr x)
    end
  end.

Section Templates.

Context {T : Type} `{Address T}.

Definition EmptyOutputAdapter {O : Type} : OutputAdapter T O :=
  {| callback := fun _ o => Ok o; empty := true |}.

Definition SimpleAdapter : OutputAdapter T ostream :=
  {| callback := fun node out =>
       Ok (out ++ [to_string (IPNode.ip node) ++ "/"%char ::
                   put_short (IPNode.prefix node)]);
     empty := false |}.

Definition DiffAdapter (prefix_ : list ascii) : OutputAdapter T ostream :=
  {| callback := fun node out =>
       Ok (out ++ [prefix_ ++ to_string (IPNode.ip node) ++ "/"%char ::
                   put_short (IPNode.prefix node)]);
     empty := false |}.

(** An adapter that keeps the nodes it is called with. *)
Definition Recorder : OutputAdapter T (list (IPNode.t T)) :=
  {| callback := fun node out => Ok (out ++ [node]); empty := false |}.

(** The [for] loop of [add]: the first [i], counting up from the given one
    for [n] rounds, with [start.network_zeros(i) == start &&
    start.network_ones(i) <= stop]; [None] when the loop ends without one. *)
Fixpoint add_for (n : nat) (i : Z) (start stop : T) : result (option Z) :=
  match n with
  | O => Ok None
  | S n' =>
    z <- network_zeros start i ;;
    found <- (if eq z start
              then o <- network_ones start i ;; Ok (le o stop)
              else Ok false) ;;
    if found then Ok (Some i) else add_for n' (i + 1) start stop
  end.

(** One round of the [while] loop of [add]: [inl] is the next value of
    [start], [inr] leaves the function. [network_ones()] is the call with the
    default prefix 0, [next()] the call with the default prefix [bit_length]. *)
Definition add_body {O : Type} (stop : T) (cb : OutputAdapter T O)
  (st : T * O) : result (T * O + O) :=
  let '(start, o) := st in
  if lt start stop then
    r <- add_for (Z.to_nat (bit_length + 1)) 0 start stop ;;
    match r with
    | Some i =>
      o' <- callback cb (IPNode.IPNode start i) o ;;
      (* We have reached the top of the IP address space *)
      e <- network_ones start i ;;
      top <- network_ones start 0 ;;
      if eq e top then Ok (inr o')
      else
        e <- network_ones start i ;;
        start' <- next e bit_length ;;
        Ok (inl (start', o'))
    | None => Ok (inl (start, o))
    end
  else Ok (inr o).

(** Collapses an IP range into a collection of subnets with lowest prefix
    lengths. *)
Definition add {O : Type} (start stop : T) (cb : OutputAdapter T O) (o : O)
  : result O :=
  r <- iterate (Z.to_nat bit_length) (add_body stop cb) (start, o) ;;
  match r with
  | inr o' => Ok o'
  | inl _ => Timeout
  end.

(** [struct batch_data] of [traverse]; the callback is kept outside. *)
Record batch_data : Type := Batch {
  count : Z;
  inside : bool;
  start : T
}.

(** The lambda [track] of [traverse], with the captured [open] and
    [iter->ip] as arguments; [next()] and [previous()] are the calls with
    the default prefix [bit_length]. *)
Definition track {O : Type} (kernel : ComparisonKernel) (open : bool) (ip : T)
  (A_ B_ : batch_data) (cb : OutputAdapter T O) (o : O)
  : result (batch_data * O) :=
  if call kernel (count A_) (count B_) then
    if negb (inside A_) then
      if open then Ok (Batch (count A_) true ip, o)
      else n <- next ip bit_length ;; Ok (Batch (count A_) true n, o)
    else Ok (A_, o)
  else
    if inside A_ then
      if open then
        p <- previous ip bit_length ;;
        o' <- add (start A_) p cb o ;;
        Ok (Batch (count A_) false (start A_), o')
      else
        o' <- add (start A_) ip cb o ;;
        Ok (Batch (count A_) false (start A_), o')
    else Ok (A_, o).

(** The four counting statements at the head of the loop of [traverse]. *)
Definition count_marker (m : IPMarker.t T) (AB : batch_data * batch_data)
  : result (batch_data * batch_data) :=
  let '(A, B) := AB in
  ca <- (if IPMarkerType_eqb (IPMarker.type m) ipm_a_open
         then int_check (count A + 1) else Ok (count A)) ;;
  ca <- (if IPMarkerType_eqb (IPMarker.type m) ipm_a_close
         then int_check (ca - 1) else Ok ca) ;;
  cb <- (if IPMarkerType_eqb (IPMarker.type m) ipm_b_open
         then int_check (count B + 1) else Ok (count B)) ;;
  cb <- (if IPMarkerType_eqb (IPMarker.type m) ipm_b_close
         then int_check (cb - 1) else Ok cb) ;;
  Ok (Batch ca (inside A) (start A), Batch cb (inside B) (start B)).

Definition is_open (m : IPMarker.t T) : bool :=
  IPMarkerType_eqb (IPMarker.type m) ipm_a_open ||
  IPMarkerType_eqb (IPMarker.type m) ipm_b_open.

(** The part of the loop body of [traverse] after the [continue]:
    [track(A,B)] and, unless the second callback is empty, [track(B,A)]. *)
Definition visit {O : Type} (kernel : ComparisonKernel) (open : bool) (ip : T)
  (callback_a callback_b : OutputAdapter T O)
  (st : batch_data * batch_data * O) : result (batch_data * batch_data * O) :=
  let '(A, B, o) := st in
  ' (A, o) <- track kernel open ip A B callback_a o ;;
  if negb (empty callback_b) then
    ' (B, o) <- track kernel open ip B A callback_b o ;;
    Ok (A, B, o)
  else Ok (A, B, o).

(** The loop of [traverse] over the markers from [iter] to [stop]. *)
Fixpoint traverse_loop {O : Type} (markers : list (IPMarker.t T))
  (kernel : ComparisonKernel) (callback_a callback_b : OutputAdapter T O)
  (st : batch_data * batch_data * O) : result (batch_data * batch_data * O) :=
  match markers with
  | [] => Ok st
  | m :: rest =>
    let '(A, B, o) := st in
    ' (A, B) <- count_marker m (A, B) ;;
    let open := is_open m in
    (* We would like to skip duplicate block starts (while still counting
       them above, of course) *)
    if match rest with
       | m' :: _ => eq (IPMarker.ip m') (IPMarker.ip m)
       | [] => false
       end
    then traverse_loop rest kernel callback_a callback_b (A, B, o)
    else
      st' <- visit kernel open (IPMarker.ip m) callback_a callback_b (A, B, o) ;;
      traverse_loop rest kernel callback_a callback_b st'
  end.

(** Traverses the marker vector, applies appropriate comparison kernel and
    invokes appropriate callbacks. *)
Definition traverse {O : Type} (markers : list (IPMarker.t T))
  (kernel : ComparisonKernel) (callback_a callback_b : OutputAdapter T O)
  (o : O) : result O :=
  ' (_, _, o') <- traverse_loop markers kernel callback_a callback_b
                    (Batch 0 false ctor, Batch 0 false ctor, o) ;;
  Ok o'.

Definition InsertAdapter (start_ stop_ : IPMarkerType)
  : OutputAdapter T (list (IPMarker.t T)) :=
  {| callback := fun node vector_ =>
       z <- network_zeros (IPNode.ip node) (IPNode.prefix node) ;;
       o <- network_ones (IPNode.ip node) (IPNode.prefix node) ;;
       Ok ((vector_ ++ [IPMarker.IPMarker z start_]) ++ [IPMarker.IPMarker o stop_]);
     empty := false |}.

(** [read_regexp], from the point where the lines of the file have been
    matched: [matches] holds, for each matched line, the text of the first
    capture and the number [atoi] reads from the second one, as a [short]. *)
Definition read_regexp {O : Type} (matches : list (list ascii * Z))
  (cb : OutputAdapter T O) (o : O) : result O :=
  for_each (fun m o =>
              a <- parse (fst m) ;;
              callback cb (IPNode.IPNode a (snd m)) o)
           matches o.

(** [std::sort] on the marker vector: some permutation ordered by
    [operator <]; which one, among markers with equal addresses, is left
    open by the library. *)
Variable std_sort : list (IPMarker.t T) -> list (IPMarker.t T).

Definition process (file1 file2 : list (list ascii * Z))
  (kernel : ComparisonKernel) (cout : ostream) : result ostream :=
  markers <- read_regexp file1 (InsertAdapter ipm_a_open ipm_a_close) [] ;;
  markers <- read_regexp file2 (InsertAdapter ipm_b_open ipm_b_close) markers ;;
  let markers := std_sort markers in
  (* Deep magic begins here *)
  if symetric kernel
  then traverse markers kernel SimpleAdapter EmptyOutputAdapter cout
  else traverse markers kernel (DiffAdapter ["+"%char]) (DiffAdapter ["-"%char]) cout.

End Templates.

(** A sort that meets the contract of [std::sort]: insertion sort, which
    keeps markers with equal addresses in their order of arrival. *)
Fixpoint insert_marker {T : Type} `{Address T} (m : IPMarker.t T)
  (l : list (IPMarker.t T)) : list (IPMarker.t T) :=
  match l with
  | [] => [m]
  | x :: l' => if IPMarker.lt m x then m :: l else x :: insert_marker m l'
  end.

Definition insertion_sort {T : Type} `{Address T} (l : list (IPMarker.t T))
  : list (IPMarker.t T) :=
  fold_left (fun acc m => insert_marker m acc) l [].

(** * Specification vocabulary *)

(** The address as a number: the 32-bit value, and the 128-bit value whose
    high half is [network] and whose low half is [host]. *)
Definition IPv4_to_Z (a : IPv4.t) : Z := IPv4.value a.
Definition IPv6_to_Z (a : IPv6.t) : Z := IPv6.network a * 2 ^ 64 + IPv6.host a.

(** What the templates rely on: an address class is the numbers below
    [2 ^ bit_length], with floor and ceiling at a prefix, successor and
    predecessor modulo [2 ^ bit_length], and the order of the numbers. *)
Class AddressLaws (T : Type) `{Address T} : Type := {
  wf : T -> Prop;
  to_Z : T -> Z;
  bit_length_pos : 0 < bit_length;
  to_Z_range : forall a, wf a -> 0 <= to_Z a < 2 ^ bit_length;
  to_Z_inj : forall a b, wf a -> wf b -> to_Z a = to_Z b -> a = b;
  network_zeros_spec : forall a p, wf a -> 0 <= p <= bit_length ->
    exists z, network_zeros a p = Ok z /\ wf z /\
      to_Z z = to_Z a / 2 ^ (bit_length - p) * 2 ^ (bit_length - p);
  network_ones_spec : forall a p, wf a -> 0 <= p <= bit_length ->
    exists o, network_ones a p = Ok o /\ wf o /\
      to_Z o = to_Z a / 2 ^ (bit_length - p) * 2 ^ (bit_length - p)
               + 2 ^ (bit_length - p) - 1;
  next_spec : forall a, wf a ->
    exists n, next a bit_length = Ok n /\ wf n /\
      to_Z n = (to_Z a + 1) mod 2 ^ bit_length;
  previous_spec : forall a, wf a ->
    exists n, previous a bit_length = Ok n /\ wf n /\
      to_Z n = (to_Z a - 1) mod 2 ^ bit_length;
  lt_spec : forall a b, wf a -> wf b -> lt a b = (to_Z a <? to_Z b);
  le_spec : forall a b, wf a -> wf b -> le a b = (to_Z a <=? to_Z b);
  eq_spec : forall a b, wf a -> wf b -> eq a b = (to_Z a =? to_Z b)
}.

Section Blocks.

Context {T : Type} `{AddressLaws T}.

(** The addresses of a block [(address, prefix)]: from the address up to
    the last address with the same first [prefix] bits. *)
Definition block_first (b : IPNode.t T) : Z := to_Z (IPNode.ip b).
Definition block_last (b : IPNode.t T) : Z :=
  to_Z (IPNode.ip b) + 2 ^ (bit_length - IPNode.prefix b) - 1.
Definition covers (b : IPNode.t T) (x : Z) : Prop :=
  block_first b <= x <= block_last b.

(** [block.address == block.address.floor(block.prefix)] *)
Definition aligned (b : IPNode.t T) : Prop :=
  wf (IPNode.ip b) /\ 0 <= IPNode.prefix b <= bit_length /\
  network_zeros (IPNode.ip b) (IPNode.prefix b) = Ok (IPNode.ip b).

Definition ascending (bs : list (IPNode.t T)) : Prop :=
  StronglySorted (fun b1 b2 => block_first b1 < block_first b2) bs.

Definition non_overlapping (bs : list (IPNode.t T)) : Prop :=
  ForallOrdPairs (fun b1 b2 => forall x, ~ (covers b1 x /\ covers b2 x)) bs.

(** Each block starts right after the one before it. *)
Definition contiguous (bs : list (IPNode.t T)) : Prop :=
  forall l1 b1 b2 l2, bs = l1 ++ b1 :: b2 :: l2 ->
    block_first b2 = block_last b1 + 1.

(** The two blocks together are exactly one aligned block. *)
Definition mergeable (b1 b2 : IPNode.t T) : Prop :=
  exists a p, 0 <= p <= bit_length /\ a mod 2 ^ (bit_length - p) = 0 /\
    forall x, (covers b1 x \/ covers b2 x) <-> a <= x <= a + 2 ^ (bit_length - p) - 1.

Definition no_adjacent_mergeable (bs : list (IPNode.t T)) : Prop :=
  forall l1 b1 b2 l2, bs = l1 ++ b1 :: b2 :: l2 -> ~ mergeable b1 b2.

(** The set of addresses the blocks cover is the interval [[lo, hi]]. *)
Definition union_is (bs : list (IPNode.t T)) (lo hi : Z) : Prop :=
  forall x, (exists b, In b bs /\ covers b x) <-> lo <= x <= hi.

(** Prefix [j] fits at [a] below [stop]: the block is aligned and does not
    reach beyond [stop]. *)
Definition fits (stop a j : Z) : Prop :=
  a mod 2 ^ (bit_length - j) = 0 /\ a + 2 ^ (bit_length - j) - 1 <= stop.

(** The blocks are the greedy choice for the interval that ends at [stop]:
    starting at [a] and ending right before [b], each one chosen below
    [stop], aligned, ending no later than [stop], and such that no shorter
    prefix would have done. *)
Fixpoint greedy_chain (stop a : Z) (bs : list (IPNode.t T)) (b : Z) : Prop :=
  match bs with
  | [] => a = b
  | x :: bs' =>
    wf (IPNode.ip x) /\ to_Z (IPNode.ip x) = a /\ a < stop /\
    0 <= IPNode.prefix x <= bit_length /\
    fits stop a (IPNode.prefix x) /\
    (forall j, 0 <= j < IPNode.prefix x -> ~ fits stop a j) /\
    greedy_chain stop (a + 2 ^ (bit_length - IPNode.prefix x)) bs' b
  end.

End Blocks.

(** The contract of [std::sort] on the marker vector. *)
Definition sorts {T : Type} `{Address T}
  (sort : list (IPMarker.t T) -> list (IPMarker.t T)) : Prop :=
  forall l, Permutation l (sort l) /\
            StronglySorted (fun a b => IPMarker.lt b a = false) (sort l).

(** ** Arrangements of a marker vector *)

Fixpoint insert_all {A : Type} (x : A) (l : list A) : list (list A) :=
  match l with
  | [] => [[x]]
  | y :: l' => (x :: l) :: map (cons y) (insert_all x l')
  end.

(** All the orders in which the elements of [l] can be arranged. *)
Fixpoint arrangements {A : Type} (l : list A) : list (list A) :=
  match l with
  | [] => [[]]
  | x :: l' => flat_map (insert_all x) (arrangements l')
  end.

(** No marker is followed, anywhere later, by one that [operator <] puts
    before it. *)
Fixpoint ordered {T : Type} `{Address T} (l : list (IPMarker.t T)) : bool :=
  match l with
  | [] => true
  | x :: l' => forallb (fun y => negb (IPMarker.lt y x)) l' && ordered l'
  end.

(** The results [std::sort] may leave in the marker vector. *)
Definition sorted_arrangements {T : Type} `{Address T} (l : list (IPMarker.t T))
  : list (list (IPMarker.t T)) :=
  filter ordered (arrangements l).

(** A string literal as a [std::string]. *)
Definition text (s : string) : list ascii := list_ascii_of_string s.

(** ** Text *)

(** What [buf << "a" << ":" << "b"] builds from the texts of the segments:
    the texts with a colon between each two. *)
Fixpoint join_colon (l : list (list ascii)) : list ascii :=
  match l with
  | [] => []
  | [t] => t
  | t :: l' => t ++ ":"%char :: join_colon l'
  end.

(** The value, in the given base, of the digits read so far followed by
    those of [s]; [val] gives the value of a digit. *)
Definition digits_value (val : ascii -> Z) (base : Z) (s : list ascii) (sofar : Z) : Z :=
  fold_left (fun acc c => acc * base + val c) s sofar.

Definition is_dec_digit (c : ascii) : bool :=
  (code c <=? code "9") && (code c >=? code "0").

(** The value of a decimal digit, as [parse] of [IPv4] takes it. *)
Definition dec_val (c : ascii) : Z := code c - code "0".

(** The characters [put_unsigned] writes in the given base. *)
Definition is_digit_of_base (base : Z) (c : ascii) : Prop :=
  exists d, 0 <= d < base /\ c = digit_char d.

(** A segment as [buf << std::hex] writes it. *)
Abbreviation hex := (put_unsigned 16).

(** The digits [buf << std::hex] writes: [0-9] and lower-case [a-f]. *)
Definition is_lower_hex (c : ascii) : bool :=
  ((code c >=? code "0") && (code c <=? code "9")) ||
  ((code c >=? code "a") && (code c <=? code "f")).

(** No leading zero: the text is the single digit 0 or starts with another
    digit. *)
Definition no_leading_zero (s : list ascii) : Prop :=
  match s with
  | [] => False
  | [c] => True
  | c :: _ => c <> "0"%char
  end.

(** The segments from position [s] on, [len] of them, are all zero. *)
Definition zero_run (segs : list Z) (s len : nat) : Prop :=
  (s + len <= length segs)%nat /\
  forall i, (s <= i < s + len)%nat -> nth i segs 1 = 0.

(** The segments at the positions from [s] up to, not including, [e] are
    all zero; positions are iterator positions, as in [collapse]. *)
Definition zeros_between (segs : list Z) (s e : Z) : Prop :=
  0 <= s < e /\ e <= Z.of_nat (length segs) /\
  forall j, s <= j < e -> nth (Z.to_nat j) segs 1 = 0.

(** What the first loop of [collapse] knows when [iter] is at position [i]:
    [c], the value of [collapse], is [end] or the start of the zeros that
    reach up to [i], and [(cs, ce)], the values of [collapse_start] and
    [collapse_end], is the first longest run of zeros among those that ended
    before. *)
Definition collapse_find_invariant (segs : list Z) (i c cs ce : Z) : Prop :=
  let N := Z.of_nat (length segs) in
  let seg j := nth (Z.to_nat j) segs 1 in
  let lim := if c =? N then i else c in
  0 <= i <= N /\
  ((c = N /\ (i = 0 \/ seg (i - 1) <> 0)) \/
   (0 <= c < i /\ (forall j, c <= j < i -> seg j = 0) /\ (c = 0 \/ seg (c - 1) <> 0))) /\
  ((cs = N /\ ce = N) \/ (zeros_between segs cs ce /\ ce <= lim)) /\
  (forall s e, zeros_between segs s e -> e <= lim ->
     e - s <= ce - cs /\ (e - s = ce - cs -> cs <= s)).

(** ** Vocabulary of the further properties *)

(** The same marker, seen from the other input. *)
Definition swap_type (t : IPMarkerType) : IPMarkerType :=
  match t with
  | ipm_invalid => ipm_invalid
  | ipm_a_open => ipm_b_open
  | ipm_a_close => ipm_b_close
  | ipm_b_open => ipm_a_open
  | ipm_b_close => ipm_a_close
  end.

Definition swap_marker {T : Type} (m : IPMarker.t T) : IPMarker.t T :=
  IPMarker.IPMarker (IPMarker.ip m) (swap_type (IPMarker.type m)).

(** A block handed out by the sweep, with the track that hands it out:
    [true] for the first callback, [false] for the second. *)
Definition emit {T O : Type} (callback_a callback_b : OutputAdapter T O)
  (e : bool * IPNode.t T) (o : O) : result O :=
  callback (if fst e then callback_a else callback_b) (snd e) o.

(** The text [d] is a decimal number of one digit or more, leading zeros
    allowed, whose value [v] is below 256. *)
Definition octet_text (d : list ascii) (v : Z) : Prop :=
  d <> [] /\ forallb is_dec_digit d = true /\
  digits_value dec_val 10 d 0 = v /\ v < 256.

(** A 16-bit segment written with exactly four hexadecimal digits. *)
Definition hex4 (x : Z) : list ascii :=
  [digit_char (Z.land (Z.shiftr x 12) 0xf); digit_char (Z.land (Z.shiftr x 8) 0xf);
   digit_char (Z.land (Z.shiftr x 4) 0xf); digit_char (Z.land (Z.shiftr x 0) 0xf)].

(** What reading the input relies on besides: the default address and
    the addresses [parse] returns hold values of their fields, and the
    floor of an address at a prefix outside of [[0, bit_length]] is
    undefined. *)
Class InputLaws (T : Type) `{AddressLaws T} : Prop := {
  ctor_wf : wf ctor;
  parse_wf : forall text a, parse text = Ok a -> wf a;
  network_zeros_unchecked : forall a p,
    p < 0 \/ bit_length < p -> network_zeros a p = Undefined
}.

(** A line of the input that can be read: its address is well formed and
    its prefix is within the width. *)
Definition valid_line {T : Type} `{Address T} (line : list ascii * Z) : Prop :=
  (exists a : T, parse (fst line) = Ok a) /\ 0 <= snd line <= bit_length.

(** The two markers [InsertAdapter] appends for a line: the first and the
    last address of the block of the line. *)
Definition line_markers {T : Type} `{AddressLaws T} (start_ stop_ : IPMarkerType)
  (line : list ascii * Z) (ms : list (IPMarker.t T)) : Prop :=
  exists a z o,
    parse (fst line) = Ok a /\
    network_zeros a (snd line) = Ok z /\ network_ones a (snd line) = Ok o /\
    wf z /\ wf o /\ to_Z z <= to_Z a <= to_Z o /\
    ms = [IPMarker.IPMarker z start_; IPMarker.IPMarker o stop_].

(** The line [process] prints for a block: as [SimpleAdapter] writes it
    for a symmetric kernel, as [DiffAdapter] writes it, with the label of
    its track, otherwise. *)
Definition output_line {T : Type} `{Address T} (kernel : ComparisonKernel)
  (e : bool * IPNode.t T) : list ascii :=
  (if symetric kernel then [] else if fst e then ["+"%char] else ["-"%char]) ++
  to_string (IPNode.ip (snd e)) ++ "/"%char :: put_short (IPNode.prefix (snd e)).

(** The text of one segment as [parse] of the 128-bit class takes it
    before a colon: one to four hexadecimal digits, of either case. *)
Definition segment_text (t : list ascii) : Prop :=
  (1 <= length t <= 4)%nat /\ forallb IPv6.is_hex t = true.

(** The characters of the notations of addresses: the decimal digits and
    the dot for the 32-bit class; the hexadecimal digits, the colon and the
    dot for the 128-bit class. *)
Definition IPv4_char (c : ascii) : bool :=
  is_dec_digit c || (code c =? code ".").

Definition IPv6_char (c : ascii) : bool :=
  IPv6.is_hex c || (code c =? code ":") || (code c =? code ".").

(** The eight 16-bit groups of a 128-bit number, the most significant
    first. *)
Definition groups (v : Z) : list Z :=
  map (fun i => (v / 2 ^ (16 * (7 - i))) mod 2 ^ 16) [0; 1; 2; 3; 4; 5; 6; 7].

(** The value of a lower-case hexadecimal digit. *)
Definition lower_hex_val (c : ascii) : Z :=
  if code c <=? code "9" then code c - code "0" else code c - code "a" + 10.

(** The text [t] is the number [x] in hexadecimal notation: one to four
    lower-case digits of value [x], without a leading zero, the number zero
    as the single digit 0. *)
Definition written_hex (x : Z) (t : list ascii) : Prop :=
  (1 <= length t <= 4)%nat /\ forallb is_lower_hex t = true /\
  no_leading_zero t /\ digits_value lower_hex_val 16 t 0 = x /\
  (x = 0 -> t = ["0"%char]).

(** The text [t] is the number [x] in decimal notation: one to three
    digits of value [x], without a leading zero. *)
Definition written_dec (x : Z) (t : list ascii) : Prop :=
  (1 <= length t <= 3)%nat /\ forallb is_dec_digit t = true /\
  no_leading_zero t /\ digits_value dec_val 10 t 0 = x.

(** The text [t] is the compressed notation of the segments [segs]: the
    first among the longest runs of zero segments is replaced by ["::"] when
    it has two segments or more, and every other segment is written in
    hexadecimal notation, with a colon between each two. *)
Definition compressed (segs : list Z) (t : list ascii) : Prop :=
  exists (s len : nat) (texts : list (list ascii)),
    zero_run segs s len /\
    (forall s' len', zero_run segs s' len' ->
       (len' <= len)%nat /\ (len' = len -> (s <= s')%nat)) /\
    Forall2 written_hex segs texts /\
    t = if (2 <=? len)%nat
        then join_colon (firstn s texts) ++ [":"; ":"]%char ++
             join_colon (skipn (s + len) texts)
        else join_colon texts.

(** The text holds no more than [n] decimal digits in a row; [cur] is the
    number of digits that precede [s] immediately. *)
Fixpoint digit_runs_within (n : nat) (s : list ascii) (cur : nat) : bool :=
  match s with
  | [] => true
  | c :: rest =>
    if is_dec_digit c
    then (S cur <=? n)%nat && digit_runs_within n rest (S cur)
    else digit_runs_within n rest 0
  end.

(** The text is made of four decimal numbers below 256 separated by dots,
    and [a] is the address whose octets are these numbers, the first one the
    most significant. *)
Definition dotted_quad (text : list ascii) (a : IPv4.t) : Prop :=
  exists d3 d2 d1 d0 o3 o2 o1 o0,
    text = d3 ++ "."%char :: d2 ++ "."%char :: d1 ++ "."%char :: d0 /\
    octet_text d3 o3 /\ octet_text d2 o2 /\ octet_text d1 o1 /\ octet_text d0 o0 /\
    a = IPv4.IPv4 (((o3 * 256 + o2) * 256 + o1) * 256 + o0).



(** * Fixed-width arithmetic *)

Lemma pow2_pos (k : Z) : 0 <= k -> 0 < 2 ^ k.
Proof. intros; apply Z.pow_pos_nonneg; lia. Qed.

Lemma pow2_split (a b : Z) : 0 <= a -> 0 <= b -> 2 ^ (a + b) = 2 ^ a * 2 ^ b.
Proof. intros; apply Z.pow_add_r; lia. Qed.

Lemma pow2_le (a b : Z) : 0 <= a <= b -> 2 ^ a <= 2 ^ b.
Proof. intros; apply Z.pow_le_mono_r; lia. Qed.

Lemma pow2_lt (a b : Z) : 0 <= a < b -> 2 ^ a < 2 ^ b.
Proof. intros; apply Z.pow_lt_mono_r; lia. Qed.

(** The mask [ones << k] on [w] bits has the bits from [k] up to [w]. *)
Lemma shl_ones (w k : Z) :
  0 <= k < w -> shl w (Z.ones w) k = Ok (Z.shiftl (Z.ones (w - k)) k).
Proof.
  intros Hk. unfold shl, wrap.
  replace ((0 <=? k) && (k <? w)) with true by (symmetry; apply andb_true_iff; lia).
  f_equal. apply Z.bits_inj'. intros i Hi.
  destruct (Z.lt_ge_cases i w) as [Hiw | Hiw].
  - rewrite Z.mod_pow2_bits_low by lia.
    destruct (Z.lt_ge_cases i k) as [Hik | Hik].
    + rewrite !Z.shiftl_spec_low by lia. reflexivity.
    + rewrite !Z.shiftl_spec by lia.
      rewrite !Z.ones_spec_low by lia. reflexivity.
  - rewrite Z.mod_pow2_bits_high by lia.
    rewrite Z.shiftl_spec by lia. rewrite Z.ones_spec_high by lia. reflexivity.
Qed.

Lemma floor_shift (v k : Z) :
  0 <= k -> v / 2 ^ k * 2 ^ k = Z.shiftl (Z.shiftr v k) k.
Proof. intros. rewrite Z.shiftl_mul_pow2, Z.shiftr_div_pow2 by lia. reflexivity. Qed.

(** Bits of the floor and of the ceiling at [k] low bits. *)
Lemma floor_testbit (v k i : Z) :
  0 <= k -> 0 <= i ->
  Z.testbit (v / 2 ^ k * 2 ^ k) i = if i <? k then false else Z.testbit v i.
Proof.
  intros Hk Hi. rewrite floor_shift by lia.
  destruct (Z.ltb_spec i k).
  - apply Z.shiftl_spec_low; lia.
  - rewrite Z.shiftl_spec, Z.shiftr_spec by lia. f_equal; lia.
Qed.

Lemma land_mask (v j k : Z) :
  0 <= j -> 0 <= k -> 0 <= v < 2 ^ (j + k) ->
  Z.land v (Z.shiftl (Z.ones j) k) = v / 2 ^ k * 2 ^ k.
Proof.
  intros Hj Hk Hv. apply Z.bits_inj'. intros i Hi.
  rewrite floor_testbit, Z.land_spec by lia.
  destruct (Z.ltb_spec i k).
  - rewrite Z.shiftl_spec_low by lia. apply andb_false_r.
  - rewrite Z.shiftl_spec by lia.
    destruct (Z.lt_ge_cases i (j + k)).
    + rewrite Z.ones_spec_low by lia. apply andb_true_r.
    + rewrite Z.ones_spec_high by lia.
      rewrite andb_false_r. symmetry.
      destruct (Z.eq_dec v 0) as [-> | Hnz]; [apply Z.bits_0 |].
      apply Z.bits_above_log2; [lia |].
      apply Z.log2_lt_pow2; [lia |].
      apply Z.lt_le_trans with (2 ^ (j + k)); [lia | apply pow2_le; lia].
Qed.

Lemma bnot_mask (w k : Z) :
  0 <= k <= w -> bnot w (Z.shiftl (Z.ones (w - k)) k) = Z.ones k.
Proof.
  intros Hk. unfold bnot. apply Z.bits_inj'. intros i Hi.
  rewrite Z.lxor_spec.
  destruct (Z.lt_ge_cases i k).
  - rewrite Z.shiftl_spec_low by lia. rewrite !Z.ones_spec_low by lia. reflexivity.
  - rewrite Z.shiftl_spec by lia. rewrite (Z.ones_spec_high k) by lia.
    destruct (Z.lt_ge_cases i w).
    + rewrite !Z.ones_spec_low by lia. reflexivity.
    + rewrite !Z.ones_spec_high by lia. reflexivity.
Qed.

Lemma ceiling_testbit (v k i : Z) :
  0 <= k -> 0 <= i ->
  Z.testbit (Z.lor v (Z.ones k)) i = if i <? k then true else Z.testbit v i.
Proof.
  intros Hk Hi. rewrite Z.lor_spec.
  destruct (Z.ltb_spec i k).
  - rewrite Z.ones_spec_low by lia. apply orb_true_r.
  - rewrite Z.ones_spec_high by lia. apply orb_false_r.
Qed.

Lemma lor_ones (v k : Z) :
  0 <= k -> Z.lor v (Z.ones k) = v / 2 ^ k * 2 ^ k + 2 ^ k - 1.
Proof.
  intros Hk.
  replace (v / 2 ^ k * 2 ^ k + 2 ^ k - 1) with (v / 2 ^ k * 2 ^ k + Z.ones k)
    by (rewrite Z.ones_equiv; lia).
  rewrite Z.add_nocarry_lxor.
  - apply Z.bits_inj'. intros i Hi.
    rewrite Z.lxor_spec, ceiling_testbit, floor_testbit by lia.
    destruct (Z.ltb_spec i k).
    + rewrite Z.ones_spec_low by lia. reflexivity.
    + rewrite Z.ones_spec_high by lia. symmetry; apply xorb_false_r.
  - apply Z.bits_inj'. intros i Hi.
    rewrite Z.land_spec, floor_testbit, Z.bits_0 by lia.
    destruct (Z.ltb_spec i k); [reflexivity |].
    rewrite Z.ones_spec_high by lia. apply andb_false_r.
Qed.

Lemma floor_bounds (v k : Z) :
  0 <= k -> v - 2 ^ k < v / 2 ^ k * 2 ^ k <= v.
Proof.
  intros Hk. pose proof (pow2_pos k Hk).
  pose proof (Z.div_mod v (2 ^ k)). pose proof (Z.mod_pos_bound v (2 ^ k)). lia.
Qed.

Lemma floor_below (v k w : Z) :
  0 <= k <= w -> 0 <= v < 2 ^ w ->
  0 <= v / 2 ^ k * 2 ^ k /\ v / 2 ^ k * 2 ^ k + 2 ^ k - 1 < 2 ^ w.
Proof.
  intros Hk Hv. pose proof (pow2_pos k (proj1 Hk)).
  assert (Hq : 0 <= v / 2 ^ k) by (apply Z.div_pos; lia).
  split; [nia |].
  assert (Hlt : v / 2 ^ k < 2 ^ (w - k)).
  { apply Z.div_lt_upper_bound; [lia |]. rewrite <- pow2_split by lia.
    replace (k + (w - k)) with w by lia. lia. }
  replace w with ((w - k) + k) by lia. rewrite pow2_split by lia. nia.
Qed.

(** * The address classes meet the interface laws *)

Lemma andb_true_intro2 (a b : bool) : a = true -> b = true -> a && b = true.
Proof. intros -> ->; reflexivity. Qed.

Lemma shl_one_0 (w : Z) : 1 < w -> shl w 1 0 = Ok 1.
Proof.
  intros Hw. unfold shl, wrap.
  replace ((0 <=? 0) && (0 <? w)) with true
    by (symmetry; apply andb_true_intro2; [reflexivity | apply Z.ltb_lt; lia]).
  f_equal. rewrite Z.shiftl_0_r. apply Z.mod_small. split; [lia |].
  change 1 with (2 ^ 0). apply pow2_lt; lia.
Qed.

Lemma wrap_range (w x : Z) : 0 <= w -> 0 <= wrap w x < 2 ^ w.
Proof. intros; unfold wrap; apply Z.mod_pos_bound, pow2_pos; lia. Qed.

Section IPv4Facts.

Import IPv4.

Lemma IPv4_network_zeros_eq (a : t) (p : Z) :
  wf a -> 0 <= p <= 32 ->
  network_zeros a p = Ok (IPv4 (value a / 2 ^ (32 - p) * 2 ^ (32 - p))).
Proof.
  unfold wf, network_zeros. intros Ha Hp.
  destruct (Z.eqb_spec p 0) as [-> | Hp0].
  - do 2 f_equal. change (32 - 0) with 32. rewrite Z.div_small by lia. reflexivity.
  - change 0xffffffff with (Z.ones 32). rewrite shl_ones by lia. cbn [bind].
    do 2 f_equal. replace (32 - (32 - p)) with p by lia.
    apply land_mask; try lia. replace (p + (32 - p)) with 32 by lia. lia.
Qed.

Lemma IPv4_network_ones_eq (a : t) (p : Z) :
  wf a -> 0 <= p <= 32 ->
  network_ones a p =
  Ok (IPv4 (value a / 2 ^ (32 - p) * 2 ^ (32 - p) + 2 ^ (32 - p) - 1)).
Proof.
  unfold wf, network_ones. intros Ha Hp.
  destruct (Z.eqb_spec p 0) as [-> | Hp0].
  - do 2 f_equal. change (32 - 0) with 32. rewrite Z.div_small by lia. reflexivity.
  - change 0xffffffff with (Z.ones 32). rewrite shl_ones by lia. cbn [bind].
    do 2 f_equal. rewrite bnot_mask by lia. apply lor_ones; lia.
Qed.

Lemma IPv4_next_eq (a : t) : next a 32 = Ok (IPv4 ((value a + 1) mod 2 ^ 32)).
Proof.
  unfold next. change (32 - 32) with 0. rewrite shl_one_0 by lia. reflexivity.
Qed.

Lemma IPv4_previous_eq (a : t) : previous a 32 = Ok (IPv4 ((value a - 1) mod 2 ^ 32)).
Proof.
  unfold previous. change (32 - 32) with 0. rewrite shl_one_0 by lia. reflexivity.
Qed.

End IPv4Facts.

#[export, refine] Instance IPv4_Laws : AddressLaws IPv4.t := {|
  wf := IPv4.wf;
  to_Z := IPv4_to_Z
|}.
Proof.
  - reflexivity.
  - intros a Ha. exact Ha.
  - intros [a] [b] _ _. unfold IPv4_to_Z. cbn [IPv4.value]. intros ->. reflexivity.
  - intros a p Ha Hp. change bit_length with 32 in *.
    eexists. split; [apply IPv4_network_zeros_eq; assumption |].
    unfold IPv4.wf, IPv4_to_Z in *. cbn [IPv4.value]. split; [| reflexivity].
    pose proof (floor_below (IPv4.value a) (32 - p) 32 ltac:(lia) Ha).
    pose proof (pow2_pos (32 - p) ltac:(lia)). lia.
  - intros a p Ha Hp. change bit_length with 32 in *.
    eexists. split; [apply IPv4_network_ones_eq; assumption |].
    unfold IPv4.wf, IPv4_to_Z in *. cbn [IPv4.value]. split; [| reflexivity].
    pose proof (floor_below (IPv4.value a) (32 - p) 32 ltac:(lia) Ha).
    pose proof (pow2_pos (32 - p) ltac:(lia)). lia.
  - intros a Ha. eexists. split; [apply IPv4_next_eq |].
    split; [apply (wrap_range 32); lia | reflexivity].
  - intros a Ha. eexists. split; [apply IPv4_previous_eq |].
    split; [apply (wrap_range 32); lia | reflexivity].
  - reflexivity.
  - reflexivity.
  - reflexivity.
Defined.

Section IPv6Facts.

Import IPv6.

Lemma IPv6_to_Z_range (a : t) : wf a -> 0 <= IPv6_to_Z a < 2 ^ 128.
Proof.
  unfold wf, IPv6_to_Z. intros [Hn Hh].
  change (2 ^ 128) with (2 ^ 64 * 2 ^ 64). nia.
Qed.

Lemma IPv6_to_Z_inj (a b : t) : wf a -> wf b -> IPv6_to_Z a = IPv6_to_Z b -> a = b.
Proof.
  destruct a as [n h], b as [n' h']. unfold wf, IPv6_to_Z. cbn [network host].
  intros [Hn Hh] [Hn' Hh'] E.
  assert (n = n') by nia. subst n'. f_equal. lia.
Qed.

(** Division of the 128-bit value by a power of two below or above the
    boundary between the halves. *)
Lemma IPv6_div_low (n h k : Z) :
  0 <= k <= 64 -> (n * 2 ^ 64 + h) / 2 ^ k = n * 2 ^ (64 - k) + h / 2 ^ k.
Proof.
  intros Hk. replace (n * 2 ^ 64) with (n * 2 ^ (64 - k) * 2 ^ k).
  - apply Z.div_add_l. pose proof (pow2_pos k ltac:(lia)). lia.
  - rewrite <- Z.mul_assoc, <- pow2_split by lia. do 2 f_equal. lia.
Qed.

Lemma IPv6_div_high (n h k : Z) :
  64 <= k -> 0 <= h < 2 ^ 64 -> (n * 2 ^ 64 + h) / 2 ^ k = n / 2 ^ (k - 64).
Proof.
  intros Hk Hh. replace k with (64 + (k - 64)) at 1 by lia.
  rewrite pow2_split by lia.
  rewrite <- Z.div_div by (try apply pow2_pos; lia).
  rewrite Z.div_add_l by lia. rewrite (Z.div_small h) by lia.
  rewrite Z.add_0_r. reflexivity.
Qed.

Lemma IPv6_floor_low (n h k : Z) :
  0 <= k <= 64 ->
  (n * 2 ^ 64 + h) / 2 ^ k * 2 ^ k = n * 2 ^ 64 + h / 2 ^ k * 2 ^ k.
Proof.
  intros Hk. rewrite IPv6_div_low by lia. rewrite Z.mul_add_distr_r.
  rewrite <- Z.mul_assoc, <- pow2_split by lia.
  replace (64 - k + k) with 64 by lia. reflexivity.
Qed.

Lemma IPv6_floor_high (n h k : Z) :
  64 <= k -> 0 <= h < 2 ^ 64 ->
  (n * 2 ^ 64 + h) / 2 ^ k * 2 ^ k = n / 2 ^ (k - 64) * 2 ^ (k - 64) * 2 ^ 64.
Proof.
  intros Hk Hh. rewrite IPv6_div_high by lia.
  rewrite <- Z.mul_assoc, <- pow2_split by lia.
  replace (k - 64 + 64) with k by lia. reflexivity.
Qed.

Lemma IPv6_network_zeros_eq (a : t) (p : Z) :
  wf a -> 0 <= p <= 128 ->
  exists z, network_zeros a p = Ok z /\ wf z /\
    IPv6_to_Z z = IPv6_to_Z a / 2 ^ (128 - p) * 2 ^ (128 - p).
Proof.
  destruct a as [n h]. unfold wf, network_zeros, IPv6_to_Z. cbn [network host].
  intros [Hn Hh] Hp.
  destruct (Z.eqb_spec p 0) as [-> | Hp0]; [| destruct (Z.gtb_spec p 64)].
  - eexists. split; [reflexivity |]. cbn [network host].
    split; [lia |]. rewrite Z.div_small; [reflexivity |].
    change (2 ^ (128 - 0)) with (2 ^ 64 * 2 ^ 64). nia.
  - change 0xffffffffffffffff with (Z.ones 64). rewrite shl_ones by lia.
    eexists. split; [reflexivity |]. cbn [network host].
    replace (64 - (128 - p)) with (p - 64) by lia.
    rewrite land_mask by (try lia; replace (p - 64 + (128 - p)) with 64 by lia; lia).
    rewrite IPv6_floor_low by lia.
    pose proof (floor_bounds h (128 - p) ltac:(lia)).
    pose proof (floor_below h (128 - p) 64 ltac:(lia) Hh). lia.
  - change 0xffffffffffffffff with (Z.ones 64). rewrite shl_ones by lia.
    eexists. split; [reflexivity |]. cbn [network host].
    replace (64 - (64 - p)) with p by lia.
    rewrite land_mask by (try lia; replace (p + (64 - p)) with 64 by lia; lia).
    rewrite IPv6_floor_high by lia. replace (128 - p - 64) with (64 - p) by lia.
    pose proof (floor_below n (64 - p) 64 ltac:(lia) Hn).
    pose proof (pow2_pos (64 - p) ltac:(lia)). lia.
Qed.

Lemma IPv6_network_ones_eq (a : t) (p : Z) :
  wf a -> 0 <= p <= 128 ->
  exists o, network_ones a p = Ok o /\ wf o /\
    IPv6_to_Z o = IPv6_to_Z a / 2 ^ (128 - p) * 2 ^ (128 - p) + 2 ^ (128 - p) - 1.
Proof.
  destruct a as [n h]. unfold wf, network_ones, IPv6_to_Z. cbn [network host].
  intros [Hn Hh] Hp.
  destruct (Z.eqb_spec p 0) as [-> | Hp0]; [| destruct (Z.gtb_spec p 64)].
  - eexists. split; [reflexivity |]. cbn [network host].
    split; [lia |]. rewrite Z.div_small; [reflexivity |].
    change (2 ^ (128 - 0)) with (2 ^ 64 * 2 ^ 64). nia.
  - change 0xffffffffffffffff with (Z.ones 64). rewrite shl_ones by lia.
    eexists. split; [reflexivity |]. cbn [network host].
    rewrite bnot_mask by lia. rewrite lor_ones by lia.
    rewrite IPv6_floor_low by lia.
    pose proof (floor_below h (128 - p) 64 ltac:(lia) Hh).
    pose proof (pow2_pos (128 - p) ltac:(lia)). lia.
  - change 0xffffffffffffffff with (Z.ones 64). rewrite shl_ones by lia.
    eexists. split; [reflexivity |]. cbn [network host].
    rewrite bnot_mask by lia. rewrite lor_ones by lia.
    rewrite IPv6_floor_high by lia. replace (128 - p - 64) with (64 - p) by lia.
    pose proof (floor_below n (64 - p) 64 ltac:(lia) Hn).
    pose proof (pow2_pos (64 - p) ltac:(lia)).
    replace (2 ^ (128 - p)) with (2 ^ (64 - p) * 2 ^ 64)
      by (rewrite <- pow2_split by lia; f_equal; lia).
    change (Z.ones 64) with (2 ^ 64 - 1). lia.
Qed.

Lemma IPv6_next_eq (a : t) :
  wf a ->
  exists n, next a 128 = Ok n /\ wf n /\ IPv6_to_Z n = (IPv6_to_Z a + 1) mod 2 ^ 128.
Proof.
  destruct a as [n h]. unfold wf, next, IPv6_to_Z, wrap. cbn [network host].
  intros [Hn Hh]. change (128 - 128) with 0. rewrite shl_one_0 by lia.
  eexists. split; [reflexivity |]. cbn [network host].
  split; [split; apply Z.mod_pos_bound; lia |].
  change (2 ^ 128) with (2 ^ 64 * 2 ^ 64).
  destruct (Z.eq_dec h (2 ^ 64 - 1)) as [-> | Hmax].
  - replace ((2 ^ 64 - 1 + 1) mod 2 ^ 64) with 0 by reflexivity.
    change (0 <? 2 ^ 64 - 1) with true. cbv iota.
    destruct (Z.eq_dec n (2 ^ 64 - 1)) as [-> | Hn'].
    + reflexivity.
    + rewrite (Z.mod_small (n + 1)) by lia. rewrite Z.mod_small by nia. lia.
  - rewrite (Z.mod_small (h + 1)) by lia.
    replace (h + 1 <? h) with false by (symmetry; apply Z.ltb_ge; lia).
    rewrite Z.add_0_r. rewrite (Z.mod_small n) by lia.
    rewrite Z.mod_small by nia. lia.
Qed.

Lemma IPv6_previous_eq (a : t) :
  wf a ->
  exists n, previous a 128 = Ok n /\ wf n /\
    IPv6_to_Z n = (IPv6_to_Z a - 1) mod 2 ^ 128.
Proof.
  destruct a as [n h]. unfold wf, previous, IPv6_to_Z, wrap. cbn [network host].
  intros [Hn Hh]. change (128 - 128) with 0. rewrite shl_one_0 by lia.
  eexists. split; [reflexivity |]. cbn [network host].
  split; [split; apply Z.mod_pos_bound; lia |].
  change (2 ^ 128) with (2 ^ 64 * 2 ^ 64).
  destruct (Z.eq_dec h 0) as [-> | Hmin].
  - replace ((0 - 1) mod 2 ^ 64) with (2 ^ 64 - 1) by reflexivity.
    change (2 ^ 64 - 1 >? 0) with true. cbv iota.
    destruct (Z.eq_dec n 0) as [-> | Hn'].
    + reflexivity.
    + rewrite (Z.mod_small (n - 1)) by lia. rewrite Z.mod_small by nia. lia.
  - rewrite (Z.mod_small (h - 1)) by lia.
    replace (h - 1 >? h) with false by (symmetry; rewrite Z.gtb_ltb; apply Z.ltb_ge; lia).
    rewrite Z.sub_0_r. rewrite (Z.mod_small n) by lia.
    rewrite Z.mod_small by nia. lia.
Qed.

Lemma IPv6_lt_eq (a b : t) : wf a -> wf b -> lt a b = (IPv6_to_Z a <? IPv6_to_Z b).
Proof.
  destruct a as [n h], b as [n' h']. unfold wf, lt, IPv6_to_Z. cbn [network host].
  intros [Hn Hh] [Hn' Hh'].
  destruct (Z.ltb_spec n n'), (Z.eqb_spec n n'), (Z.ltb_spec h h');
    cbn [orb andb]; symmetry; try (apply Z.ltb_lt; nia); try (apply Z.ltb_ge; nia).
Qed.

Lemma IPv6_gt_eq (a b : t) : wf a -> wf b -> gt a b = (IPv6_to_Z b <? IPv6_to_Z a).
Proof.
  destruct a as [n h], b as [n' h']. unfold wf, gt, IPv6_to_Z. cbn [network host].
  intros [Hn Hh] [Hn' Hh']. rewrite !Z.gtb_ltb.
  destruct (Z.ltb_spec n' n), (Z.eqb_spec n n'), (Z.ltb_spec h' h);
    cbn [orb andb]; symmetry; try (apply Z.ltb_lt; nia); try (apply Z.ltb_ge; nia).
Qed.

Lemma IPv6_eq_eq (a b : t) : wf a -> wf b -> eq a b = (IPv6_to_Z a =? IPv6_to_Z b).
Proof.
  destruct a as [n h], b as [n' h']. unfold wf, eq, IPv6_to_Z. cbn [network host].
  intros [Hn Hh] [Hn' Hh'].
  destruct (Z.eqb_spec n n'), (Z.eqb_spec h h');
    cbn [orb andb]; symmetry; try (apply Z.eqb_eq; nia); try (apply Z.eqb_neq; nia).
Qed.

End IPv6Facts.

#[export, refine] Instance IPv6_Laws : AddressLaws IPv6.t := {|
  wf := IPv6.wf;
  to_Z := IPv6_to_Z
|}.
Proof.
  - reflexivity.
  - apply IPv6_to_Z_range.
  - apply IPv6_to_Z_inj.
  - apply IPv6_network_zeros_eq.
  - apply IPv6_network_ones_eq.
  - apply IPv6_next_eq.
  - apply IPv6_previous_eq.
  - apply IPv6_lt_eq.
  - intros a b Ha Hb. unfold le, IPv6_Address, IPv6.le.
    rewrite IPv6_gt_eq by assumption.
    rewrite Z.leb_antisym. reflexivity.
  - apply IPv6_eq_eq.
Defined.

(** * Loops *)

Lemma bind_assoc {A B C : Type} (r : result A) (f : A -> result B) (g : B -> result C) :
  bind (bind r f) g = bind r (fun a => bind (f a) g).
Proof. destruct r; reflexivity. Qed.

Lemma bind_Ok_r {A : Type} (r : result A) : bind r Ok = r.
Proof. destruct r; reflexivity. Qed.

Lemma bind_ext {A B : Type} (r : result A) (f g : A -> result B) :
  (forall a, f a = g a) -> bind r f = bind r g.
Proof. intros E. destruct r; cbn [bind]; auto. Qed.

Section Loops.

Context {S R : Type} (body : S -> result (S + R)).

Lemma repeat_body_add (a b : nat) (s : S) :
  repeat_body (a + b) body s =
  (r <- repeat_body a body s ;;
   match r with
   | inl s' => repeat_body b body s'
   | inr x => Ok (inr x)
   end).
Proof.
  revert s. induction a as [| a IH]; intros s; cbn [Nat.add repeat_body bind].
  - reflexivity.
  - rewrite bind_assoc. apply bind_ext. intros [s' | x]; [apply IH | reflexivity].
Qed.

Lemma iterate_repeat (n : nat) (s : S) :
  iterate n body s = repeat_body (2 ^ n) body s.
Proof.
  revert s. induction n as [| n IH]; intros s.
  - cbn [iterate Nat.pow repeat_body Nat.mul]. cbn.
    destruct (body s) as [[s' | x] | e | |]; reflexivity.
  - cbn [iterate]. replace (2 ^ Datatypes.S n)%nat with (2 ^ n + 2 ^ n)%nat
      by (cbn [Nat.pow]; lia).
    rewrite repeat_body_add, IH. apply bind_ext.
    intros [s' | x]; [apply IH | reflexivity].
Qed.

(** A loop that leaves at its first round does so whatever the bound. *)
Lemma iterate_leaves (n : nat) (s : S) (x : R) :
  body s = Ok (inr x) -> iterate n body s = Ok (inr x).
Proof.
  intros E. induction n as [| n IH]; cbn [iterate].
  - exact E.
  - rewrite IH. reflexivity.
Qed.

End Loops.

Lemma for_each_app {A O : Type} (f : A -> O -> result O) (l1 l2 : list A) (o : O) :
  for_each f (l1 ++ l2) o = (o' <- for_each f l1 o ;; for_each f l2 o').
Proof.
  revert o. induction l1 as [| a l1 IH]; intros o; cbn [app for_each bind].
  - reflexivity.
  - rewrite bind_assoc. apply bind_ext. intros o'. apply IH.
Qed.

Lemma pow2_nat (n : nat) : Z.of_nat (2 ^ n) = 2 ^ Z.of_nat n.
Proof.
  induction n as [| n IH].
  - reflexivity.
  - rewrite Nat2Z.inj_succ, Z.pow_succ_r by lia. cbn [Nat.pow]. lia.
Qed.

(** * The range decomposer *)

Section Add.

Context {T : Type} `{AddressLaws T}.


Lemma floor_fixed (a k : Z) : 0 <= k -> (a / 2 ^ k * 2 ^ k = a <-> a mod 2 ^ k = 0).
Proof.
  intros Hk. pose proof (pow2_pos k Hk).
  pose proof (Z.div_mod a (2 ^ k) ltac:(lia)). lia.
Qed.

Lemma add_for_spec (n : nat) (i : Z) (start stop : T) :
  wf start -> wf stop -> to_Z start <= to_Z stop ->
  0 <= i -> i + Z.of_nat n = bit_length + 1 ->
  (forall j, 0 <= j < i -> ~ fits (to_Z stop) (to_Z start) j) ->
  exists p, add_for n i start stop = Ok (Some p) /\ 0 <= p <= bit_length /\
    fits (to_Z stop) (to_Z start) p /\
    forall j, 0 <= j < p -> ~ fits (to_Z stop) (to_Z start) j.
Proof.
  intros Hs Ht Hle. revert i. induction n as [| n IH]; intros i Hi Hn Hmin.
  - exfalso. apply (Hmin bit_length); [pose proof bit_length_pos; lia |].
    unfold fits. rewrite Z.sub_diag. cbn. rewrite Z.mod_1_r. lia.
  - assert (HiW : 0 <= i <= bit_length) by (lia).
    cbn [add_for].
    destruct (network_zeros_spec start i Hs HiW) as (z & Ez & Hz & Vz).
    destruct (network_ones_spec start i Hs HiW) as (o & Eo & Ho & Vo).
    rewrite Ez. cbn [bind]. rewrite (eq_spec z start Hz Hs), Vz.
   
    destruct (Z.eqb_spec (to_Z start / 2 ^ (bit_length - i) * 2 ^ (bit_length - i)) (to_Z start))
      as [Efl | Nfl].
    + rewrite Eo. cbn [bind]. rewrite (le_spec o stop Ho Ht), Vo.
      rewrite Efl.
      destruct (Z.leb_spec (to_Z start + 2 ^ (bit_length - i) - 1) (to_Z stop)) as [Hfit | Hno].
      * exists i. split; [reflexivity |]. split; [lia |].
        split; [| exact Hmin]. split; [| exact Hfit].
        apply floor_fixed; [lia | exact Efl].
      * apply IH; [lia | lia |]. intros j Hj.
        destruct (Z.eq_dec j i) as [-> | Hne]; [| apply Hmin; lia].
        unfold fits. lia.
    + cbn [bind]. apply IH; [lia | lia |]. intros j Hj.
      destruct (Z.eq_dec j i) as [-> | Hne]; [| apply Hmin; lia].
      unfold fits. intros [Hmod _]. apply Nfl. apply floor_fixed; [lia | exact Hmod].
Qed.


Lemma add_body_done (start stop : T) {O : Type} (cb : OutputAdapter T O) (o : O) :
  wf start -> wf stop -> to_Z stop <= to_Z start ->
  add_body stop cb (start, o) = Ok (inr o).
Proof.
  intros Hs Ht Hle. unfold add_body. rewrite (lt_spec start stop Hs Ht).
  replace (to_Z start <? to_Z stop) with false by (symmetry; apply Z.ltb_ge; lia).
  reflexivity.
Qed.

Lemma add_body_step (start stop : T) :
  wf start -> wf stop -> to_Z start < to_Z stop ->
  exists p, 0 <= p <= bit_length /\
    fits (to_Z stop) (to_Z start) p /\
    (forall j, 0 <= j < p -> ~ fits (to_Z stop) (to_Z start) j) /\
    ((to_Z start + 2 ^ (bit_length - p) - 1 = 2 ^ bit_length - 1 /\
      forall (O : Type) (cb : OutputAdapter T O) (o : O),
        add_body stop cb (start, o) =
        (o' <- callback cb (IPNode.IPNode start p) o ;; Ok (inr o')))
     \/
     (exists s', wf s' /\ to_Z s' = to_Z start + 2 ^ (bit_length - p) /\
        forall (O : Type) (cb : OutputAdapter T O) (o : O),
          add_body stop cb (start, o) =
          (o' <- callback cb (IPNode.IPNode start p) o ;; Ok (inl (s', o'))))).
Proof.
  intros Hs Ht Hlt. pose proof bit_length_pos as HW.
  destruct (add_for_spec (Z.to_nat (bit_length + 1)) 0 start stop Hs Ht)
    as (p & Ep & Hp & Hfit & Hmin); try lia.
  exists p. split; [exact Hp |]. split; [exact Hfit |]. split; [exact Hmin |].
  destruct Hfit as [Hmod Hend].
  destruct (network_ones_spec start p Hs Hp) as (e & Ee & He & Ve).
  destruct (network_ones_spec start 0 Hs ltac:(lia)) as (top & Etop & Htop & Vtop).
  assert (Vfl : to_Z start / 2 ^ (bit_length - p) * 2 ^ (bit_length - p) = to_Z start)
    by (apply floor_fixed; [lia | exact Hmod]).
  rewrite Vfl in Ve.
  pose proof (to_Z_range start Hs) as Rs.
  rewrite Z.sub_0_r, (Z.div_small (to_Z start)) in Vtop by lia.
  rewrite Z.mul_0_l, Z.add_0_l in Vtop.
  assert (Hbody : forall (O : Type) (cb : OutputAdapter T O) (o : O),
             add_body stop cb (start, o) =
             (o' <- callback cb (IPNode.IPNode start p) o ;;
              if to_Z e =? to_Z top then Ok (inr o')
              else start' <- next e bit_length ;; Ok (inl (start', o')))).
  { intros O cb o. unfold add_body. rewrite (lt_spec start stop Hs Ht).
    replace (to_Z start <? to_Z stop) with true by (symmetry; apply Z.ltb_lt; lia).
    rewrite Ep. cbn [bind]. apply bind_ext. intros o'.
    rewrite Ee, Etop. cbn [bind]. rewrite (eq_spec e top He Htop). reflexivity. }
  destruct (Z.eqb_spec (to_Z e) (to_Z top)) as [Etop' | Ntop].
  - left. split; [lia |]. exact Hbody.
  - right. destruct (next_spec e He) as (s' & Es' & Hs' & Vs').
    pose proof (to_Z_range e He) as Re.
    rewrite Z.mod_small in Vs' by lia.
    exists s'. split; [exact Hs' |]. split; [lia |].
    intros O cb o. rewrite Hbody. apply bind_ext. intros o'. rewrite Es'. reflexivity.
Qed.

(** The rounds of [add]: the blocks do not depend on the callback, which
    receives them one by one. *)
Lemma add_rounds (stop : T) (k : nat) (start : T) :
  wf start -> wf stop -> (0 < k)%nat -> to_Z stop - to_Z start < Z.of_nat k ->
  exists bs b,
    greedy_chain (to_Z stop) (to_Z start) bs b /\
    (if to_Z start <? to_Z stop then to_Z stop <= b <= to_Z stop + 1 else bs = []) /\
    forall (O : Type) (cb : OutputAdapter T O) (o : O),
      repeat_body k (add_body stop cb) (start, o) =
      (o' <- for_each (callback cb) bs o ;; Ok (inr o')).
Proof.
  intros Hs Ht. revert start Hs.
  induction k as [| k IH]; intros start Hs Hk Hm; [lia |].
  destruct (Z.ltb_spec (to_Z start) (to_Z stop)) as [Hlt | Hge].
  - destruct (add_body_step start stop Hs Ht Hlt)
      as (p & Hp & Hfit & Hmin & [[Htop Hbody] | (s' & Hs' & Vs' & Hbody)]).
    + exists [IPNode.IPNode start p], (to_Z start + 2 ^ (bit_length - p)).
      split.
      { cbn [greedy_chain IPNode.ip IPNode.prefix]. repeat split; try assumption; try lia.
        apply Hfit. apply Hfit. }
      split.
      { pose proof (to_Z_range stop Ht). destruct Hfit as [_ Hend]. lia. }
      intros O cb o. cbn [repeat_body for_each]. rewrite Hbody, !bind_assoc.
      apply bind_ext. intros o'. reflexivity.
    + assert (Hsz : 0 < 2 ^ (bit_length - p)) by (apply pow2_pos; lia).
      destruct (IH s' Hs') as (bs & b & Hchain & Hend & Hrun); [lia | lia |].
      exists (IPNode.IPNode start p :: bs), b.
      split.
      { cbn [greedy_chain IPNode.ip IPNode.prefix]. rewrite <- Vs'.
        repeat split; try assumption; try lia. apply Hfit. apply Hfit. }
      split.
      { destruct Hfit as [_ Hfe]. rewrite Vs' in Hend.
        destruct (Z.ltb_spec (to_Z start + 2 ^ (bit_length - p)) (to_Z stop)).
        - exact Hend.
        - subst bs. cbn [greedy_chain] in Hchain. lia. }
      intros O cb o. cbn [repeat_body for_each]. rewrite Hbody, !bind_assoc.
      apply bind_ext. intros o'. cbn [bind]. apply Hrun.
  - exists [], (to_Z start). split; [reflexivity |]. split; [reflexivity |].
    intros O cb o. cbn [repeat_body for_each bind].
    rewrite add_body_done by (assumption || lia). reflexivity.
Qed.

(** [add] returns, and hands to its callback a sequence of blocks that is
    the greedy choice for the interval. *)
Theorem add_returns (start stop : T) :
  wf start -> wf stop ->
  exists bs b,
    greedy_chain (to_Z stop) (to_Z start) bs b /\
    (if to_Z start <? to_Z stop then to_Z stop <= b <= to_Z stop + 1 else bs = []) /\
    forall (O : Type) (cb : OutputAdapter T O) (o : O),
      add start stop cb o = for_each (callback cb) bs o.
Proof.
  intros Hs Ht. pose proof bit_length_pos as HW.
  pose proof (to_Z_range start Hs). pose proof (to_Z_range stop Ht).
  assert (Hpow : Z.of_nat (2 ^ Z.to_nat bit_length) = 2 ^ bit_length)
    by (rewrite pow2_nat, Z2Nat.id by lia; reflexivity).
  destruct (add_rounds stop (2 ^ Z.to_nat bit_length) start Hs Ht)
    as (bs & b & Hchain & Hend & Hrun); [lia | lia |].
  exists bs, b. split; [exact Hchain |]. split; [exact Hend |].
  intros O cb o. unfold add. rewrite iterate_repeat, Hrun, bind_assoc.
  cbn [bind]. apply bind_Ok_r.
Qed.


(** ** What a greedy chain of blocks looks like *)

Lemma block_size_pos (p : Z) : 0 <= p <= bit_length -> 0 < 2 ^ (bit_length - p).
Proof. intros; apply pow2_pos; lia. Qed.

Lemma aligned_of_fits (x : IPNode.t T) (stop : Z) :
  wf (IPNode.ip x) -> 0 <= IPNode.prefix x <= bit_length ->
  fits stop (to_Z (IPNode.ip x)) (IPNode.prefix x) -> aligned x.
Proof.
  intros Hw Hp [Hmod _]. split; [exact Hw |]. split; [exact Hp |].
  destruct (network_zeros_spec _ _ Hw Hp) as (z & Ez & Hz & Vz).
  rewrite Ez. f_equal. apply to_Z_inj; [exact Hz | exact Hw |].
  rewrite Vz. apply floor_fixed; [lia | exact Hmod].
Qed.

Lemma greedy_chain_app (stop a : Z) (l1 l2 : list (IPNode.t T)) (b : Z) :
  greedy_chain stop a (l1 ++ l2) b <->
  exists m, greedy_chain stop a l1 m /\ greedy_chain stop m l2 b.
Proof.
  revert a. induction l1 as [| x l1 IH]; intros a; cbn [app greedy_chain].
  - split.
    + intros Hc. exists a. split; [reflexivity | exact Hc].
    + intros (m & -> & Hc). exact Hc.
  - rewrite IH. split.
    + intros (Q1 & Q2 & Q3 & Q4 & Q5 & Q6 & m & Q7 & Q8). exists m. tauto.
    + intros (m & (Q1 & Q2 & Q3 & Q4 & Q5 & Q6 & Q7) & Q8).
      repeat (split; [assumption |]). exists m. tauto.
Qed.

Lemma greedy_chain_le (stop a : Z) (bs : list (IPNode.t T)) (b : Z) :
  greedy_chain stop a bs b -> a <= b.
Proof.
  revert a. induction bs as [| x bs IH]; intros a; cbn [greedy_chain].
  - lia.
  - intros (_ & _ & _ & Hp & _ & _ & Hc). apply IH in Hc.
    pose proof (block_size_pos _ Hp). lia.
Qed.

Lemma greedy_chain_In (stop a : Z) (bs : list (IPNode.t T)) (b : Z) (x : IPNode.t T) :
  greedy_chain stop a bs b -> In x bs ->
  aligned x /\ a <= block_first x /\ block_last x < b /\ block_last x <= stop /\
  block_first x <= block_last x.
Proof.
  revert a. induction bs as [| y bs IH]; intros a; cbn [greedy_chain In]; [tauto |].
  intros (Hw & Ha & Hlt & Hp & Hfit & Hmin & Hc) [-> | Hin].
  - pose proof (greedy_chain_le _ _ _ _ Hc). pose proof (block_size_pos _ Hp).
    split; [eapply aligned_of_fits; [assumption | assumption | rewrite Ha; exact Hfit] |].
    unfold block_first, block_last. destruct Hfit as [_ Hend]. lia.
  - pose proof (block_size_pos _ Hp).
    destruct (IH _ Hc Hin) as (Q1 & Q2 & Q3 & Q4 & Q5).
    split; [exact Q1 |]. lia.
Qed.

Lemma greedy_chain_union (stop a : Z) (bs : list (IPNode.t T)) (b : Z) :
  greedy_chain stop a bs b -> union_is bs a (b - 1).
Proof.
  revert a. induction bs as [| y bs IH]; intros a; cbn [greedy_chain].
  - intros <- x. split; [intros (z & [] & _) | lia].
  - intros (Hw & Ha & Hlt & Hp & Hfit & Hmin & Hc) x.
    pose proof (block_size_pos _ Hp) as Hsz.
    pose proof (greedy_chain_le _ _ _ _ Hc) as Hle.
    specialize (IH _ Hc x). split.
    + intros (z & [<- | Hin] & Hcov).
      * unfold covers, block_first, block_last in Hcov. lia.
      * assert (a + 2 ^ (bit_length - IPNode.prefix y) <= x <= b - 1)
          by (apply IH; exists z; tauto). lia.
    + intros Hx.
      destruct (Z.lt_ge_cases x (a + 2 ^ (bit_length - IPNode.prefix y))) as [Hin | Hout].
      * exists y. split; [left; reflexivity |].
        unfold covers, block_first, block_last. lia.
      * destruct IH as [_ IH]. destruct IH as (z & Hz & Hcov); [lia |].
        exists z. split; [right; exact Hz | exact Hcov].
Qed.

Lemma greedy_chain_ascending (stop a : Z) (bs : list (IPNode.t T)) (b : Z) :
  greedy_chain stop a bs b -> ascending bs.
Proof.
  revert a. induction bs as [| y bs IH]; intros a; cbn [greedy_chain].
  - intros _. constructor.
  - intros (Hw & Ha & Hlt & Hp & Hfit & Hmin & Hc). constructor; [eapply IH; eassumption |].
    apply Forall_forall. intros z Hz.
    destruct (greedy_chain_In _ _ _ _ _ Hc Hz) as (_ & Hz1 & _).
    pose proof (block_size_pos _ Hp). unfold block_first in *. lia.
Qed.

Lemma greedy_chain_non_overlapping (stop a : Z) (bs : list (IPNode.t T)) (b : Z) :
  greedy_chain stop a bs b -> non_overlapping bs.
Proof.
  revert a. induction bs as [| y bs IH]; intros a; cbn [greedy_chain].
  - intros _. constructor.
  - intros (Hw & Ha & Hlt & Hp & Hfit & Hmin & Hc). constructor; [| eapply IH; eassumption].
    apply Forall_forall. intros z Hz x [Hy Hx].
    destruct (greedy_chain_In _ _ _ _ _ Hc Hz) as (_ & Hz1 & _).
    unfold covers, block_first, block_last in *. lia.
Qed.

Lemma greedy_chain_contiguous (stop a : Z) (bs : list (IPNode.t T)) (b : Z) :
  greedy_chain stop a bs b -> contiguous bs.
Proof.
  intros Hc l1 b1 b2 l2 ->. apply greedy_chain_app in Hc. destruct Hc as (m & _ & Hc).
  cbn [greedy_chain] in Hc.
  destruct Hc as (_ & Ha1 & _ & _ & _ & _ & _ & Ha2 & _).
  unfold block_first, block_last. lia.
Qed.

Lemma greedy_chain_no_merge (stop a : Z) (bs : list (IPNode.t T)) (b : Z) :
  greedy_chain stop a bs b -> no_adjacent_mergeable bs.
Proof.
  intros Hc l1 b1 b2 l2 -> (a' & p' & Hp' & Hmod' & Hcov).
  apply greedy_chain_app in Hc. destruct Hc as (m & _ & Hc).
  cbn [greedy_chain] in Hc.
  destruct Hc as (_ & Ha1 & _ & Hp1 & Hfit1 & Hmin1 & _ & Ha2 & _ & Hp2 & Hfit2 & _).
  pose proof (block_size_pos _ Hp1) as Hs1. pose proof (block_size_pos _ Hp2) as Hs2.
  pose proof (block_size_pos _ Hp') as Hs'.
  unfold covers, block_first, block_last in Hcov. rewrite Ha1, Ha2 in Hcov.
  set (s1 := 2 ^ (bit_length - IPNode.prefix b1)) in *.
  set (s2 := 2 ^ (bit_length - IPNode.prefix b2)) in *.
  set (s' := 2 ^ (bit_length - p')) in *.
  assert (Ea : a' = m).
  { pose proof (proj1 (Hcov m) ltac:(lia)). pose proof (proj2 (Hcov a') ltac:(lia)). lia. }
  subst a'.
  assert (Es : s' = s1 + s2).
  { pose proof (proj1 (Hcov (m + s1 + s2 - 1)) ltac:(lia)).
    pose proof (proj2 (Hcov (m + s' - 1)) ltac:(lia)). lia. }
  assert (Hlt : p' < IPNode.prefix b1).
  { destruct (Z.lt_ge_cases p' (IPNode.prefix b1)) as [Hl | Hg]; [exact Hl |].
    assert (s' <= s1) by (apply pow2_le; lia). lia. }
  apply (Hmin1 p'); [lia |]. split; [exact Hmod' |].
  destruct Hfit2 as [_ Hend2]. fold s' s1 s2 in Hend2 |- *. lia.
Qed.

Lemma pow2_even (k : Z) : 1 <= k -> 2 ^ k = 2 * 2 ^ (k - 1).
Proof. intros. rewrite <- Z.pow_succ_r by lia. f_equal. lia. Qed.

Lemma aligned_even (m k : Z) : 1 <= k -> m mod 2 ^ k = 0 -> m mod 2 = 0.
Proof.
  intros Hk Hm. apply Z.mod_divide in Hm; [| pose proof (pow2_pos k); lia].
  destruct Hm as [q ->]. rewrite (pow2_even k Hk).
  replace (q * (2 * 2 ^ (k - 1))) with (q * 2 ^ (k - 1) * 2) by lia.
  apply Z.mod_mul. lia.
Qed.

(** Where the chain of [add] ends: right after [stop] when [stop] is odd,
    at [stop] itself when it is even. *)
Lemma greedy_chain_end (stop a : Z) (bs : list (IPNode.t T)) (b : Z) :
  greedy_chain stop a bs b -> a < stop -> stop <= b <= stop + 1 ->
  b = if Z.odd stop then stop + 1 else stop.
Proof.
  intros Hc Hlt Hb. pose proof bit_length_pos as HW.
  destruct (exists_last (l := bs)) as (l & x & ->).
  { intros ->. cbn [greedy_chain] in Hc. lia. }
  apply greedy_chain_app in Hc. destruct Hc as (m & _ & Hc).
  cbn [greedy_chain] in Hc. destruct Hc as (_ & _ & Hm & Hp & [Hmod Hend] & Hmin & Hbe).
  set (p := IPNode.prefix x) in *.
  pose proof (block_size_pos _ Hp) as Hsz.
  rewrite Zodd_mod.
  destruct (Z.eq_dec p bit_length) as [Ep | Np].
  - (* a single address: it is the one right below [stop] *)
    rewrite Ep, Z.sub_diag in *. change (2 ^ 0) with 1 in *.
    assert (Eb : b = stop) by lia.
    destruct (Z.eqb_spec (stop mod 2) 1) as [Hodd | Heven]; [| exact Eb].
    exfalso. apply (Hmin (bit_length - 1)); [lia |].
    unfold fits. replace (bit_length - (bit_length - 1)) with 1 by lia.
    change (2 ^ 1) with 2. split; [| lia].
    replace m with (stop - 1) by lia.
    pose proof (Z.div_mod stop 2 ltac:(lia)).
    replace (stop - 1) with (stop / 2 * 2) by lia. apply Z.mod_mul. lia.
  - assert (Hk : 1 <= bit_length - p) by lia.
    pose proof (aligned_even _ _ Hk Hmod) as Hme.
    pose proof (pow2_even _ Hk) as Hse.
    assert (Hbe' : b mod 2 = 0).
    { rewrite <- Hbe, Hse. rewrite (Z.mul_comm 2), Z.mod_add by lia. exact Hme. }
    pose proof (Z.mod_pos_bound stop 2 ltac:(lia)).
    pose proof (Z.div_mod stop 2 ltac:(lia)).
    pose proof (Z.div_mod b 2 ltac:(lia)).
    destruct (Z.eqb_spec (stop mod 2) 1) as [Hodd | Heven]; lia.
Qed.

(** X1. The range decomposer. For [start <= stop], [add] returns (the
    bound on the rounds of its loop is never reached) and hands to its
    callback, whichever it is, a sequence of blocks that does not depend on
    the callback: the blocks are aligned, ascending, non-overlapping,
    contiguous, no two adjacent ones could be replaced by one aligned block,
    and together they cover the addresses from [start] to [stop] when
    [start < stop] and [stop] is odd, and from [start] to [stop - 1]
    otherwise. *)
Theorem add_decomposition (start stop : T) :
  wf start -> wf stop -> to_Z start <= to_Z stop ->
  exists bs,
    (forall (O : Type) (cb : OutputAdapter T O) (o : O),
       add start stop cb o = for_each (callback cb) bs o) /\
    Forall aligned bs /\ ascending bs /\ non_overlapping bs /\ contiguous bs /\
    no_adjacent_mergeable bs /\
    union_is bs (to_Z start)
      (if (to_Z start <? to_Z stop) && Z.odd (to_Z stop)
       then to_Z stop else to_Z stop - 1).
Proof.
  intros Hs Ht Hle.
  destruct (add_returns start stop Hs Ht) as (bs & b & Hc & Hend & Hadd).
  exists bs. split; [exact Hadd |].
  split; [apply Forall_forall; intros x Hx; eapply greedy_chain_In; eassumption |].
  split; [eapply greedy_chain_ascending; eassumption |].
  split; [eapply greedy_chain_non_overlapping; eassumption |].
  split; [eapply greedy_chain_contiguous; eassumption |].
  split; [eapply greedy_chain_no_merge; eassumption |].
  destruct (Z.ltb_spec (to_Z start) (to_Z stop)) as [Hlt | Hge]; cbn [andb].
  - pose proof (greedy_chain_end _ _ _ _ Hc Hlt Hend) as Eb.
    pose proof (greedy_chain_union _ _ _ _ Hc) as Hu.
    destruct (Z.odd (to_Z stop)); subst b.
    + replace (to_Z stop + 1 - 1) with (to_Z stop) in Hu by lia. exact Hu.
    + exact Hu.
  - subst bs. cbn [greedy_chain] in Hc. subst b.
    intros x. split; [intros (z & [] & _) | lia].
Qed.

(** Whatever the bounds, no two adjacent blocks of one call can be merged. *)
Lemma add_no_merge (start stop : T) :
  wf start -> wf stop ->
  exists bs,
    (forall (O : Type) (cb : OutputAdapter T O) (o : O),
       add start stop cb o = for_each (callback cb) bs o) /\
    Forall aligned bs /\ ascending bs /\ no_adjacent_mergeable bs.
Proof.
  intros Hs Ht.
  destruct (add_returns start stop Hs Ht) as (bs & b & Hc & Hend & Hadd).
  exists bs. split; [exact Hadd |].
  split; [apply Forall_forall; intros x Hx; eapply greedy_chain_In; eassumption |].
  split; [eapply greedy_chain_ascending; eassumption |].
  eapply greedy_chain_no_merge; eassumption.
Qed.


End Add.

(** * Sorting the marker vector *)

Lemma insert_all_In {A : Type} (x : A) (l1 l2 : list A) :
  In (l1 ++ x :: l2) (insert_all x (l1 ++ l2)).
Proof.
  induction l1 as [| y l1 IH]; cbn [app insert_all].
  - destruct l2; left; reflexivity.
  - right. apply in_map. exact IH.
Qed.

Lemma arrangements_complete {A : Type} (l l' : list A) :
  Permutation l l' -> In l' (arrangements l).
Proof.
  revert l'. induction l as [| x l IH]; intros l' Hp; cbn [arrangements].
  - apply Permutation_nil in Hp. subst l'. left; reflexivity.
  - assert (Hin : In x l') by (eapply Permutation_in; [exact Hp | left; reflexivity]).
    destruct (in_split _ _ Hin) as (l1 & l2 & ->).
    apply Permutation_cons_app_inv in Hp.
    apply in_flat_map. exists (l1 ++ l2). split; [apply IH, Hp | apply insert_all_In].
Qed.

Lemma ordered_complete {T : Type} `{Address T} (l : list (IPMarker.t T)) :
  StronglySorted (fun a b => IPMarker.lt b a = false) l -> ordered l = true.
Proof.
  induction 1 as [| x l Hs IH Hall]; cbn [ordered]; [reflexivity |].
  rewrite IH, andb_true_r. apply forallb_forall. intros y Hy.
  rewrite Forall_forall in Hall. rewrite (Hall y Hy). reflexivity.
Qed.

(** Whatever [std::sort] does, its result is one of the sorted arrangements. *)
Lemma sort_cases {T : Type} `{Address T}
  (sort : list (IPMarker.t T) -> list (IPMarker.t T)) (l : list (IPMarker.t T)) :
  sorts sort -> In (sort l) (sorted_arrangements l).
Proof.
  intros Hs. destruct (Hs l) as [Hp Ho]. apply filter_In.
  split; [apply arrangements_complete, Hp | apply ordered_complete, Ho].
Qed.

Section InsertionSort.

Context {T : Type} `{AddressLaws T}.

Lemma insert_marker_perm (m : IPMarker.t T) (l : list (IPMarker.t T)) :
  Permutation (m :: l) (insert_marker m l).
Proof.
  induction l as [| x l IH]; cbn [insert_marker]; [reflexivity |].
  destruct (IPMarker.lt m x); [reflexivity |].
  rewrite perm_swap. apply perm_skip, IH.
Qed.

Lemma insertion_sort_perm_acc (l acc : list (IPMarker.t T)) :
  Permutation (acc ++ l) (fold_left (fun acc m => insert_marker m acc) l acc).
Proof.
  revert acc. induction l as [| m l IH]; intros acc; cbn [fold_left].
  - rewrite app_nil_r. reflexivity.
  - rewrite <- IH. rewrite <- insert_marker_perm.
    symmetry. apply Permutation_middle.
Qed.

End InsertionSort.

Lemma marker_lt_IPv4 (a b : IPMarker.t IPv4.t) :
  IPMarker.lt a b = (IPv4.value (IPMarker.ip a) <? IPv4.value (IPMarker.ip b)).
Proof. reflexivity. Qed.

Lemma insert_marker_sorted_IPv4 (m : IPMarker.t IPv4.t) (acc : list (IPMarker.t IPv4.t)) :
  StronglySorted (fun a b => IPMarker.lt b a = false) acc ->
  StronglySorted (fun a b => IPMarker.lt b a = false) (insert_marker m acc).
Proof.
  induction 1 as [| x acc Hs IHs Hall]; cbn [insert_marker].
  - repeat constructor.
  - destruct (IPMarker.lt m x) eqn:E; rewrite marker_lt_IPv4 in E.
    + apply Z.ltb_lt in E. constructor; [constructor; assumption |].
      constructor.
      * rewrite marker_lt_IPv4. apply Z.ltb_ge. lia.
      * rewrite Forall_forall in Hall |- *. intros y Hy.
        specialize (Hall y Hy). rewrite marker_lt_IPv4 in *.
        apply Z.ltb_ge in Hall. apply Z.ltb_ge. lia.
    + apply Z.ltb_ge in E. constructor; [exact IHs |].
      rewrite Forall_forall in Hall |- *. intros y Hy.
      assert (Hy' : In y (m :: acc)).
      { eapply Permutation_in; [symmetry; apply (insert_marker_perm (T := IPv4.t)) | exact Hy]. }
      destruct Hy' as [<- | Hy'].
      * rewrite marker_lt_IPv4. apply Z.ltb_ge. lia.
      * apply Hall, Hy'.
Qed.

(** Insertion sort meets the contract of [std::sort]. *)
Lemma insertion_sort_IPv4 : sorts (insertion_sort (T := IPv4.t)).
Proof.
  intros l. split.
  - exact (insertion_sort_perm_acc (T := IPv4.t) l []).
  - unfold insertion_sort.
    assert (Hacc : forall acc : list (IPMarker.t IPv4.t),
               StronglySorted (fun a b => IPMarker.lt b a = false) acc ->
               StronglySorted (fun a b => IPMarker.lt b a = false)
                 (fold_left (fun acc m => insert_marker m acc) l acc)).
    { induction l as [| m l IH]; intros acc Hs; cbn [fold_left]; [exact Hs |].
      apply IH, insert_marker_sorted_IPv4, Hs. }
    apply Hacc. constructor.
Qed.

(** * The sweep *)

Section Sweep.

Context {T : Type} `{AddressLaws T}.

Lemma for_each_Recorder (bs out : list (IPNode.t T)) :
  for_each (callback Recorder) bs out = Ok (out ++ bs).
Proof.
  revert out. induction bs as [| b bs IH]; intros out; cbn [for_each].
  - rewrite app_nil_r. reflexivity.
  - cbn [callback Recorder bind]. rewrite IH, <- app_assoc. reflexivity.
Qed.

(** A range with no address below its end gives no block. *)
Lemma add_nothing (start stop : T) {O : Type} (cb : OutputAdapter T O) (o : O) :
  lt start stop = false -> add start stop cb o = Ok o.
Proof.
  intros E. unfold add.
  rewrite (iterate_leaves _ _ _ o); [reflexivity |].
  unfold add_body. rewrite E. reflexivity.
Qed.

(** One call of [track]: at most one range is flushed, and its blocks go
    to the callback as they come out of [add]. *)
Lemma track_flush (kernel : ComparisonKernel) (open : bool) (ip : T)
  (A_ B_ : batch_data) :
  wf ip -> wf (start A_) ->
  exists A' chunk,
    (forall (O : Type) (cb : OutputAdapter T O) (o : O),
       track kernel open ip A_ B_ cb o =
       (o' <- for_each (callback cb) chunk o ;; Ok (A', o'))) /\
    wf (start A') /\ count A' = count A_ /\
    Forall aligned chunk /\ ascending chunk /\ no_adjacent_mergeable chunk /\
    (chunk <> [] -> call kernel (count A_) (count B_) = false /\ inside A_ = true).
Proof.
  intros Hip Hst.
  assert (Hnil : Forall aligned (@nil (IPNode.t T)) /\ ascending (@nil (IPNode.t T)) /\
                 no_adjacent_mergeable (@nil (IPNode.t T)) /\
                 (@nil (IPNode.t T) <> [] ->
                  call kernel (count A_) (count B_) = false /\ inside A_ = true)).
  { split; [constructor |]. split; [constructor |]. split.
    - intros l1 b1 b2 l2 E. destruct l1; discriminate E.
    - intros E. contradiction E. reflexivity. }
  unfold track.
  destruct (call kernel (count A_) (count B_)) eqn:Ek.
  - destruct (inside A_) eqn:Ei; cbn [negb].
    + exists A_, []. split; [reflexivity |]. split; [exact Hst |]. split; [reflexivity | exact Hnil].
    + destruct open.
      * exists (Batch (count A_) true ip), []. split; [reflexivity |].
        split; [exact Hip |]. split; [reflexivity | exact Hnil].
      * destruct (next_spec ip Hip) as (n & En & Hn & _).
        exists (Batch (count A_) true n), []. split; [rewrite En; reflexivity |].
        split; [exact Hn |]. split; [reflexivity | exact Hnil].
  - destruct (inside A_) eqn:Ei.
    + assert (Hflush : forall stop, wf stop ->
                exists chunk,
                  (forall (O : Type) (cb : OutputAdapter T O) (o : O),
                     (o' <- add (start A_) stop cb o ;;
                      Ok (Batch (count A_) false (start A_), o')) =
                     (o' <- for_each (callback cb) chunk o ;;
                      Ok (Batch (count A_) false (start A_), o'))) /\
                  Forall aligned chunk /\ ascending chunk /\ no_adjacent_mergeable chunk).
      { intros stop Hstop.
        destruct (add_no_merge (start A_) stop Hst Hstop) as (bs & Hadd & Hprops).
        exists bs. split; [| exact Hprops]. intros O cb o. rewrite Hadd. reflexivity. }
      destruct open.
      * destruct (previous_spec ip Hip) as (p & Ep & Hp & _).
        destruct (Hflush p Hp) as (chunk & Hrun & Ha & Hs & Hm).
        exists (Batch (count A_) false (start A_)), chunk.
        split; [intros O cb o; rewrite Ep; cbn [bind]; apply Hrun |].
        split; [exact Hst |]. split; [reflexivity |]. repeat (split; [assumption |]).
        intros _. split; reflexivity.
      * destruct (Hflush ip Hip) as (chunk & Hrun & Ha & Hs & Hm).
        exists (Batch (count A_) false (start A_)), chunk.
        split; [exact Hrun |].
        split; [exact Hst |]. split; [reflexivity |]. repeat (split; [assumption |]).
        intros _. split; reflexivity.
    + exists A_, []. split; [reflexivity |]. split; [exact Hst |]. split; [reflexivity | exact Hnil].
Qed.


End Sweep.

(** * The steps of the sweep *)

Lemma for_each_emit {T O : Type} (callback_a callback_b : OutputAdapter T O)
  (first : bool) (chunk : list (IPNode.t T)) (o : O) :
  for_each (emit callback_a callback_b) (map (pair first) chunk) o =
  for_each (callback (if first then callback_a else callback_b)) chunk o.
Proof.
  revert o. induction chunk as [| b chunk IH]; intros o; [reflexivity |].
  cbn [map for_each]. unfold emit at 1. cbn [fst snd].
  apply bind_ext. intros o'. apply IH.
Qed.



(** * Printed numbers *)

Lemma digits_value_app (val : ascii -> Z) (base : Z) (s1 s2 : list ascii) (sofar : Z) :
  digits_value val base (s1 ++ s2) sofar =
  digits_value val base s2 (digits_value val base s1 sofar).
Proof. unfold digits_value. apply fold_left_app. Qed.

(** The digits of base 10 and of base 16, as characters. *)
Lemma dec_digit_char (d : Z) :
  0 <= d < 10 ->
  is_dec_digit (digit_char d) = true /\ code (digit_char d) - code "0" = d.
Proof.
  intros Hd.
  assert (C : d = 0 \/ d = 1 \/ d = 2 \/ d = 3 \/ d = 4 \/ d = 5 \/ d = 6 \/
              d = 7 \/ d = 8 \/ d = 9) by lia.
  repeat (destruct C as [-> | C]); try subst d; split; reflexivity.
Qed.

Lemma hex_digit_char (d : Z) :
  0 <= d < 16 ->
  is_lower_hex (digit_char d) = true /\ IPv6.is_hex (digit_char d) = true /\
  IPv6.hex_digit (digit_char d) = d /\ (d <> 0 -> digit_char d <> "0"%char).
Proof.
  intros Hd.
  assert (C : d = 0 \/ d = 1 \/ d = 2 \/ d = 3 \/ d = 4 \/ d = 5 \/ d = 6 \/
              d = 7 \/ d = 8 \/ d = 9 \/ d = 10 \/ d = 11 \/ d = 12 \/ d = 13 \/
              d = 14 \/ d = 15) by lia.
  repeat (destruct C as [-> | C]); try subst d;
    (split; [reflexivity |]; split; [reflexivity |]; split; [reflexivity |]);
    intros N; try discriminate; contradiction N; reflexivity.
Qed.

Section Digits.

Variable base : Z.
Hypothesis base_ge2 : 2 <= base.

Variable val : ascii -> Z.
Hypothesis val_digit : forall d, 0 <= d < base -> val (digit_char d) = d.

Lemma put_digits_spec (fuel : nat) :
  forall (k bound : nat) (x : Z) (acc : list ascii),
    (0 < k <= fuel)%nat -> 0 <= x < base ^ Z.of_nat k ->
    (0 < bound)%nat -> x < base ^ Z.of_nat bound ->
    exists ds,
      put_digits fuel base x acc = ds ++ acc /\
      (1 <= length ds <= bound)%nat /\
      digits_value val base ds 0 = x /\
      Forall (is_digit_of_base base) ds /\
      ((x = 0 /\ ds = [digit_char 0]) \/
       (exists d rest, ds = digit_char d :: rest /\ 0 < d < base)).
Proof.
  induction fuel as [| fuel IH]; intros k bound x acc Hk Hx Hb Hxb; [lia |].
  cbn [put_digits].
  pose proof (Z.div_mod x base ltac:(lia)) as Hdm.
  pose proof (Z.mod_pos_bound x base ltac:(lia)) as Hmod.
  assert (Hdigit : is_digit_of_base base (digit_char (x mod base)))
    by (exists (x mod base); split; [lia | reflexivity]).
  destruct (Z.eqb_spec (x / base) 0) as [Hq | Hq].
  - exists [digit_char (x mod base)]. split; [reflexivity |].
    split; [cbn [length]; lia |].
    split; [unfold digits_value; cbn [fold_left]; rewrite val_digit by lia; lia |].
    split; [constructor; [exact Hdigit | constructor] |].
    destruct (Z.eq_dec x 0) as [-> | Hnz].
    + left. split; [reflexivity |]. rewrite Z.mod_0_l by lia. reflexivity.
    + right. exists (x mod base), []. split; [reflexivity | lia].
  - assert (Hqpos : 0 < x / base).
    { pose proof (Z.div_pos x base ltac:(lia) ltac:(lia)). lia. }
    assert (Hstep : forall n : nat, (0 < n)%nat -> x < base ^ Z.of_nat n ->
                      (1 < n)%nat /\ x / base < base ^ Z.of_nat (n - 1)).
    { intros n Hn Hxn.
      assert (Hn1 : (1 < n)%nat).
      { destruct (Nat.eq_dec n 1) as [-> | ]; [| lia].
        change (Z.of_nat 1) with 1 in Hxn. rewrite Z.pow_1_r in Hxn.
        rewrite Z.div_small in Hq by lia. lia. }
      split; [exact Hn1 |].
      apply Z.div_lt_upper_bound; [lia |].
      rewrite <- Z.pow_succ_r by lia.
      replace (Z.succ (Z.of_nat (n - 1))) with (Z.of_nat n) by lia. exact Hxn. }
    destruct (Hstep k ltac:(lia) ltac:(lia)) as [Hk1 Hxk].
    destruct (Hstep bound Hb Hxb) as [Hb1 Hxb'].
    destruct (IH (k - 1)%nat (bound - 1)%nat (x / base)
                 (digit_char (x mod base) :: acc))
      as (ds & Eds & Hlen & Hval & Hall & Hlead); try lia.
    exists (ds ++ [digit_char (x mod base)]).
    split; [rewrite Eds, <- app_assoc; reflexivity |].
    split; [rewrite length_app; cbn [length]; lia |].
    split.
    { rewrite digits_value_app, Hval. unfold digits_value. cbn [fold_left].
      rewrite val_digit by lia. lia. }
    split; [apply Forall_app; split; [exact Hall | constructor; [exact Hdigit | constructor]] |].
    right. destruct Hlead as [[Hz _] | (d & rest & -> & Hd)]; [lia |].
    exists d, (rest ++ [digit_char (x mod base)]). split; [reflexivity | exact Hd].
Qed.

Lemma put_unsigned_spec (bound : nat) (x : Z) :
  0 <= x < base ^ Z.of_nat bound -> (0 < bound)%nat ->
  exists ds,
    put_unsigned base x = ds /\
    (1 <= length ds <= bound)%nat /\
    digits_value val base ds 0 = x /\
    Forall (is_digit_of_base base) ds /\
    ((x = 0 /\ ds = [digit_char 0]) \/
     (exists d rest, ds = digit_char d :: rest /\ 0 < d < base)).
Proof.
  intros Hx Hb. unfold put_unsigned.
  destruct (put_digits_spec (S (Z.to_nat (Z.log2 x))) (S (Z.to_nat (Z.log2 x)))
              bound x []) as (ds & Eds & Hrest); try lia.
  - split; [lia |].
    rewrite Nat2Z.inj_succ, Z2Nat.id by apply Z.log2_nonneg.
    destruct (Z.eq_dec x 0) as [-> | Hnz].
    + cbn. lia.
    + apply Z.lt_le_trans with (2 ^ Z.succ (Z.log2 x)).
      * apply Z.log2_spec. lia.
      * apply Z.pow_le_mono_l. lia.
  - exists ds. rewrite app_nil_r in Eds. split; [exact Eds | exact Hrest].
Qed.

End Digits.

(** * Dotted-decimal notation *)

Lemma digits_value_ge (val : ascii -> Z) (base : Z) (s : list ascii) (sofar : Z) :
  1 <= base -> Forall (fun c => 0 <= val c) s -> 0 <= sofar ->
  sofar <= digits_value val base s sofar.
Proof.
  intros Hb Hs. revert sofar. induction Hs as [| c s Hc Hs IH]; intros sofar H0.
  - unfold digits_value. cbn [fold_left]. lia.
  - unfold digits_value in *. cbn [fold_left].
    specialize (IH (sofar * base + val c) ltac:(nia)). nia.
Qed.

Lemma dec_digit_of_base (c : ascii) :
  is_digit_of_base 10 c -> is_dec_digit c = true /\ 0 <= dec_val c < 10.
Proof.
  intros (d & Hd & ->). destruct (dec_digit_char d Hd) as [H1 H2].
  split; [exact H1 |]. unfold dec_val. lia.
Qed.

Lemma IPv4_parse_loop_digits (text ds rest : list ascii) (value octet count : Z) :
  Forall (is_digit_of_base 10) ds -> 0 <= octet ->
  digits_value dec_val 10 ds octet <= INT_MAX ->
  IPv4.parse_loop text (ds ++ rest) value octet count =
  IPv4.parse_loop text rest value (digits_value dec_val 10 ds octet) count.
Proof.
  intros Hds. revert octet. induction Hds as [| c ds Hc Hds IH]; intros octet H0 Hmax.
  - reflexivity.
  - destruct (dec_digit_of_base c Hc) as [Hdig Hval].
    assert (Hnn : Forall (fun c => 0 <= dec_val c) ds).
    { eapply Forall_impl; [| exact Hds]. intros c' Hc'.
      apply dec_digit_of_base in Hc'. lia. }
    change (digits_value dec_val 10 (c :: ds) octet)
      with (digits_value dec_val 10 ds (octet * 10 + dec_val c)) in Hmax |- *.
    pose proof (digits_value_ge dec_val 10 ds (octet * 10 + dec_val c)
                  ltac:(lia) Hnn ltac:(lia)) as Hge.
    cbn [app IPv4.parse_loop]. unfold is_dec_digit in Hdig. rewrite Hdig.
    fold (dec_val c). unfold int_check.
    replace ((INT_MIN <=? octet * 10 + dec_val c) && (octet * 10 + dec_val c <=? INT_MAX))
      with true
      by (symmetry; apply andb_true_intro2; [apply Z.leb_le | apply Z.leb_le];
          unfold INT_MIN, INT_MAX in *; lia).
    cbn [bind]. apply IH; lia.
Qed.

Lemma IPv4_parse_loop_dot (text : list ascii) (c' : ascii) (r : list ascii)
  (value octet count : Z) :
  0 <= octet < 256 -> 0 <= count < 4 -> is_digit_of_base 10 c' ->
  IPv4.parse_loop text ("."%char :: c' :: r) value octet count =
  IPv4.parse_loop text (c' :: r) (Z.lor (wrap 32 (Z.shiftl value 8)) octet) 0 (count + 1).
Proof.
  intros Ho Hc (d & Hd & ->). cbn [IPv4.parse_loop].
  change ((code "." <=? code "9") && (code "." >=? code "0")) with false. cbv iota.
  change (code "." =? code ".") with true.
  replace (octet <? 256) with true by (symmetry; apply Z.ltb_lt; lia).
  cbn [andb].
  replace (code (digit_char d) =? code ".") with false.
  - unfold int_check.
    replace ((INT_MIN <=? count + 1) && (count + 1 <=? INT_MAX)) with true
      by (symmetry; apply andb_true_intro2; apply Z.leb_le;
          unfold INT_MIN, INT_MAX; lia).
    reflexivity.
  - symmetry. apply Z.eqb_neq. destruct (dec_digit_char d Hd) as [_ E].
    change (code ".") with 46. change (code "0") with 48 in E. lia.
Qed.

Lemma lor_octet (v o : Z) :
  0 <= v -> 0 <= o < 256 -> v * 256 + o < 2 ^ 32 ->
  Z.lor (wrap 32 (Z.shiftl v 8)) o = v * 256 + o.
Proof.
  intros Hv Ho Hlt. unfold wrap. rewrite Z.shiftl_mul_pow2 by lia.
  change (2 ^ 8) with 256. rewrite Z.mod_small by lia.
  rewrite <- Z.lxor_lor, <- Z.add_nocarry_lxor; try reflexivity.
  all: apply Z.bits_inj'; intros i Hi; rewrite Z.land_spec, Z.bits_0;
    destruct (Z.lt_ge_cases i 8) as [Hlo | Hhi].
  all: try (change 256 with (2 ^ 8); rewrite Z.mul_pow2_bits_low by lia; reflexivity).
  all: rewrite (Z.bits_above_log2 o i); [apply andb_false_r | lia |].
  all: destruct (Z.eq_dec o 0) as [-> | Hnz]; [cbn; lia |];
    apply Z.lt_le_trans with 8; [apply Z.log2_lt_pow2; [lia | cbn; lia] | lia].
Qed.

Lemma IPv4_parse_octets (o3 o2 o1 o0 : Z) :
  0 <= o3 < 256 -> 0 <= o2 < 256 -> 0 <= o1 < 256 -> 0 <= o0 < 256 ->
  IPv4.parse (put_unsigned 10 o3 ++ "."%char :: put_unsigned 10 o2 ++ "."%char ::
              put_unsigned 10 o1 ++ "."%char :: put_unsigned 10 o0) =
  Ok (IPv4.IPv4 (((o3 * 256 + o2) * 256 + o1) * 256 + o0)).
Proof.
  intros H3 H2 H1 H0.
  assert (Hput : forall o, 0 <= o < 256 ->
            exists c ds, put_unsigned 10 o = c :: ds /\
              Forall (is_digit_of_base 10) (c :: ds) /\
              digits_value dec_val 10 (c :: ds) 0 = o).
  { intros o Ho.
    destruct (put_unsigned_spec 10 ltac:(lia) dec_val
                (fun d Hd => proj2 (dec_digit_char d Hd)) 3%nat o)
      as (ds & Eds & Hlen & Hval & Hall & _); [cbn; lia | lia |].
    destruct ds as [| c ds]; [cbn [length] in Hlen; lia |].
    exists c, ds. repeat split; assumption. }
  destruct (Hput o3 H3) as (c3 & d3 & E3 & F3 & V3).
  destruct (Hput o2 H2) as (c2 & d2 & E2 & F2 & V2).
  destruct (Hput o1 H1) as (c1 & d1 & E1 & F1 & V1).
  destruct (Hput o0 H0) as (c0 & d0 & E0 & F0 & V0).
  rewrite E3, E2, E1, E0.
  set (text := (c3 :: d3) ++ "."%char :: (c2 :: d2) ++ "."%char ::
               (c1 :: d1) ++ "."%char :: c0 :: d0).
  assert (Hc3 : (code c3 =? code ".") = false).
  { apply Z.eqb_neq. inversion F3 as [| ? ? (d & Hd & ->) _].
    destruct (dec_digit_char d Hd) as [_ E].
    change (code ".") with 46. change (code "0") with 48 in E. lia. }
  unfold IPv4.parse. change text with (c3 :: d3 ++ "."%char :: (c2 :: d2) ++ "."%char ::
               (c1 :: d1) ++ "."%char :: c0 :: d0) at 1.
  cbv iota. rewrite Hc3.
  unfold text at 2.
  rewrite IPv4_parse_loop_digits by (try assumption; try lia; rewrite V3; unfold INT_MAX; lia).
  rewrite V3. cbn [app].
  rewrite IPv4_parse_loop_dot by (try lia; inversion F2; assumption).
  rewrite (lor_octet 0 o3) by (cbn; lia). change (0 * 256 + o3) with o3.
  change (c2 :: d2 ++ "."%char :: c1 :: d1 ++ "."%char :: c0 :: d0)
    with ((c2 :: d2) ++ "."%char :: (c1 :: d1) ++ "."%char :: c0 :: d0).
  rewrite IPv4_parse_loop_digits by (try assumption; try lia; rewrite V2; unfold INT_MAX; lia).
  rewrite V2. cbn [app].
  rewrite IPv4_parse_loop_dot by (try lia; inversion F1; assumption).
  rewrite (lor_octet o3 o2) by (cbn; lia).
  change (c1 :: d1 ++ "."%char :: c0 :: d0) with ((c1 :: d1) ++ "."%char :: c0 :: d0).
  rewrite IPv4_parse_loop_digits by (try assumption; try lia; rewrite V1; unfold INT_MAX; lia).
  rewrite V1. cbn [app].
  rewrite IPv4_parse_loop_dot by (try lia; inversion F0; assumption).
  rewrite (lor_octet (o3 * 256 + o2) o1) by (cbn; lia).
  rewrite <- (app_nil_r (c0 :: d0)).
  rewrite IPv4_parse_loop_digits by (try assumption; try lia; rewrite V0; unfold INT_MAX; lia).
  rewrite V0. cbn [IPv4.parse_loop bind].
  change (0 + 1 + 1 + 1 =? 3) with true. cbn [negb orb].
  replace (o0 >=? 256) with false by (symmetry; rewrite Z.geb_leb; apply Z.leb_gt; lia).
  rewrite (lor_octet ((o3 * 256 + o2) * 256 + o1) o0) by (cbn; lia).
  reflexivity.
Qed.

Lemma octet_range (v k : Z) : 0 <= Z.land (Z.shiftr v k) 0xff < 256.
Proof.
  change 0xff with (Z.ones 8). rewrite Z.land_ones by lia.
  apply Z.mod_pos_bound. reflexivity.
Qed.

Lemma octets_value (v : Z) :
  0 <= v < 2 ^ 32 ->
  ((Z.land (Z.shiftr v 24) 0xff * 256 + Z.land (Z.shiftr v 16) 0xff) * 256 +
   Z.land (Z.shiftr v 8) 0xff) * 256 + Z.land (Z.shiftr v 0) 0xff = v.
Proof.
  intros Hv. change 0xff with (Z.ones 8). rewrite !Z.land_ones by lia.
  rewrite !Z.shiftr_div_pow2 by lia.
  change (2 ^ 24) with (2 ^ 8 * (2 ^ 8 * 2 ^ 8)). change (2 ^ 16) with (2 ^ 8 * 2 ^ 8).
  change (2 ^ 0) with 1. rewrite Z.div_1_r.
  rewrite <- !Z.div_div by lia. change (2 ^ 8) with 256.
  pose proof (Z.div_mod v 256 ltac:(lia)).
  pose proof (Z.div_mod (v / 256) 256 ltac:(lia)).
  pose proof (Z.div_mod (v / 256 / 256) 256 ltac:(lia)).
  assert (v / 256 / 256 / 256 < 256).
  { rewrite !Z.div_div by lia. apply Z.div_lt_upper_bound; [lia |].
    change (256 * 256 * 256 * 256) with (2 ^ 32). lia. }
  assert (0 <= v / 256 / 256 / 256) by (repeat apply Z.div_pos; lia).
  rewrite (Z.mod_small (v / 256 / 256 / 256)) by lia. lia.
Qed.

(** Parsing the text of a 32-bit address gives the address back. *)
Lemma IPv4_round_trip (a : IPv4.t) :
  IPv4.wf a -> IPv4.parse (IPv4.to_string a) = Ok a.
Proof.
  destruct a as [v]. unfold IPv4.wf, IPv4.to_string. cbn [IPv4.value]. intros Hv.
  rewrite IPv4_parse_octets by apply octet_range.
  rewrite octets_value by exact Hv. reflexivity.
Qed.

(** * Colon-hexadecimal notation: writing *)

Section CollapsePrint.

Variables (end_ collapse_start collapse_end : Z).

Lemma collapse_print_buf (l : list Z) (iter : Z) (buf : list ascii) :
  IPv6.collapse_print l iter end_ collapse_start collapse_end buf =
  buf ++ IPv6.collapse_print l iter end_ collapse_start collapse_end [].
Proof.
  revert iter buf. induction l as [| x l IH]; intros iter buf; cbn [IPv6.collapse_print].
  - rewrite app_nil_r. reflexivity.
  - destruct (iter =? collapse_start),
             ((iter >=? collapse_start) && (iter <? collapse_end)),
             (negb (iter + 1 =? end_) && negb (iter + 1 =? collapse_start));
      cbn [app];
      match goal with
      | |- IPv6.collapse_print _ _ _ _ _ ?b1 = _ ++ IPv6.collapse_print _ _ _ _ _ ?b2 =>
        rewrite (IH _ b1), (IH _ b2)
      end;
      repeat (rewrite <- !app_assoc; cbn [app]); reflexivity.
Qed.

(** Outside of the collapsed run the segments come out with a colon
    between each two. *)
Lemma collapse_print_plain (l : list Z) (iter : Z) :
  iter + Z.of_nat (length l) = end_ ->
  (forall j, iter <= j < end_ ->
     j <> collapse_start /\ (j < collapse_start \/ collapse_end <= j) /\
     (j + 1 = collapse_start -> j + 1 = end_)) ->
  IPv6.collapse_print l iter end_ collapse_start collapse_end [] =
  join_colon (map hex l).
Proof.
  revert iter. induction l as [| x l IH]; intros iter Hlen Hout; [reflexivity |].
  cbn [length] in Hlen. cbn [IPv6.collapse_print map].
  destruct (Hout iter ltac:(lia)) as (H1 & H2 & H3).
  replace (iter =? collapse_start) with false by (symmetry; apply Z.eqb_neq; lia).
  replace ((iter >=? collapse_start) && (iter <? collapse_end)) with false
    by (symmetry; apply andb_false_iff; rewrite Z.geb_leb, Z.leb_gt, Z.ltb_ge; lia).
  cbn [app]. destruct l as [| y l].
  - replace (iter + 1 =? end_) with true by (symmetry; apply Z.eqb_eq; cbn [length] in Hlen; lia).
    reflexivity.
  - replace (iter + 1 =? end_) with false
      by (symmetry; apply Z.eqb_neq; cbn [length] in Hlen; lia).
    replace (iter + 1 =? collapse_start) with false
      by (symmetry; apply Z.eqb_neq; cbn [length] in Hlen; lia).
    cbn [negb andb]. rewrite collapse_print_buf.
    rewrite IH; [| lia | intros j Hj; apply Hout; lia].
    cbn [map join_colon]. rewrite <- app_assoc. reflexivity.
Qed.

Hypothesis run_inside : 0 <= collapse_start < collapse_end /\ collapse_end <= end_.

(** Past the start of the collapsed run: the rest of the run is left out. *)
Lemma collapse_print_inside (l : list Z) (iter : Z) :
  iter + Z.of_nat (length l) = end_ -> collapse_start < iter <= collapse_end ->
  IPv6.collapse_print l iter end_ collapse_start collapse_end [] =
  join_colon (map hex (skipn (Z.to_nat (collapse_end - iter)) l)).
Proof.
  revert iter. induction l as [| x l IH]; intros iter Hlen Hin.
  - rewrite skipn_nil. reflexivity.
  - destruct (Z.eq_dec iter collapse_end) as [-> | Hne].
    + rewrite Z.sub_diag. cbn [Z.to_nat skipn].
      apply collapse_print_plain; [exact Hlen | intros j Hj; lia].
    + cbn [length] in Hlen. cbn [IPv6.collapse_print].
      replace (iter =? collapse_start) with false by (symmetry; apply Z.eqb_neq; lia).
      replace ((iter >=? collapse_start) && (iter <? collapse_end)) with true
        by (symmetry; apply andb_true_intro2; [rewrite Z.geb_leb; apply Z.leb_le | apply Z.ltb_lt]; lia).
      rewrite IH by lia.
      replace (Z.to_nat (collapse_end - iter)) with (S (Z.to_nat (collapse_end - (iter + 1))))
        by lia.
      reflexivity.
Qed.

(** Up to the collapsed run: the segments before it, then ["::"]. *)
Lemma collapse_print_before (l : list Z) (iter : Z) :
  iter + Z.of_nat (length l) = end_ -> iter <= collapse_start ->
  IPv6.collapse_print l iter end_ collapse_start collapse_end [] =
  join_colon (map hex (firstn (Z.to_nat (collapse_start - iter)) l)) ++
  [":"; ":"]%char ++
  join_colon (map hex (skipn (Z.to_nat (collapse_end - iter)) l)).
Proof.
  revert iter. induction l as [| x l IH]; intros iter Hlen Hbefore.
  - cbn [length] in Hlen. lia.
  - cbn [length] in Hlen. cbn [IPv6.collapse_print].
    replace (Z.to_nat (collapse_end - iter)) with (S (Z.to_nat (collapse_end - (iter + 1))))
      by lia.
    cbn [skipn].
    destruct (Z.eq_dec iter collapse_start) as [-> | Hne].
    + rewrite Z.eqb_refl.
      replace ((collapse_start >=? collapse_start) && (collapse_start <? collapse_end))
        with true
        by (symmetry; apply andb_true_intro2;
            [rewrite Z.geb_leb; apply Z.leb_le | apply Z.ltb_lt]; lia).
      rewrite Z.sub_diag. cbn [Z.to_nat firstn map join_colon app].
      rewrite collapse_print_buf, collapse_print_inside by lia. reflexivity.
    + replace (iter =? collapse_start) with false by (symmetry; apply Z.eqb_neq; lia).
      replace ((iter >=? collapse_start) && (iter <? collapse_end)) with false
        by (symmetry; apply andb_false_iff; rewrite Z.geb_leb, Z.leb_gt; lia).
      replace (iter + 1 =? end_) with false by (symmetry; apply Z.eqb_neq; lia).
      replace (Z.to_nat (collapse_start - iter))
        with (S (Z.to_nat (collapse_start - (iter + 1)))) by lia.
      cbn [negb andb app firstn map]. rewrite collapse_print_buf, IH by lia.
      destruct (Z.eq_dec (iter + 1) collapse_start) as [E | Hne'].
      * rewrite E, Z.eqb_refl, Z.sub_diag. cbn [negb join_colon Z.to_nat firstn map app].
        reflexivity.
      * replace (iter + 1 =? collapse_start) with false by (symmetry; apply Z.eqb_neq; lia).
        cbn [negb].
        destruct l as [| y l]; [cbn [length] in Hlen; lia |].
        replace (Z.to_nat (collapse_start - (iter + 1)))
          with (S (Z.to_nat (collapse_start - (iter + 1) - 1))) by lia.
        cbn [firstn map join_colon]. rewrite <- !app_assoc. reflexivity.
Qed.

End CollapsePrint.

Section CollapseFind.

Variable segs : list Z.

Local Abbreviation N := (Z.of_nat (length segs)).
Local Abbreviation seg := (fun j => nth (Z.to_nat j) segs 1).
Local Abbreviation Zrun := (zeros_between segs).
Local Abbreviation find_inv := (collapse_find_invariant segs).

(** Closing the current run at [i]: the comparison made when a non-zero
    segment, or the end, is reached. *)
Lemma collapse_close (i c cs ce : Z) :
  find_inv i c cs ce -> c <> N ->
  let cs' := if i - c >? ce - cs then c else cs in
  let ce' := if i - c >? ce - cs then i else ce in
  Zrun cs' ce' /\ ce' <= i /\
  forall s e, Zrun s e -> e <= i -> e - s <= ce' - cs' /\ (e - s = ce' - cs' -> cs' <= s).
Proof.
  unfold collapse_find_invariant, zeros_between. cbv zeta.
  intros (Hi & Hc & Hbest & Hmax) HcN.
  destruct Hc as [[Hc _] | (Hc & Hzero & Hleft)]; [contradiction |].
  replace (c =? N) with false in * by (symmetry; apply Z.eqb_neq; lia).
  assert (Hsplit : forall s e,
             0 <= s < e /\ e <= N /\ (forall j, s <= j < e -> seg j = 0) ->
             e <= i -> e <= c \/ c <= s).
  { intros s e (Hs & He & Hz) Hei.
    destruct (Z.le_gt_cases e c) as [Hle | Hgt]; [left; exact Hle | right].
    destruct (Z.le_gt_cases c s) as [Hcs | Hsc]; [exact Hcs | exfalso].
    destruct Hleft as [-> | Hnz]; [lia |]. apply Hnz, Hz. lia. }
  destruct (Z.gtb_spec (i - c) (ce - cs)) as [Hlonger | Hshorter].
  - split; [repeat split; try lia; exact Hzero |]. split; [lia |].
    intros s e Hrun Hei. destruct (Hsplit s e Hrun Hei) as [Hold | Hnew].
    + destruct (Hmax s e Hrun Hold). lia.
    + destruct Hrun as (Hs & _). lia.
  - destruct Hbest as [[-> ->] | [Hrun Hce]]; [lia |].
    split; [exact Hrun |]. split; [lia |].
    intros s e Hrun' Hei. destruct (Hsplit s e Hrun' Hei) as [Hold | Hnew].
    + apply Hmax; assumption.
    + destruct Hrun' as (Hs & _). destruct Hrun as (Hcs & _). lia.
Qed.

Lemma collapse_find_inv (l pre : list Z) (c cs ce : Z) :
  segs = pre ++ l -> find_inv (Z.of_nat (length pre)) c cs ce ->
  exists c' cs' ce',
    IPv6.collapse_find l (Z.of_nat (length pre)) N (c, cs, ce) = (c', cs', ce') /\
    find_inv N c' cs' ce'.
Proof.
  revert pre c cs ce. induction l as [| x l IH]; intros pre c cs ce Hsegs Hinv.
  - exists c, cs, ce. split; [reflexivity |].
    assert (E : Z.of_nat (length pre) = N) by (rewrite Hsegs, app_nil_r; reflexivity).
    rewrite E in Hinv. exact Hinv.
  - set (i := Z.of_nat (length pre)) in *.
    assert (Hx : seg i = x).
    { unfold i. rewrite Nat2Z.id, Hsegs. apply nth_middle. }
    assert (HiN : 0 <= i < N).
    { unfold i. rewrite Hsegs, length_app. cbn [length]. lia. }
    assert (Hnext : Z.of_nat (length (pre ++ [x])) = i + 1).
    { unfold i. rewrite length_app. cbn [length]. lia. }
    assert (Hsegs' : segs = (pre ++ [x]) ++ l).
    { rewrite <- app_assoc. exact Hsegs. }
    cbn [IPv6.collapse_find]. rewrite <- Hnext.
    assert (Hprev : seg (i + 1 - 1) = x) by (replace (i + 1 - 1) with i by lia; exact Hx).
    cbv beta in Hx, Hprev.
    pose proof (collapse_close i c cs ce Hinv) as Hclose.
    assert (Hcut : forall s e, Zrun s e -> e <= i + 1 -> x <> 0 -> e <= i).
    { intros s e (Hs & He & Hz) Hei Hx0.
      destruct (Z.eq_dec e (i + 1)) as [-> | Hne]; [| lia].
      exfalso. apply Hx0. rewrite <- Hx. apply Hz. lia. }
    unfold collapse_find_invariant in Hinv. cbv zeta in Hinv.
    destruct Hinv as (_ & Hc & Hbest & Hmax).
    destruct (Z.eqb_spec x 0) as [Hx0 | Hx0].
    + (* a zero: the current run starts here or goes on *)
      destruct (Z.eqb_spec c N) as [HcN | HcN].
      * apply IH; [exact Hsegs' |]. rewrite Hnext.
        unfold collapse_find_invariant. cbv zeta.
        destruct Hc as [[_ Hleft] | (Hc & _)]; [| lia].
        replace (i =? N) with false by (symmetry; apply Z.eqb_neq; lia).
        split; [lia |]. split.
        { right. split; [lia |]. split.
          - intros j Hj. replace j with i by lia. rewrite Hx. exact Hx0.
          - destruct Hleft as [-> | Hnz]; [left; reflexivity | right; exact Hnz]. }
        split; [exact Hbest | exact Hmax].
      * apply IH; [exact Hsegs' |]. rewrite Hnext.
        unfold collapse_find_invariant. cbv zeta.
        destruct Hc as [[Hc _] | (Hc & Hzero & Hleft)]; [contradiction |].
        replace (c =? N) with false in * by (symmetry; apply Z.eqb_neq; lia).
        split; [lia |]. split.
        { right. split; [lia |]. split; [| exact Hleft].
          intros j Hj. destruct (Z.eq_dec j i) as [-> | Hne]; [rewrite Hx; exact Hx0 | apply Hzero; lia]. }
        split; [exact Hbest | exact Hmax].
    + (* not a zero: the current run, if any, ends here *)
      destruct (Z.eqb_spec c N) as [HcN | HcN]; cbn [negb].
      * apply IH; [exact Hsegs' |]. rewrite Hnext.
        unfold collapse_find_invariant. cbv zeta.
        rewrite HcN, Z.eqb_refl in *.
        split; [lia |]. split; [left; split; [reflexivity | right; rewrite Hprev; exact Hx0] |].
        split.
        { destruct Hbest as [Hb | [Hrun Hce]]; [left; exact Hb | right; split; [exact Hrun | lia]]. }
        intros s e Hrun Hei. apply Hmax; [exact Hrun | apply (Hcut s e Hrun Hei Hx0)].
      * destruct (Hclose HcN) as (Hrun & Hce & Hmax').
        destruct (i - c >? ce - cs); (apply IH; [exact Hsegs' |]); rewrite Hnext;
          unfold collapse_find_invariant; cbv zeta;
          rewrite Z.eqb_refl;
          (split; [lia |]); (split; [left; split; [reflexivity | right; rewrite Hprev; exact Hx0] |]);
          (split; [right; split; [exact Hrun | lia] |]);
          intros s e Hrun' Hei; apply Hmax'; (exact Hrun' || apply (Hcut s e Hrun' Hei Hx0)).
Qed.

(** The run that [collapse] chooses, before it discards runs of length
    one: the first among the longest runs of zero segments. *)
Lemma collapse_choice :
  exists c cs ce,
    IPv6.collapse_find segs 0 N (N, N, N) = (c, cs, ce) /\
    let cs' := if negb (c =? N) then (if N - c >? ce - cs then c else cs) else cs in
    let ce' := if negb (c =? N) then (if N - c >? ce - cs then N else ce) else ce in
    ((cs' = N /\ ce' = N) \/ Zrun cs' ce') /\
    forall s e, Zrun s e -> e - s <= ce' - cs' /\ (e - s = ce' - cs' -> cs' <= s).
Proof.
  destruct (collapse_find_inv segs [] N N N) as (c & cs & ce & Efind & Hinv).
  - reflexivity.
  - unfold collapse_find_invariant. cbv zeta. cbn [length Z.of_nat]. rewrite Z.eqb_refl.
    split; [lia |]. split; [left; split; [reflexivity | left; reflexivity] |].
    split; [left; split; reflexivity |]. intros s e (Hs & He & _) Hle. lia.
  - exists c, cs, ce. split; [exact Efind |]. cbv zeta.
    destruct (Z.eqb_spec c N) as [HcN | HcN]; cbn [negb].
    + unfold collapse_find_invariant in Hinv. cbv zeta in Hinv.
      destruct Hinv as (_ & _ & Hbest & Hmax). rewrite HcN, Z.eqb_refl in *.
      split.
      * destruct Hbest as [Hb | [Hrun _]]; [left; exact Hb | right; exact Hrun].
      * intros s e Hrun. apply Hmax; [exact Hrun | apply Hrun].
    + destruct (collapse_close N c cs ce Hinv HcN) as (Hrun & Hce & Hmax).
      destruct (N - c >? ce - cs); (split; [right; exact Hrun |]);
        intros s e Hrun'; apply Hmax; (exact Hrun' || apply Hrun').
Qed.

End CollapseFind.

(** The text [collapse] writes for a vector of segments: the first among
    the longest runs of zero segments is found, and is replaced by ["::"]
    when it has two segments or more. *)
Lemma collapse_spec (segs : list Z) :
  exists s len : nat,
    zero_run segs s len /\
    (forall s' len', zero_run segs s' len' ->
       (len' <= len)%nat /\ (len' = len -> (s <= s')%nat)) /\
    IPv6.collapse segs =
    if (2 <=? len)%nat
    then join_colon (map hex (firstn s segs)) ++ [":"; ":"]%char ++
         join_colon (map hex (skipn (s + len) segs))
    else join_colon (map hex segs).
Proof.
  destruct (collapse_choice segs) as (c & cs & ce & Efind & Hbest & Hmax).
  cbv zeta in Hbest, Hmax. unfold IPv6.collapse. rewrite Efind.
  set (N := Z.of_nat (length segs)) in *.
  assert (Hconv : forall s' len' : nat, zero_run segs s' len' -> (0 < len')%nat ->
            zeros_between segs (Z.of_nat s') (Z.of_nat (s' + len'))).
  { intros s' len' [Hle Hz] Hpos. split; [lia |]. split; [fold N; unfold N; lia |].
    intros j Hj. replace (Z.to_nat j) with (Z.to_nat j) by reflexivity.
    apply Hz. lia. }
  set (cs' := if negb (c =? N) then if N - c >? ce - cs then c else cs else cs) in *.
  set (ce' := if negb (c =? N) then if N - c >? ce - cs then N else ce else ce) in *.
  assert (Epair : (if negb (c =? N)
                   then if N - c >? ce - cs then (c, N) else (cs, ce)
                   else (cs, ce)) = (cs', ce')).
  { unfold cs', ce'. destruct (negb (c =? N)), (N - c >? ce - cs); reflexivity. }
  rewrite Epair. clearbody cs' ce'. clear Epair Efind c cs ce.
  destruct Hbest as [[-> ->] | Hrun].
  - (* no zero segment at all *)
    exists 0%nat, 0%nat. split; [split; [lia | intros i Hi; lia] |].
    split.
    { intros s' len' Hrun'. destruct (Nat.eq_dec len' 0) as [-> | Hpos]; [lia |].
      destruct (Hmax _ _ (Hconv s' len' Hrun' ltac:(lia))). lia. }
    rewrite Z.sub_diag. change (0 =? 1) with false. cbv iota. cbn [Nat.leb].
    apply collapse_print_plain; [fold N; lia | intros j Hj; lia].
  - pose proof Hrun as (Hcs & Hce & Hz).
    exists (Z.to_nat cs'), (Z.to_nat (ce' - cs')).
    split.
    { split; [fold N; unfold N in Hce; lia |]. intros i Hi.
      rewrite <- (Nat2Z.id i). apply Hz. lia. }
    split.
    { intros s' len' Hrun'. destruct (Nat.eq_dec len' 0) as [-> | Hpos]; [lia |].
      destruct (Hmax _ _ (Hconv s' len' Hrun' ltac:(lia))). lia. }
    destruct (Z.eqb_spec (ce' - cs') 1) as [Hone | Hmore].
    + rewrite Hone. cbn [Z.to_nat Pos.to_nat Pos.iter_op Nat.leb].
      apply collapse_print_plain; [fold N; lia | intros j Hj; fold N; lia].
    + replace (2 <=? Z.to_nat (ce' - cs'))%nat with true
        by (symmetry; apply Nat.leb_le; lia).
      rewrite (collapse_print_before N cs' ce' ltac:(lia) segs 0) by (fold N; lia).
      rewrite !Z.sub_0_r.
      replace (Z.to_nat cs' + Z.to_nat (ce' - cs'))%nat with (Z.to_nat ce') by lia.
      reflexivity.
Qed.

(** A 16-bit segment is written with one to four lower-case hexadecimal
    digits, without a leading zero, and [parse_segment] reads it back. *)
Lemma hex_segment (x : Z) :
  0 <= x < 65536 ->
  (1 <= length (hex x) <= 4)%nat /\
  forallb is_lower_hex (hex x) = true /\
  forallb IPv6.is_hex (hex x) = true /\
  no_leading_zero (hex x) /\
  IPv6.parse_segment (hex x) = x.
Proof.
  intros Hx.
  destruct (put_unsigned_spec 16 ltac:(lia) IPv6.hex_digit
              (fun d Hd => proj1 (proj2 (proj2 (hex_digit_char d Hd)))) 4%nat x)
    as (ds & Eds & Hlen & Hval & Hall & Hlead); [cbn; lia | lia |].
  rewrite Eds. split; [exact Hlen |].
  split.
  { apply forallb_forall. intros ch Hch. rewrite Forall_forall in Hall.
    destruct (Hall ch Hch) as (d & Hd & ->). apply hex_digit_char, Hd. }
  split.
  { apply forallb_forall. intros ch Hch. rewrite Forall_forall in Hall.
    destruct (Hall ch Hch) as (d & Hd & ->). apply hex_digit_char, Hd. }
  split.
  { destruct Hlead as [[_ ->] | (d & rest & -> & Hd)]; [exact I |].
    destruct rest; [exact I |]. cbn [no_leading_zero].
    apply hex_digit_char; lia. }
  unfold IPv6.parse_segment. fold (digits_value IPv6.hex_digit 16 ds 0).
  rewrite Hval. replace (x >? 65535) with false; [reflexivity |].
  symmetry. rewrite Z.gtb_ltb. apply Z.ltb_ge. lia.
Qed.

Lemma segment_range (v k : Z) : 0 <= Z.land (Z.shiftr v k) 0xffff < 65536.
Proof.
  change 0xffff with (Z.ones 16). rewrite Z.land_ones by lia.
  apply Z.mod_pos_bound. reflexivity.
Qed.

Lemma segmentize_range (a : IPv6.t) :
  Forall (fun x => 0 <= x < 65536) (IPv6.segmentize a).
Proof.
  unfold IPv6.segmentize. apply Forall_app. split;
    apply Forall_forall; intros x Hx; apply in_map_iff in Hx;
    destruct Hx as (i & <- & _); apply segment_range.
Qed.

(** * Colon-hexadecimal notation: reading *)

Lemma is_hex_not_colon (ch : ascii) :
  IPv6.is_hex ch = true -> (code ch =? code ":") = false /\ (code ch =? code ".") = false.
Proof.
  unfold IPv6.is_hex. rewrite !orb_true_iff, !andb_true_iff, !Z.geb_leb, !Z.leb_le.
  change (code "a") with 97. change (code "f") with 102.
  change (code "A") with 65. change (code "F") with 70.
  change (code "0") with 48. change (code "9") with 57.
  change (code ":") with 58. change (code ".") with 46.
  intros Hc. split; apply Z.eqb_neq; lia.
Qed.

Lemma last_app_nonempty {A : Type} (l t : list A) (d : A) :
  t <> [] -> last (l ++ t) d = last t d.
Proof.
  intros Ht. induction l as [| x l IH]; [reflexivity |].
  cbn [app]. destruct (l ++ t) as [| y r] eqn:E.
  - destruct l; [cbn [app] in E; contradiction | discriminate E].
  - change (last (x :: y :: r) d) with (last (y :: r) d). exact IH.
Qed.

Lemma last_In {A : Type} (t : list A) (d : A) : t <> [] -> In (last t d) t.
Proof.
  induction t as [| x t IH]; [contradiction |]. intros _.
  destruct t as [| y t]; [left; reflexivity |].
  right. apply IH. discriminate.
Qed.

Section ParseLoop.

Variable text : list ascii.

Lemma IPv6_parse_loop_token (t rest seg : list ascii) (first second : list Z) (b : bool) :
  forallb IPv6.is_hex t = true ->
  IPv6.parse_loop text (t ++ rest) seg first second b =
  IPv6.parse_loop text rest (seg ++ t) first second b.
Proof.
  revert seg. induction t as [| ch t IH]; intros seg Ht.
  - rewrite app_nil_r. reflexivity.
  - cbn [forallb] in Ht. apply andb_true_iff in Ht. destruct Ht as [Hch Ht].
    cbn [app IPv6.parse_loop]. rewrite Hch, IH by exact Ht.
    rewrite <- app_assoc. reflexivity.
Qed.

Lemma IPv6_parse_loop_colon (rest seg : list ascii) (first second : list Z) (b : bool) :
  (1 <= length seg <= 4)%nat ->
  IPv6.parse_loop text (":"%char :: rest) seg first second b =
  if b then IPv6.parse_loop text rest [] first (second ++ [IPv6.parse_segment seg]) true
  else IPv6.parse_loop text rest [] (first ++ [IPv6.parse_segment seg]) second false.
Proof.
  intros Hlen. cbn [IPv6.parse_loop].
  change (IPv6.is_hex ":") with false. change (code ":" =? code ":") with true. cbv iota.
  replace (Z.of_nat (length seg) >? 4) with false
    by (symmetry; rewrite Z.gtb_ltb; apply Z.ltb_ge; lia).
  replace (Z.of_nat (length seg) =? 0) with false by (symmetry; apply Z.eqb_neq; lia).
  reflexivity.
Qed.

(** A segment and the colon after it. *)
Lemma IPv6_parse_loop_segment (x : Z) (rest : list ascii) (first second : list Z) (b : bool) :
  0 <= x < 65536 ->
  IPv6.parse_loop text (hex x ++ ":"%char :: rest) [] first second b =
  if b then IPv6.parse_loop text rest [] first (second ++ [x]) true
  else IPv6.parse_loop text rest [] (first ++ [x]) second false.
Proof.
  intros Hx. destruct (hex_segment x Hx) as (Hlen & _ & Hhex & _ & Hval).
  rewrite IPv6_parse_loop_token by exact Hhex. cbn [app].
  rewrite IPv6_parse_loop_colon by exact Hlen. rewrite Hval. reflexivity.
Qed.

(** Segments separated by colons, with a colon after the last one. *)
Lemma IPv6_parse_loop_join_colon (xs : list Z) (rest : list ascii)
  (first second : list Z) (b : bool) :
  xs <> [] -> Forall (fun x => 0 <= x < 65536) xs ->
  IPv6.parse_loop text (join_colon (map hex xs) ++ ":"%char :: rest) [] first second b =
  if b then IPv6.parse_loop text rest [] first (second ++ xs) true
  else IPv6.parse_loop text rest [] (first ++ xs) second false.
Proof.
  intros Hne Hxs. revert first second.
  induction Hxs as [| x xs Hx Hxs IH]; intros first second; [contradiction |].
  destruct xs as [| y xs].
  - cbn [map join_colon]. apply IPv6_parse_loop_segment, Hx.
  - change (join_colon (map hex (x :: y :: xs)))
      with (hex x ++ ":"%char :: join_colon (map hex (y :: xs))).
    rewrite <- app_assoc. cbn [app].
    rewrite IPv6_parse_loop_segment by exact Hx.
    destruct b; rewrite IH by discriminate; rewrite <- app_assoc; reflexivity.
Qed.

(** Segments separated by colons, up to the end of the text: the last one
    is left in [segment_start], to be pushed after the loop. *)
Lemma IPv6_parse_loop_join_end (xs : list Z) (first second : list Z) (b : bool) :
  xs <> [] -> Forall (fun x => 0 <= x < 65536) xs ->
  exists st,
    IPv6.parse_loop text (join_colon (map hex xs)) [] first second b = Ok st /\
    IPv6.IPv4_embedded st = false /\
    IPv6.push_back st (IPv6.parse_segment (IPv6.segment_start st)) =
    if b then IPv6.Scan first (second ++ xs) true (IPv6.segment_start st) false
    else IPv6.Scan (first ++ xs) second false (IPv6.segment_start st) false.
Proof.
  intros Hne Hxs. revert first second.
  induction Hxs as [| x xs Hx Hxs IH]; intros first second; [contradiction |].
  destruct xs as [| y xs].
  - cbn [map join_colon]. destruct (hex_segment x Hx) as (_ & _ & Hhex & _ & Hval).
    rewrite <- (app_nil_r (hex x)), IPv6_parse_loop_token by exact Hhex.
    cbn [app IPv6.parse_loop]. eexists. split; [reflexivity |].
    split; [reflexivity |].
    unfold IPv6.push_back. cbn [IPv6.in_second IPv6.segment_start IPv6.segments_first
                                 IPv6.segments_second IPv6.IPv4_embedded].
    rewrite Hval. destruct b; reflexivity.
  - change (join_colon (map hex (x :: y :: xs)))
      with (hex x ++ ":"%char :: join_colon (map hex (y :: xs))).
    rewrite IPv6_parse_loop_segment by exact Hx.
    destruct b.
    + destruct (IH ltac:(discriminate) first (second ++ [x])) as (st & E & Hemb & Hpush).
      exists st. rewrite <- app_assoc in Hpush. tauto.
    + destruct (IH ltac:(discriminate) (first ++ [x]) second) as (st & E & Hemb & Hpush).
      exists st. rewrite <- app_assoc in Hpush. tauto.
Qed.

End ParseLoop.

(** The text of a non-empty vector of segments starts and ends with a
    hexadecimal digit. *)
Lemma join_colon_ends (xs : list Z) :
  xs <> [] -> Forall (fun x => 0 <= x < 65536) xs ->
  exists ch rest l t,
    join_colon (map hex xs) = ch :: rest /\ IPv6.is_hex ch = true /\
    join_colon (map hex xs) = l ++ t /\ t <> [] /\ forallb IPv6.is_hex t = true.
Proof.
  intros Hne Hxs. induction Hxs as [| x xs Hx Hxs IH]; [contradiction |].
  destruct (hex_segment x Hx) as (Hlen & _ & Hhex & _).
  destruct (hex x) as [| ch t] eqn:Et; [cbn [length] in Hlen; lia |].
  assert (Hch : IPv6.is_hex ch = true).
  { cbn [forallb] in Hhex. apply andb_true_iff in Hhex. apply Hhex. }
  destruct xs as [| y xs].
  - cbn [map join_colon]. rewrite Et.
    exists ch, t, [], (ch :: t). repeat split; try assumption. discriminate.
  - destruct (IH ltac:(discriminate)) as (ch0 & rest0 & l' & t' & _ & _ & El & Ht' & Hhex').
    change (join_colon (map hex (x :: y :: xs)))
      with (hex x ++ ":"%char :: join_colon (map hex (y :: xs))).
    rewrite Et, El.
    exists ch, (t ++ ":"%char :: l' ++ t'), ((ch :: t) ++ ":"%char :: l'), t'.
    split; [reflexivity |]. split; [exact Hch |].
    split; [rewrite <- app_assoc; reflexivity |]. split; assumption.
Qed.

Lemma back_is_hex (l t : list ascii) (d : ascii) :
  t <> [] -> forallb IPv6.is_hex t = true ->
  (code (last (l ++ t) d) =? code ":") = false.
Proof.
  intros Ht Hhex. rewrite last_app_nonempty by exact Ht.
  apply is_hex_not_colon. rewrite forallb_forall in Hhex.
  apply Hhex, last_In, Ht.
Qed.

(** * Colon-hexadecimal notation: putting the segments in place *)

Lemma place_first_app (l1 l2 : list Z) (i : Z) (a : IPv6.t) :
  IPv6.place_first (l1 ++ l2) i a =
  IPv6.place_first l2 (i + Z.of_nat (length l1)) (IPv6.place_first l1 i a).
Proof.
  revert i a. induction l1 as [| x l1 IH]; intros i a.
  - cbn [app length Z.of_nat IPv6.place_first]. rewrite Z.add_0_r. reflexivity.
  - cbn [app IPv6.place_first length]. rewrite IH. f_equal. lia.
Qed.

Lemma place_second_app (l1 l2 : list Z) (i : Z) (a : IPv6.t) :
  IPv6.place_second (l1 ++ l2) i a =
  IPv6.place_second l2 (i + Z.of_nat (length l1)) (IPv6.place_second l1 i a).
Proof.
  revert i a. induction l1 as [| x l1 IH]; intros i a.
  - cbn [app length Z.of_nat IPv6.place_second]. rewrite Z.add_0_r. reflexivity.
  - cbn [app IPv6.place_second length]. rewrite IH. f_equal. lia.
Qed.

(** A zero segment changes nothing. *)
Lemma place_first_zeros (n : nat) (l : list Z) (i : Z) (a : IPv6.t) :
  IPv6.place_first (repeat 0 n ++ l) i a = IPv6.place_first l (i + Z.of_nat n) a.
Proof.
  revert i. induction n as [| n IH]; intros i.
  - cbn [repeat app Z.of_nat]. rewrite Z.add_0_r. reflexivity.
  - cbn [repeat app IPv6.place_first]. rewrite !Z.shiftl_0_l.
    change (wrap 64 0) with 0. rewrite !Z.lor_0_r.
    replace (if i <? 4 then IPv6.IPv6 (IPv6.network a) (IPv6.host a)
             else IPv6.IPv6 (IPv6.network a) (IPv6.host a)) with a
      by (destruct a, (i <? 4); reflexivity).
    rewrite IH. f_equal. lia.
Qed.

(** Placing one segment from the front commutes with placing others. *)
Lemma place_first_commute (l : list Z) (i k : Z) (x : Z) (a : IPv6.t) :
  IPv6.place_first l i (IPv6.place_first [x] k a) =
  IPv6.place_first [x] k (IPv6.place_first l i a).
Proof.
  revert i a. induction l as [| y l IH]; intros i a; [reflexivity |].
  cbn [IPv6.place_first] in *. rewrite <- IH. f_equal.
  destruct (i <? 4), (k <? 4); cbn [IPv6.network IPv6.host]; f_equal;
    rewrite <- !Z.lor_assoc; f_equal; apply Z.lor_comm.
Qed.

(** The segment that [place_second] puts at position [j] from the back is
    the one [place_first] puts at position [7 - j] from the front. *)
Lemma place_second_first (x j : Z) (a : IPv6.t) :
  0 <= j <= 7 -> IPv6.place_second [x] j a = IPv6.place_first [x] (7 - j) a.
Proof.
  intros Hj. cbn [IPv6.place_second IPv6.place_first].
  destruct (Z.ltb_spec j 4), (Z.ltb_spec (7 - j) 4); try lia; do 4 f_equal; lia.
Qed.

Lemma place_second_rev (post : list Z) (j : Z) (a : IPv6.t) :
  0 <= j -> j + Z.of_nat (length post) <= 8 ->
  IPv6.place_second (rev post) j a =
  IPv6.place_first post (8 - j - Z.of_nat (length post)) a.
Proof.
  revert a. induction post as [| x post IH]; intros a Hj Hlen; [reflexivity |].
  cbn [length] in Hlen. cbn [rev]. rewrite place_second_app, length_rev.
  rewrite place_second_first by lia. rewrite IH by lia.
  rewrite <- place_first_commute.
  change (IPv6.place_first (x :: post) (8 - j - Z.of_nat (length (x :: post))) a)
    with (IPv6.place_first post (8 - j - Z.of_nat (length (x :: post)) + 1)
            (IPv6.place_first [x] (8 - j - Z.of_nat (length (x :: post))) a)).
  cbn [length]. f_equal; [| f_equal]; lia.
Qed.

Lemma segment_bits (n sh i : Z) :
  0 <= sh -> 0 <= i ->
  Z.testbit (wrap 64 (Z.shiftl (Z.land (Z.shiftr n sh) 0xffff) sh)) i =
  Z.testbit n i && ((sh <=? i) && (i <? sh + 16) && (i <? 64)).
Proof.
  intros Hsh Hi. unfold wrap.
  destruct (Z.ltb_spec i 64) as [H64 | H64].
  - rewrite Z.mod_pow2_bits_low by lia. rewrite andb_true_r.
    destruct (Z.leb_spec sh i) as [Hlo | Hlo].
    + rewrite Z.shiftl_spec, Z.land_spec, Z.shiftr_spec by lia.
      replace (i - sh + sh) with i by lia. change 0xffff with (Z.ones 16).
      destruct (Z.ltb_spec i (sh + 16)) as [Hhi | Hhi].
      * rewrite Z.ones_spec_low by lia. reflexivity.
      * rewrite Z.ones_spec_high by lia. reflexivity.
    + rewrite Z.shiftl_spec_low by lia. rewrite andb_false_r. reflexivity.
  - rewrite Z.mod_pow2_bits_high by lia. rewrite !andb_false_r. reflexivity.
Qed.

Lemma four_segments (n : Z) :
  0 <= n < 2 ^ 64 ->
  Z.lor (Z.lor (Z.lor (Z.lor 0
    (wrap 64 (Z.shiftl (Z.land (Z.shiftr n 48) 0xffff) 48)))
    (wrap 64 (Z.shiftl (Z.land (Z.shiftr n 32) 0xffff) 32)))
    (wrap 64 (Z.shiftl (Z.land (Z.shiftr n 16) 0xffff) 16)))
    (wrap 64 (Z.shiftl (Z.land (Z.shiftr n 0) 0xffff) 0)) = n.
Proof.
  intros Hn. apply Z.bits_inj'. intros i Hi.
  rewrite !Z.lor_spec, !segment_bits, Z.bits_0 by lia. cbn [orb].
  destruct (Z.testbit n i) eqn:Eb; [| reflexivity]. cbn [andb].
  assert (Hi64 : i < 64).
  { destruct (Z.lt_ge_cases i 64) as [Hl | Hg]; [exact Hl | exfalso].
    destruct (Z.eq_dec n 0) as [-> | Hnz]; [rewrite Z.bits_0 in Eb; discriminate |].
    rewrite Z.bits_above_log2 in Eb; [discriminate | lia |].
    apply Z.lt_le_trans with 64; [apply Z.log2_lt_pow2; lia | lia]. }
  destruct (Z.leb_spec 48 i), (Z.leb_spec 32 i), (Z.leb_spec 16 i), (Z.leb_spec 0 i),
    (Z.ltb_spec i (48 + 16)), (Z.ltb_spec i (32 + 16)), (Z.ltb_spec i (16 + 16)),
    (Z.ltb_spec i (0 + 16)), (Z.ltb_spec i 64); try lia; reflexivity.
Qed.

Lemma place_first_segmentize (a : IPv6.t) :
  IPv6.wf a -> IPv6.place_first (IPv6.segmentize a) 0 (IPv6.IPv6 0 0) = a.
Proof.
  destruct a as [n h]. unfold IPv6.wf. cbn [IPv6.network IPv6.host]. intros [Hn Hh].
  transitivity (IPv6.IPv6
    (Z.lor (Z.lor (Z.lor (Z.lor 0
      (wrap 64 (Z.shiftl (Z.land (Z.shiftr n 48) 0xffff) 48)))
      (wrap 64 (Z.shiftl (Z.land (Z.shiftr n 32) 0xffff) 32)))
      (wrap 64 (Z.shiftl (Z.land (Z.shiftr n 16) 0xffff) 16)))
      (wrap 64 (Z.shiftl (Z.land (Z.shiftr n 0) 0xffff) 0)))
    (Z.lor (Z.lor (Z.lor (Z.lor 0
      (wrap 64 (Z.shiftl (Z.land (Z.shiftr h 48) 0xffff) 48)))
      (wrap 64 (Z.shiftl (Z.land (Z.shiftr h 32) 0xffff) 32)))
      (wrap 64 (Z.shiftl (Z.land (Z.shiftr h 16) 0xffff) 16)))
      (wrap 64 (Z.shiftl (Z.land (Z.shiftr h 0) 0xffff) 0)))).
  - reflexivity.
  - rewrite !four_segments by assumption. reflexivity.
Qed.

(** * Colon-hexadecimal notation: reading what was written *)

Lemma IPv6_parse_plain (segs : list Z) :
  length segs = 8%nat -> Forall (fun x => 0 <= x < 65536) segs ->
  IPv6.parse (join_colon (map hex segs)) = Ok (IPv6.place_first segs 0 (IPv6.IPv6 0 0)).
Proof.
  intros Hlen Hsegs.
  assert (Hne : segs <> []) by (intros ->; discriminate Hlen).
  destruct (join_colon_ends segs Hne Hsegs) as (ch & rest & l & t & E1 & Hch & E2 & Ht & Hhex).
  destruct (IPv6_parse_loop_join_end (join_colon (map hex segs)) segs [] [] false Hne Hsegs)
    as (st & Eloop & Hemb & Hpush).
  unfold IPv6.parse. rewrite E1. cbv iota.
  rewrite (proj1 (is_hex_not_colon ch Hch)). rewrite <- E1.
  rewrite Eloop. cbn [bind]. unfold IPv6.parse_finish.
  assert (Eback : (code (last (join_colon (map hex segs)) ch) =? code ":") = false)
    by (rewrite E2; apply back_is_hex; assumption).
  rewrite !Eback. cbn [andb negb].
  rewrite Hemb. cbn [bind]. rewrite Hpush.
  cbn [IPv6.in_second IPv6.segments_first IPv6.segments_second negb app].
  rewrite Hlen. reflexivity.
Qed.

Lemma IPv6_parse_collapsed (pre post : list Z) :
  Forall (fun x => 0 <= x < 65536) pre -> Forall (fun x => 0 <= x < 65536) post ->
  (length pre + length post < 8)%nat ->
  IPv6.parse (join_colon (map hex pre) ++ [":"; ":"]%char ++ join_colon (map hex post)) =
  Ok (IPv6.place_second (rev post) 0 (IPv6.place_first pre 0 (IPv6.IPv6 0 0))).
Proof.
  intros Hpre Hpost Hlen.
  set (text := join_colon (map hex pre) ++ [":"; ":"]%char ++ join_colon (map hex post)).
  (* up to and including the two colons *)
  assert (Hstart : exists c, IPv6.parse text =
            (st <- IPv6.parse_loop text (join_colon (map hex post)) [] pre [] true ;;
             IPv6.parse_finish text (last text c) st)).
  { destruct pre as [| x pre].
    - exists ":"%char. reflexivity.
    - destruct (join_colon_ends (x :: pre) ltac:(discriminate) Hpre)
        as (ch & rest & _ & _ & E1 & Hch & _).
      exists ch. unfold IPv6.parse.
      assert (Etext : text = ch :: rest ++ [":"; ":"]%char ++ join_colon (map hex post)).
      { unfold text. rewrite E1. reflexivity. }
      rewrite Etext at 1. cbv iota.
      rewrite (proj1 (is_hex_not_colon ch Hch)).
      change (IPv6.parse_loop text text [] [] [] false)
        with (IPv6.parse_loop text
                (join_colon (map hex (x :: pre)) ++
                 ":"%char :: ":"%char :: join_colon (map hex post)) [] [] [] false).
      rewrite IPv6_parse_loop_join_colon by (discriminate || assumption).
      reflexivity. }
  destruct Hstart as (c & ->).
  destruct post as [| y post].
  - (* the text ends with the two colons *)
    cbn [map join_colon IPv6.parse_loop bind]. unfold IPv6.parse_finish.
    assert (Eback : last text c = ":"%char).
    { unfold text. cbn [map join_colon]. rewrite app_nil_r.
      rewrite last_app_nonempty by discriminate. reflexivity. }
    rewrite Eback.
    cbn [IPv6.in_second IPv6.segments_first IPv6.segments_second IPv6.IPv4_embedded
         length Z.of_nat].
    change (code ":" =? code ":") with true. change (0 =? 0) with true.
    cbn [andb negb bind IPv6.in_second IPv6.segments_first IPv6.segments_second length
         Z.of_nat rev].
    replace (Z.of_nat (length pre) + 0 >=? 8) with false
      by (symmetry; rewrite Z.geb_leb; apply Z.leb_gt; cbn [length] in Hlen; lia).
    reflexivity.
  - destruct (join_colon_ends (y :: post) ltac:(discriminate) Hpost)
      as (_ & _ & l & t & _ & _ & E2 & Ht & Hhex).
    destruct (IPv6_parse_loop_join_end text (y :: post) pre [] true
                ltac:(discriminate) Hpost) as (st & Eloop & Hemb & Hpush).
    rewrite Eloop. cbn [bind]. unfold IPv6.parse_finish.
    assert (Eback : (code (last text c) =? code ":") = false).
    { unfold text. rewrite E2, !app_assoc. apply back_is_hex; assumption. }
    rewrite !Eback. cbn [andb negb]. rewrite Hemb. cbn [bind]. rewrite Hpush.
    cbn [IPv6.in_second IPv6.segments_first IPv6.segments_second negb app].
    replace (Z.of_nat (length pre) + Z.of_nat (length (y :: post)) >=? 8) with false
      by (symmetry; rewrite Z.geb_leb; apply Z.leb_gt; lia).
    reflexivity.
Qed.

Lemma Forall_firstn_skipn {A : Type} (P : A -> Prop) (l : list A) (n : nat) :
  Forall P l -> Forall P (firstn n l) /\ Forall P (skipn n l).
Proof. intros Hl. apply Forall_app. rewrite firstn_skipn. exact Hl. Qed.

Lemma zero_run_split (segs : list Z) (s len : nat) :
  zero_run segs s len ->
  segs = firstn s segs ++ repeat 0 len ++ skipn (s + len) segs.
Proof.
  intros [Hle Hz].
  rewrite <- (firstn_skipn s segs) at 1. f_equal.
  rewrite <- (firstn_skipn len (skipn s segs)) at 1.
  rewrite skipn_skipn, (Nat.add_comm len s). f_equal.
  assert (Hl : length (firstn len (skipn s segs)) = len).
  { rewrite length_firstn, length_skipn. lia. }
  rewrite <- Hl at 2. apply Forall_eq_repeat. apply Forall_forall. intros x Hx.
  destruct (In_nth _ _ 1 Hx) as (i & Hi & <-). rewrite Hl in Hi.
  rewrite nth_firstn. replace (i <? len)%nat with true by (symmetry; apply Nat.ltb_lt; lia).
  rewrite nth_skipn. symmetry. apply Hz. lia.
Qed.

(** Parsing the text of a 128-bit address gives the address back. *)
Lemma IPv6_round_trip (a : IPv6.t) :
  IPv6.wf a -> IPv6.parse (IPv6.to_string a) = Ok a.
Proof.
  intros Ha. unfold IPv6.to_string.
  pose proof (segmentize_range a) as Hrange.
  assert (Hlen : length (IPv6.segmentize a) = 8%nat) by reflexivity.
  destruct (collapse_spec (IPv6.segmentize a)) as (s & len & Hrun & _ & ->).
  pose proof (place_first_segmentize a Ha) as Hplace.
  set (segs := IPv6.segmentize a) in *.
  destruct (2 <=? len)%nat eqn:Elen.
  - apply Nat.leb_le in Elen. pose proof Hrun as [Hle _].
    pose proof (zero_run_split segs s len Hrun) as Esplit.
    assert (Hpre : length (firstn s segs) = s) by (rewrite length_firstn; lia).
    assert (Hpost : length (skipn (s + len) segs) = (8 - (s + len))%nat)
      by (rewrite length_skipn; lia).
    rewrite IPv6_parse_collapsed.
    + f_equal. rewrite place_second_rev by lia. rewrite <- Hplace.
      transitivity (IPv6.place_first
                      (firstn s segs ++ repeat 0 len ++ skipn (s + len) segs) 0
                      (IPv6.IPv6 0 0)); [| rewrite <- Esplit; reflexivity].
      rewrite place_first_app, place_first_zeros. f_equal. lia.
    + apply (Forall_firstn_skipn _ segs s Hrange).
    + apply (Forall_firstn_skipn _ segs (s + len) Hrange).
    + lia.
  - rewrite IPv6_parse_plain by assumption. f_equal. exact Hplace.
Qed.

(** * The notation and the number *)

(** The bits of the lower half of a 128-bit number. *)
Lemma low_part (n h k m : Z) :
  0 <= k -> 0 <= m -> k + m <= 64 ->
  ((n * 2 ^ 64 + h) / 2 ^ k) mod 2 ^ m = (h / 2 ^ k) mod 2 ^ m.
Proof.
  intros Hk Hm Hkm.
  assert (Pk : 0 < 2 ^ k) by (apply pow2_pos; lia).
  assert (Pm : 0 < 2 ^ m) by (apply pow2_pos; lia).
  replace (n * 2 ^ 64) with (n * 2 ^ (64 - k - m) * 2 ^ m * 2 ^ k).
  - rewrite Z.div_add_l by lia. rewrite Z.add_comm, Z_mod_plus_full. reflexivity.
  - rewrite <- !Z.mul_assoc, <- !Z.pow_add_r by lia. do 2 f_equal. lia.
Qed.

(** The bits of the upper half of a 128-bit number. *)
Lemma high_part (n h j : Z) :
  0 <= h < 2 ^ 64 -> 0 <= j ->
  (n * 2 ^ 64 + h) / 2 ^ (64 + j) = n / 2 ^ j.
Proof.
  intros Hh Hj. rewrite Z.pow_add_r by lia.
  rewrite <- Z.div_div by (try apply Z.lt_gt; try (apply pow2_pos; lia); lia).
  rewrite Z.div_add_l by lia. rewrite (Z.div_small h) by lia.
  rewrite Z.add_0_r. reflexivity.
Qed.

Lemma land_shiftr_div (v k m : Z) :
  0 <= k -> 0 <= m -> Z.land (Z.shiftr v k) (Z.ones m) = (v / 2 ^ k) mod 2 ^ m.
Proof.
  intros Hk Hm. rewrite Z.land_ones, Z.shiftr_div_pow2 by lia. reflexivity.
Qed.

(** The segments of an address are the 16-bit groups of its number. *)
Lemma segmentize_groups (a : IPv6.t) :
  IPv6.wf a -> IPv6.segmentize a = groups (IPv6_to_Z a).
Proof.
  destruct a as [n h]. unfold IPv6.wf, IPv6_to_Z. cbn [IPv6.network IPv6.host].
  intros [Hn Hh]. unfold IPv6.segmentize, groups. cbn [IPv6.network IPv6.host map app].
  change 0xffff with (Z.ones 16). rewrite !land_shiftr_div by lia.
  change (16 * (7 - 0)) with (64 + 48). change (16 * (7 - 1)) with (64 + 32).
  change (16 * (7 - 2)) with (64 + 16). change (16 * (7 - 3)) with (64 + 0).
  rewrite !high_part by lia.
  rewrite !low_part by lia. reflexivity.
Qed.

Lemma lower_hex_val_digit (d : Z) : 0 <= d < 16 -> lower_hex_val (digit_char d) = d.
Proof.
  intros Hd.
  assert (C : d = 0 \/ d = 1 \/ d = 2 \/ d = 3 \/ d = 4 \/ d = 5 \/ d = 6 \/
              d = 7 \/ d = 8 \/ d = 9 \/ d = 10 \/ d = 11 \/ d = 12 \/ d = 13 \/
              d = 14 \/ d = 15) by lia.
  repeat (destruct C as [-> | C]); try subst d; reflexivity.
Qed.

(** What [buf << std::hex] writes for a 16-bit segment. *)
Lemma hex_written (x : Z) : 0 <= x < 65536 -> written_hex x (hex x).
Proof.
  intros Hx.
  destruct (put_unsigned_spec 16 ltac:(lia) lower_hex_val lower_hex_val_digit 4%nat x)
    as (ds & Eds & Hlen & Hval & Hall & Hlead); [cbn; lia | lia |].
  rewrite Eds. split; [exact Hlen |].
  split.
  { apply forallb_forall. intros ch Hch. rewrite Forall_forall in Hall.
    destruct (Hall ch Hch) as (d & Hd & ->). apply hex_digit_char, Hd. }
  split.
  { destruct Hlead as [[_ ->] | (d & rest & -> & Hd)]; [exact I |].
    destruct rest; [exact I |]. cbn [no_leading_zero].
    apply hex_digit_char; lia. }
  split; [exact Hval |].
  intros ->. destruct Hlead as [[_ ->] | (d & rest & -> & Hd)]; [reflexivity |].
  exfalso.
  assert (Hrest : Forall (fun c => 0 <= lower_hex_val c) rest).
  { inversion Hall as [| ? ? _ Hall']; subst. eapply Forall_impl; [| exact Hall'].
    intros ch (d' & Hd' & ->). rewrite lower_hex_val_digit by lia. lia. }
  unfold digits_value in Hval. cbn [fold_left] in Hval.
  rewrite lower_hex_val_digit in Hval by lia.
  pose proof (digits_value_ge lower_hex_val 16 rest (0 * 16 + d) ltac:(lia) Hrest ltac:(lia)) as G.
  unfold digits_value in G. lia.
Qed.

(** The text [collapse] writes is the compressed notation of the
    segments. *)
Lemma collapse_compressed (segs : list Z) :
  Forall (fun x => 0 <= x < 65536) segs -> compressed segs (IPv6.collapse segs).
Proof.
  intros Hsegs. destruct (collapse_spec segs) as (s & len & Hrun & Hmax & Etext).
  exists s, len, (map hex segs). split; [exact Hrun |]. split; [exact Hmax |].
  split.
  - clear Etext Hrun Hmax. induction Hsegs as [| x segs Hx _ IH]; cbn [map];
      constructor; [apply hex_written, Hx | exact IH].
  - rewrite Etext, firstn_map, skipn_map. reflexivity.
Qed.

(** * Kernels *)

(** C7. The union kernel holds iff one of the counts is positive, the
    intersection kernel iff both are, the difference kernel iff the first
    count is zero and the second positive; union and intersection report
    themselves symmetric and difference does not. This holds for all
    integer counts, in particular for the non-negative ones. *)
Theorem kernels_spec (countA countB : Z) :
  (call UnionKernel countA countB = true <-> countA > 0 \/ countB > 0) /\
  (call IntersectionKernel countA countB = true <-> countA > 0 /\ countB > 0) /\
  (call DifferenceKernel countA countB = true <-> countA = 0 /\ countB > 0) /\
  symetric UnionKernel = true /\
  symetric IntersectionKernel = true /\
  symetric DifferenceKernel = false.
Proof.
  cbn [call symetric UnionKernel IntersectionKernel DifferenceKernel].
  rewrite orb_true_iff, !andb_true_iff, !Z.gtb_gt, Z.eqb_eq.
  repeat split; tauto.
Qed.

(** * Floor and ceiling *)

Lemma zeros_ones_bits {T : Type} `{AddressLaws T} (a : T) (p : Z) :
  wf a -> 0 <= p <= bit_length ->
  exists z o,
    network_zeros a p = Ok z /\ network_ones a p = Ok o /\ wf z /\ wf o /\
    forall i, 0 <= i ->
      Z.testbit (to_Z z) i =
        (if i <? bit_length - p then false else Z.testbit (to_Z a) i) /\
      Z.testbit (to_Z o) i =
        (if i <? bit_length - p then true else Z.testbit (to_Z a) i).
Proof.
  intros Ha Hp.
  destruct (network_zeros_spec a p Ha Hp) as (z & Ez & Hz & Vz).
  destruct (network_ones_spec a p Ha Hp) as (o & Eo & Ho & Vo).
  exists z, o. repeat (split; [assumption |]). intros i Hi.
  rewrite Vz, Vo, <- lor_ones by lia.
  split; [apply floor_testbit | apply ceiling_testbit]; lia.
Qed.

(** C9. For an address of either width [W] and a prefix [p] in [[0, W]],
    [network_zeros] (floor) returns the address with its low [W - p] bits
    zero and the others unchanged, and [network_ones] (ceiling) the address
    with its low [W - p] bits one and the others unchanged. For prefix zero
    the results are the all-zero and the all-ones value, obtained without
    the shift by the full operand width, which is undefined. *)
Theorem network_zeros_ones_bits (a : IPv4.t) (p : Z) (b : IPv6.t) (q : Z) :
  IPv4.wf a -> 0 <= p <= 32 -> IPv6.wf b -> 0 <= q <= 128 ->
  (exists z o,
     IPv4.network_zeros a p = Ok z /\ IPv4.network_ones a p = Ok o /\
     IPv4.wf z /\ IPv4.wf o /\
     forall i, 0 <= i ->
       Z.testbit (IPv4_to_Z z) i =
         (if i <? 32 - p then false else Z.testbit (IPv4_to_Z a) i) /\
       Z.testbit (IPv4_to_Z o) i =
         (if i <? 32 - p then true else Z.testbit (IPv4_to_Z a) i)) /\
  (exists z o,
     IPv6.network_zeros b q = Ok z /\ IPv6.network_ones b q = Ok o /\
     IPv6.wf z /\ IPv6.wf o /\
     forall i, 0 <= i ->
       Z.testbit (IPv6_to_Z z) i =
         (if i <? 128 - q then false else Z.testbit (IPv6_to_Z b) i) /\
       Z.testbit (IPv6_to_Z o) i =
         (if i <? 128 - q then true else Z.testbit (IPv6_to_Z b) i)) /\
  IPv4.network_zeros a 0 = Ok (IPv4.IPv4 0) /\
  IPv4.network_ones a 0 = Ok (IPv4.IPv4 (2 ^ 32 - 1)) /\
  IPv6.network_zeros b 0 = Ok (IPv6.IPv6 0 0) /\
  IPv6.network_ones b 0 = Ok (IPv6.IPv6 (2 ^ 64 - 1) (2 ^ 64 - 1)) /\
  shl 32 0xffffffff (32 - 0) = Undefined /\
  shl 64 0xffffffffffffffff (64 - 0) = Undefined.
Proof.
  intros Ha Hp Hb Hq.
  split; [exact (zeros_ones_bits (T := IPv4.t) a p Ha Hp) |].
  split; [exact (zeros_ones_bits (T := IPv6.t) b q Hb Hq) |].
  repeat split.
Qed.

Lemma network_zeros_ones_bits_witness :
  IPv4.wf (IPv4.IPv4 0x0a0102ff) /\ 0 <= 24 <= 32 /\
  IPv6.wf (IPv6.IPv6 0x20010db8000100ff 0xffff) /\ 0 <= 48 <= 128 /\
  (exists z o,
     IPv4.network_zeros (IPv4.IPv4 0x0a0102ff) 24 = Ok z /\
     IPv4.network_ones (IPv4.IPv4 0x0a0102ff) 24 = Ok o /\
     IPv4.wf z /\ IPv4.wf o /\
     forall i, 0 <= i ->
       Z.testbit (IPv4_to_Z z) i =
         (if i <? 32 - 24 then false
          else Z.testbit (IPv4_to_Z (IPv4.IPv4 0x0a0102ff)) i) /\
       Z.testbit (IPv4_to_Z o) i =
         (if i <? 32 - 24 then true
          else Z.testbit (IPv4_to_Z (IPv4.IPv4 0x0a0102ff)) i)).
Proof.
  assert (H4 : IPv4.wf (IPv4.IPv4 0x0a0102ff)) by (unfold IPv4.wf; simpl; lia).
  assert (H6 : IPv6.wf (IPv6.IPv6 0x20010db8000100ff 0xffff))
    by (unfold IPv6.wf; simpl; lia).
  split; [exact H4 |]. split; [lia |]. split; [exact H6 |]. split; [lia |].
  apply (network_zeros_ones_bits (IPv4.IPv4 0x0a0102ff) 24
           (IPv6.IPv6 0x20010db8000100ff 0xffff) 48 H4 ltac:(lia) H6 ltac:(lia)).
Defined.

(** * The range decomposer *)

Local Ltac blocks4 :=
  cbv [covers block_first block_last bit_length to_Z IPv4_Address IPv4_Laws
       IPv4.bit_length IPv4_to_Z IPv4.value IPNode.ip IPNode.prefix] in *.

(** C10. With [start = stop], [add] returns without calling the callback:
    whatever the callback is, even one that would fail, the object it
    writes to comes back unchanged. This holds for both address classes. *)
Theorem add_single_address :
  (forall (x : IPv4.t) (O : Type) (cb : OutputAdapter IPv4.t O) (o : O),
     add x x cb o = Ok o) /\
  (forall (x : IPv6.t) (O : Type) (cb : OutputAdapter IPv6.t O) (o : O),
     add x x cb o = Ok o).
Proof.
  split; intros x O cb o; apply add_nothing.
  - apply Z.ltb_irrefl.
  - cbn [lt IPv6_Address]. unfold IPv6.lt. rewrite !Z.ltb_irrefl, andb_false_r.
    reflexivity.
Qed.

(** C1. On the interval from 10.0.0.0 to 10.0.0.2, [add] hands the single
    block 10.0.0.0/31 to its callback: the last address of the interval is
    in no block, so the union of the blocks is not the interval. *)
Theorem add_misses_last_address :
  add (IPv4.IPv4 0x0a000000) (IPv4.IPv4 0x0a000002) Recorder [] =
    Ok [IPNode.IPNode (IPv4.IPv4 0x0a000000) 31] /\
  ~ union_is [IPNode.IPNode (IPv4.IPv4 0x0a000000) 31]
      (to_Z (IPv4.IPv4 0x0a000000)) (to_Z (IPv4.IPv4 0x0a000002)).
Proof.
  split; [vm_compute; reflexivity |].
  intros Hu. destruct (proj2 (Hu 0x0a000002)) as (b & [<- | []] & Hb).
  - blocks4. lia.
  - blocks4. change (2 ^ (32 - 31)) with 2 in Hb. lia.
Qed.

(** * The sweep *)




(** C4. The flag [open] of a visit is taken from the last marker of the
    group, and [operator <] compares addresses only, so that the order of
    the markers of one address is left to the sort. Two inputs, each with
    its markers as [read_regexp] appends them and in two orders that differ
    within one group only; every such group holds an OPEN marker. For
    A = {10.0.0.0/31} and B = {10.0.0.0/32} the union comes out as nothing
    when the CLOSE marker is last in the group at 10.0.0.0, which is where a
    sort that keeps the order of equal markers leaves it, and as
    10.0.0.0/31 when an OPEN marker is last. For A = {0.0.0.0/31} and
    B = {0.0.0.1/32} it comes out as 0.0.0.0/31 when a CLOSE marker is last
    in the group at 0.0.0.1 and as nothing when the OPEN marker is last. *)
Theorem open_flag_depends_on_order :
  let read1 :=
    [IPMarker.IPMarker (IPv4.IPv4 0x0a000000) ipm_a_open;
     IPMarker.IPMarker (IPv4.IPv4 0x0a000001) ipm_a_close;
     IPMarker.IPMarker (IPv4.IPv4 0x0a000000) ipm_b_open;
     IPMarker.IPMarker (IPv4.IPv4 0x0a000000) ipm_b_close] in
  let close_last1 :=
    [IPMarker.IPMarker (IPv4.IPv4 0x0a000000) ipm_a_open;
     IPMarker.IPMarker (IPv4.IPv4 0x0a000000) ipm_b_open;
     IPMarker.IPMarker (IPv4.IPv4 0x0a000000) ipm_b_close;
     IPMarker.IPMarker (IPv4.IPv4 0x0a000001) ipm_a_close] in
  let open_last1 :=
    [IPMarker.IPMarker (IPv4.IPv4 0x0a000000) ipm_a_open;
     IPMarker.IPMarker (IPv4.IPv4 0x0a000000) ipm_b_close;
     IPMarker.IPMarker (IPv4.IPv4 0x0a000000) ipm_b_open;
     IPMarker.IPMarker (IPv4.IPv4 0x0a000001) ipm_a_close] in
  let close_last2 :=
    [IPMarker.IPMarker (IPv4.IPv4 0) ipm_a_open;
     IPMarker.IPMarker (IPv4.IPv4 1) ipm_a_close;
     IPMarker.IPMarker (IPv4.IPv4 1) ipm_b_open;
     IPMarker.IPMarker (IPv4.IPv4 1) ipm_b_close] in
  let open_last2 :=
    [IPMarker.IPMarker (IPv4.IPv4 0) ipm_a_open;
     IPMarker.IPMarker (IPv4.IPv4 1) ipm_a_close;
     IPMarker.IPMarker (IPv4.IPv4 1) ipm_b_close;
     IPMarker.IPMarker (IPv4.IPv4 1) ipm_b_open] in
  (* the first input *)
  (m1 <- read_regexp (T := IPv4.t) [(text "10.0.0.0", 31)]
           (InsertAdapter ipm_a_open ipm_a_close) [] ;;
   read_regexp (T := IPv4.t) [(text "10.0.0.0", 32)]
     (InsertAdapter ipm_b_open ipm_b_close) m1) = Ok read1 /\
  Permutation read1 close_last1 /\ Permutation read1 open_last1 /\
  ordered close_last1 = true /\ ordered open_last1 = true /\
  insertion_sort read1 = close_last1 /\
  existsb is_open (firstn 3 close_last1) = true /\
  existsb is_open (firstn 3 open_last1) = true /\
  traverse close_last1 UnionKernel Recorder EmptyOutputAdapter [] = Ok [] /\
  traverse open_last1 UnionKernel Recorder EmptyOutputAdapter [] =
    Ok [IPNode.IPNode (IPv4.IPv4 0x0a000000) 31] /\
  process (T := IPv4.t) insertion_sort [(text "10.0.0.0", 31)] [(text "10.0.0.0", 32)]
    UnionKernel [] = Ok [] /\
  (* the second input *)
  (m1 <- read_regexp (T := IPv4.t) [(text "0.0.0.0", 31)]
           (InsertAdapter ipm_a_open ipm_a_close) [] ;;
   read_regexp (T := IPv4.t) [(text "0.0.0.1", 32)]
     (InsertAdapter ipm_b_open ipm_b_close) m1) = Ok close_last2 /\
  Permutation close_last2 open_last2 /\
  ordered close_last2 = true /\ ordered open_last2 = true /\
  existsb is_open (tl close_last2) = true /\ existsb is_open (tl open_last2) = true /\
  traverse close_last2 UnionKernel Recorder EmptyOutputAdapter [] =
    Ok [IPNode.IPNode (IPv4.IPv4 0) 31] /\
  traverse open_last2 UnionKernel Recorder EmptyOutputAdapter [] = Ok [].
Proof.
  cbv zeta. split; [vm_compute; reflexivity |].
  split.
  { apply perm_skip.
    apply (Permutation_cons_app
             [IPMarker.IPMarker (IPv4.IPv4 0x0a000000) ipm_b_open;
              IPMarker.IPMarker (IPv4.IPv4 0x0a000000) ipm_b_close] []).
    reflexivity. }
  split.
  { apply perm_skip.
    apply (Permutation_cons_app
             [IPMarker.IPMarker (IPv4.IPv4 0x0a000000) ipm_b_close;
              IPMarker.IPMarker (IPv4.IPv4 0x0a000000) ipm_b_open] []).
    cbn [app]. apply perm_swap. }
  do 9 (split; [vm_compute; reflexivity |]).
  split; [do 2 apply perm_skip; apply perm_swap |].
  repeat split; vm_compute; reflexivity.
Qed.

(** * Scenarios *)

Section Scenario1.

Variable sort : list (IPMarker.t IPv4.t) -> list (IPMarker.t IPv4.t).
Hypothesis sort_ok : sorts sort.

Local Ltac run_process :=
  unfold process;
  match goal with
  | |- context [read_regexp ?f ?a []] =>
    let r := eval vm_compute in (read_regexp f a []) in
    change (read_regexp f a []) with r; cbn [bind]
  end;
  match goal with
  | |- context [read_regexp ?f ?a ?v] =>
    let r := eval vm_compute in (read_regexp f a v) in
    change (read_regexp f a v) with r; cbn [bind]
  end;
  match goal with
  | |- context [sort ?ms] =>
    let Hc := fresh "Hc" in
    pose proof (sort_cases sort ms sort_ok) as Hc;
    vm_compute in Hc;
    repeat (destruct Hc as [Hc | Hc]; [rewrite <- Hc; vm_compute; reflexivity |]);
    contradiction Hc
  end.

(** C3, as amended. For A = {10.0.0.0/24} and B = {10.0.0.0/25}, whichever
    way the sort arranges markers of equal address: intersection prints
    10.0.0.0/25, union prints 10.0.0.0/24, and the difference prints the
    single line -10.0.0.128/25, the part of A outside B, with nothing under
    the label "+", which marks what B has and A lacks; with the two inputs
    exchanged the line is +10.0.0.128/25. *)
Theorem scenario1 :
  process sort [(text "10.0.0.0", 24)] [(text "10.0.0.0", 25)] IntersectionKernel []
    = Ok [text "10.0.0.0/25"] /\
  process sort [(text "10.0.0.0", 24)] [(text "10.0.0.0", 25)] UnionKernel []
    = Ok [text "10.0.0.0/24"] /\
  process sort [(text "10.0.0.0", 24)] [(text "10.0.0.0", 25)] DifferenceKernel []
    = Ok [text "-10.0.0.128/25"] /\
  process sort [(text "10.0.0.0", 25)] [(text "10.0.0.0", 24)] DifferenceKernel []
    = Ok [text "+10.0.0.128/25"].
Proof.
  split; [run_process |]. split; [run_process |]. split; run_process.
Qed.

End Scenario1.

Lemma scenario1_witness :
  sorts (insertion_sort (T := IPv4.t)) /\
  process (T := IPv4.t) insertion_sort [(text "10.0.0.0", 24)] [(text "10.0.0.0", 25)]
    DifferenceKernel [] = Ok [text "-10.0.0.128/25"].
Proof.
  split; [exact insertion_sort_IPv4 |].
  apply (scenario1 insertion_sort insertion_sort_IPv4).
Defined.

(** C3, counterexample. The difference of A = {10.0.0.0/24} and
    B = {10.0.0.0/25} does not print 10.0.0.128/25 under the label "+". *)
Lemma scenario1_difference_label :
  process (T := IPv4.t) insertion_sort [(text "10.0.0.0", 24)] [(text "10.0.0.0", 25)]
    DifferenceKernel [] <> Ok [text "+10.0.0.128/25"].
Proof. vm_compute. discriminate. Qed.

(** * Text *)

(** C5. For every address of either width whose fields hold values of
    their type, parsing the text [to_string] writes gives the address back;
    this covers the all-zero value, the all-ones value and the values with
    long runs of zero segments. *)
Theorem parse_to_string (a : IPv4.t) (b : IPv6.t) :
  IPv4.wf a -> IPv6.wf b ->
  IPv4.parse (IPv4.to_string a) = Ok a /\ IPv6.parse (IPv6.to_string b) = Ok b.
Proof.
  intros Ha Hb. split; [apply IPv4_round_trip, Ha | apply IPv6_round_trip, Hb].
Qed.

Lemma parse_to_string_witness :
  IPv4.wf (IPv4.IPv4 0xffffffff) /\ IPv6.wf (IPv6.IPv6 0x20010db800000000 0) /\
  IPv4.parse (IPv4.to_string (IPv4.IPv4 0xffffffff)) = Ok (IPv4.IPv4 0xffffffff) /\
  IPv6.parse (IPv6.to_string (IPv6.IPv6 0x20010db800000000 0)) =
    Ok (IPv6.IPv6 0x20010db800000000 0).
Proof.
  assert (H4 : IPv4.wf (IPv4.IPv4 0xffffffff)) by (unfold IPv4.wf; simpl; lia).
  assert (H6 : IPv6.wf (IPv6.IPv6 0x20010db800000000 0)) by (unfold IPv6.wf; simpl; lia).
  split; [exact H4 |]. split; [exact H6 |].
  apply (parse_to_string (IPv4.IPv4 0xffffffff) (IPv6.IPv6 0x20010db800000000 0) H4 H6).
Defined.

(** The texts of the all-zero value, of the all-ones value, and of values
    with zero segments at the front, at the back and in the middle. *)
Example to_string_examples :
  IPv6.to_string (IPv6.IPv6 0 0) = text "::" /\
  IPv6.to_string (IPv6.IPv6 0xffffffffffffffff 0xffffffffffffffff) =
    text "ffff:ffff:ffff:ffff:ffff:ffff:ffff:ffff" /\
  IPv6.to_string (IPv6.IPv6 0 1) = text "::1" /\
  IPv6.to_string (IPv6.IPv6 0x0001000000000000 0) = text "1::" /\
  IPv6.to_string (IPv6.IPv6 0x20010db800000000 1) = text "2001:db8::1" /\
  IPv6.to_string (IPv6.IPv6 0x20010db800000001 0x0001000100010001) =
    text "2001:db8:0:1:1:1:1:1" /\
  IPv6.to_string (IPv6.IPv6 0x0001000000000001 0x0000000000010001) =
    text "1::1:0:0:1:1" /\
  IPv6.to_string (IPv6.IPv6 0x0001000000000001 0x0000000000000001) =
    text "1:0:0:1::1".
Proof. repeat split; vm_compute; reflexivity. Qed.

(** C6. The text of a 128-bit address is determined by the 16-bit groups
    of its number and by the first among their longest runs of zero groups:
    [len] zero groups starting at position [s], such that every run of zero
    groups is at most as long, and starts no earlier when it is as long.
    When the run has two groups or more it is replaced by ["::"], with the
    texts of the groups before and after it separated by colons; otherwise,
    in particular when it has one group, all eight groups are written. Each
    group is written with one to four lower-case hexadecimal digits whose
    value is the group, without a leading zero, the zero group as the single
    digit 0. *)
Theorem canonical_compression (a : IPv6.t) :
  IPv6.wf a ->
  exists (s len : nat) (texts : list (list ascii)),
    zero_run (groups (IPv6_to_Z a)) s len /\
    (forall s' len', zero_run (groups (IPv6_to_Z a)) s' len' ->
       (len' <= len)%nat /\ (len' = len -> (s <= s')%nat)) /\
    Forall2 (fun x t =>
               (1 <= length t <= 4)%nat /\ forallb is_lower_hex t = true /\
               no_leading_zero t /\ digits_value lower_hex_val 16 t 0 = x /\
               (x = 0 -> t = ["0"%char]))
            (groups (IPv6_to_Z a)) texts /\
    IPv6.to_string a =
      (if (2 <=? len)%nat
       then join_colon (firstn s texts) ++ [":"; ":"]%char ++
            join_colon (skipn (s + len) texts)
       else join_colon texts).
Proof.
  intros Ha. unfold IPv6.to_string.
  pose proof (collapse_compressed (IPv6.segmentize a) (segmentize_range a)) as C.
  rewrite (segmentize_groups a Ha) in C at 1.
  destruct C as (s & len & texts & Hrun & Hmax & Htexts & Etext).
  exists s, len, texts. repeat (split; [assumption |]). exact Etext.
Qed.

Lemma canonical_compression_witness :
  IPv6.wf (IPv6.IPv6 0x20010db800000000 0x0000000100000000) /\
  IPv6.to_string (IPv6.IPv6 0x20010db800000000 0x0000000100000000) =
    text "2001:db8::1:0:0" /\
  exists (s len : nat) (texts : list (list ascii)),
    zero_run (groups (IPv6_to_Z (IPv6.IPv6 0x20010db800000000 0x0000000100000000))) s len /\
    (forall s' len',
       zero_run (groups (IPv6_to_Z (IPv6.IPv6 0x20010db800000000 0x0000000100000000)))
         s' len' ->
       (len' <= len)%nat /\ (len' = len -> (s <= s')%nat)) /\
    Forall2 (fun x t =>
               (1 <= length t <= 4)%nat /\ forallb is_lower_hex t = true /\
               no_leading_zero t /\ digits_value lower_hex_val 16 t 0 = x /\
               (x = 0 -> t = ["0"%char]))
            (groups (IPv6_to_Z (IPv6.IPv6 0x20010db800000000 0x0000000100000000))) texts /\
    IPv6.to_string (IPv6.IPv6 0x20010db800000000 0x0000000100000000) =
      (if (2 <=? len)%nat
       then join_colon (firstn s texts) ++ [":"; ":"]%char ++
            join_colon (skipn (s + len) texts)
       else join_colon texts).
Proof.
  assert (H6 : IPv6.wf (IPv6.IPv6 0x20010db800000000 0x0000000100000000))
    by (unfold IPv6.wf; simpl; lia).
  split; [exact H6 |]. split; [vm_compute; reflexivity |].
  exact (canonical_compression (IPv6.IPv6 0x20010db800000000 0x0000000100000000) H6).
Defined.

(** C8. Parsing the 32-bit text 1.2.3.4.5 and the 128-bit text
    2001::db8::1 throws the exception of a malformed address, and reading
    an input that holds either of them stops with that exception. *)
Theorem malformed_addresses :
  (exists e, IPv4.parse (text "1.2.3.4.5") = Throw e /\ MalformedAddress e) /\
  (exists e, IPv6.parse (text "2001::db8::1") = Throw e /\ MalformedAddress e) /\
  (exists e, read_regexp (T := IPv4.t) [(text "1.2.3.4.5", 24)]
               (InsertAdapter ipm_a_open ipm_a_close) [] = Throw e /\
             MalformedAddress e) /\
  (exists e, read_regexp (T := IPv6.t) [(text "2001::db8::1", 64)]
               (InsertAdapter ipm_a_open ipm_a_close) [] = Throw e /\
             MalformedAddress e).
Proof.
  repeat split; eexists; (split; [vm_compute; reflexivity | exact I]).
Qed.

(** * Further properties of the address classes *)

Lemma shl_one (w k : Z) : 0 <= k < w -> shl w 1 k = Ok (2 ^ k).
Proof.
  intros Hk. unfold shl, wrap.
  replace ((0 <=? k) && (k <? w)) with true
    by (symmetry; apply andb_true_intro2; [apply Z.leb_le | apply Z.ltb_lt]; lia).
  f_equal. rewrite Z.shiftl_1_l. apply Z.mod_small. split; [apply Z.lt_le_incl, pow2_pos; lia |].
  apply pow2_lt; lia.
Qed.

Lemma shl_out_of_range (w x k : Z) : k < 0 \/ w <= k -> shl w x k = Undefined.
Proof.
  intros Hk. unfold shl.
  replace ((0 <=? k) && (k <? w)) with false; [reflexivity |].
  symmetry. apply andb_false_iff. rewrite Z.leb_gt, Z.ltb_ge. lia.
Qed.

Lemma prefix_check (p w : Z) :
  ((p <? 0) || (p >? w)) = false <-> 0 <= p <= w.
Proof. rewrite orb_false_iff, Z.ltb_ge, Z.gtb_ltb, Z.ltb_ge. lia. Qed.

Lemma prefix_check_fails (p w : Z) :
  p < 0 \/ w < p -> ((p <? 0) || (p >? w)) = true.
Proof. rewrite orb_true_iff, Z.ltb_lt, Z.gtb_ltb, Z.ltb_lt. lia. Qed.

(** Adding and then subtracting the size of a block, both modulo the size
    of the address space. *)
Lemma mod_add_sub (x d n : Z) : 0 <= x < n -> ((x + d) mod n - d) mod n = x.
Proof.
  intros Hx. rewrite Zminus_mod_idemp_l. replace (x + d - d) with x by lia.
  apply Z.mod_small, Hx.
Qed.

Lemma mod_sub_add (x d n : Z) : 0 <= x < n -> ((x - d) mod n + d) mod n = x.
Proof.
  intros Hx. rewrite Zplus_mod_idemp_l. replace (x - d + d) with x by lia.
  apply Z.mod_small, Hx.
Qed.

Section IPv4Steps.

Import IPv4.

Lemma IPv4_next_prefix (a : t) (p : Z) :
  1 <= p <= 32 -> next a p = Ok (IPv4 ((value a + 2 ^ (32 - p)) mod 2 ^ 32)).
Proof.
  intros Hp. unfold next. change bit_length with 32.
  rewrite (proj2 (prefix_check p 32)) by lia. rewrite shl_one by lia. reflexivity.
Qed.

Lemma IPv4_previous_prefix (a : t) (p : Z) :
  1 <= p <= 32 -> previous a p = Ok (IPv4 ((value a - 2 ^ (32 - p)) mod 2 ^ 32)).
Proof.
  intros Hp. unfold previous. change bit_length with 32.
  rewrite (proj2 (prefix_check p 32)) by lia. rewrite shl_one by lia. reflexivity.
Qed.

End IPv4Steps.

Section IPv6Steps.

Import IPv6.

Lemma IPv6_join_mod (n h d : Z) :
  0 <= h < 2 ^ 64 ->
  ((n + d) mod 2 ^ 64) * 2 ^ 64 + h = (n * 2 ^ 64 + h + d * 2 ^ 64) mod 2 ^ 128.
Proof.
  intros Hh. apply Z.mod_unique with (q := (n + d) / 2 ^ 64).
  - left. pose proof (Z.mod_pos_bound (n + d) (2 ^ 64) ltac:(lia)).
    change (2 ^ 128) with (2 ^ 64 * 2 ^ 64). nia.
  - pose proof (Z.div_mod (n + d) (2 ^ 64) ltac:(lia)).
    change (2 ^ 128) with (2 ^ 64 * 2 ^ 64). nia.
Qed.

Lemma IPv6_next_prefix (a : t) (p : Z) :
  wf a -> 1 <= p <= 128 ->
  exists n, next a p = Ok n /\ wf n /\
    IPv6_to_Z n = (IPv6_to_Z a + 2 ^ (128 - p)) mod 2 ^ 128.
Proof.
  destruct a as [n h]. unfold wf, next, IPv6_to_Z. cbn [network host].
  intros [Hn Hh] Hp. change bit_length with 128.
  rewrite (proj2 (prefix_check p 128)) by lia.
  destruct (Z.leb_spec p 64) as [Hlow | Hhigh].
  - rewrite shl_one by lia. cbn [bind]. eexists. split; [reflexivity |].
    cbn [network host]. split; [split; [apply (wrap_range 64); lia | exact Hh] |].
    unfold wrap. rewrite IPv6_join_mod by exact Hh. f_equal.
    replace (128 - p) with ((64 - p) + 64) by lia. rewrite pow2_split by lia. lia.
  - rewrite shl_one by lia. cbn [bind]. eexists. split; [reflexivity |].
    cbn [network host]. split; [split; apply (wrap_range 64); lia |].
    unfold wrap.
    set (d := 2 ^ (128 - p)).
    assert (Hd : 0 < d < 2 ^ 64) by (split; [apply pow2_pos | apply pow2_lt]; lia).
    change (2 ^ 128) with (2 ^ 64 * 2 ^ 64).
    destruct (Z.lt_ge_cases (h + d) (2 ^ 64)) as [Hfit | Hcarry].
    + rewrite (Z.mod_small (h + d)) by lia.
      replace (h + d <? h) with false by (symmetry; apply Z.ltb_ge; lia).
      rewrite Z.add_0_r, (Z.mod_small n) by lia.
      rewrite Z.mod_small by nia. lia.
    + assert (E : (h + d) mod 2 ^ 64 = h + d - 2 ^ 64).
      { symmetry. apply Z.mod_unique with (q := 1); lia. }
      rewrite E.
      replace (h + d - 2 ^ 64 <? h) with true by (symmetry; apply Z.ltb_lt; lia).
      destruct (Z.eq_dec n (2 ^ 64 - 1)) as [-> | Hn'].
      * replace ((2 ^ 64 - 1 + 1) mod 2 ^ 64) with 0 by reflexivity.
        apply Z.mod_unique with (q := 1); lia.
      * rewrite (Z.mod_small (n + 1)) by lia. rewrite Z.mod_small by nia. lia.
Qed.

Lemma IPv6_previous_prefix (a : t) (p : Z) :
  wf a -> 1 <= p <= 128 ->
  exists n, previous a p = Ok n /\ wf n /\
    IPv6_to_Z n = (IPv6_to_Z a - 2 ^ (128 - p)) mod 2 ^ 128.
Proof.
  destruct a as [n h]. unfold wf, previous, IPv6_to_Z. cbn [network host].
  intros [Hn Hh] Hp. change bit_length with 128.
  rewrite (proj2 (prefix_check p 128)) by lia.
  destruct (Z.leb_spec p 64) as [Hlow | Hhigh].
  - rewrite shl_one by lia. cbn [bind]. eexists. split; [reflexivity |].
    cbn [network host]. split; [split; [apply (wrap_range 64); lia | exact Hh] |].
    unfold wrap. replace (n - 2 ^ (64 - p)) with (n + - 2 ^ (64 - p)) by lia.
    rewrite IPv6_join_mod by exact Hh. f_equal.
    replace (128 - p) with ((64 - p) + 64) by lia. rewrite pow2_split by lia. lia.
  - rewrite shl_one by lia. cbn [bind]. eexists. split; [reflexivity |].
    cbn [network host]. split; [split; apply (wrap_range 64); lia |].
    unfold wrap.
    set (d := 2 ^ (128 - p)).
    assert (Hd : 0 < d < 2 ^ 64) by (split; [apply pow2_pos | apply pow2_lt]; lia).
    change (2 ^ 128) with (2 ^ 64 * 2 ^ 64).
    destruct (Z.lt_ge_cases h d) as [Hborrow | Hfit].
    + assert (E : (h - d) mod 2 ^ 64 = h - d + 2 ^ 64).
      { symmetry. apply Z.mod_unique with (q := -1); lia. }
      rewrite E.
      replace (h - d + 2 ^ 64 >? h) with true
        by (symmetry; rewrite Z.gtb_ltb; apply Z.ltb_lt; lia).
      destruct (Z.eq_dec n 0) as [-> | Hn'].
      * replace ((0 - 1) mod 2 ^ 64) with (2 ^ 64 - 1) by reflexivity.
        apply Z.mod_unique with (q := -1); lia.
      * rewrite (Z.mod_small (n - 1)) by lia. rewrite Z.mod_small by nia. lia.
    + rewrite (Z.mod_small (h - d)) by lia.
      replace (h - d >? h) with false
        by (symmetry; rewrite Z.gtb_ltb; apply Z.ltb_ge; lia).
      rewrite Z.sub_0_r, (Z.mod_small n) by lia.
      rewrite Z.mod_small by nia. lia.
Qed.

End IPv6Steps.

(** X4. Stepping by one block. For a prefix [p] from 1 to the width [W],
    [next] adds the size [2 ^ (W - p)] of a block of that prefix and
    [previous] subtracts it, both modulo [2 ^ W] (stepping beyond either end
    of the address space wraps around), and each undoes the other. *)
Theorem next_previous_prefix (a : IPv4.t) (p : Z) (b : IPv6.t) (q : Z) :
  IPv4.wf a -> 1 <= p <= 32 -> IPv6.wf b -> 1 <= q <= 128 ->
  (exists n m,
     IPv4.next a p = Ok n /\ IPv4.previous a p = Ok m /\ IPv4.wf n /\ IPv4.wf m /\
     IPv4_to_Z n = (IPv4_to_Z a + 2 ^ (32 - p)) mod 2 ^ 32 /\
     IPv4_to_Z m = (IPv4_to_Z a - 2 ^ (32 - p)) mod 2 ^ 32 /\
     IPv4.previous n p = Ok a /\ IPv4.next m p = Ok a) /\
  (exists n m,
     IPv6.next b q = Ok n /\ IPv6.previous b q = Ok m /\ IPv6.wf n /\ IPv6.wf m /\
     IPv6_to_Z n = (IPv6_to_Z b + 2 ^ (128 - q)) mod 2 ^ 128 /\
     IPv6_to_Z m = (IPv6_to_Z b - 2 ^ (128 - q)) mod 2 ^ 128 /\
     IPv6.previous n q = Ok b /\ IPv6.next m q = Ok b).
Proof.
  intros Ha Hp Hb Hq. split.
  - exists (IPv4.IPv4 ((IPv4.value a + 2 ^ (32 - p)) mod 2 ^ 32)),
           (IPv4.IPv4 ((IPv4.value a - 2 ^ (32 - p)) mod 2 ^ 32)).
    rewrite !IPv4_next_prefix, !IPv4_previous_prefix by exact Hp.
    unfold IPv4.wf, IPv4_to_Z in *. cbn [IPv4.value].
    rewrite mod_add_sub, mod_sub_add by exact Ha. destruct a as [v].
    repeat split; try reflexivity; apply Z.mod_pos_bound; lia.
  - destruct (IPv6_next_prefix b q Hb Hq) as (n & En & Hn & Vn).
    destruct (IPv6_previous_prefix b q Hb Hq) as (m & Em & Hm & Vm).
    exists n, m. repeat (split; [assumption |]).
    pose proof (IPv6_to_Z_range b Hb) as Rb.
    split.
    + destruct (IPv6_previous_prefix n q Hn Hq) as (x & Ex & Hx & Vx).
      rewrite Ex. f_equal. apply IPv6_to_Z_inj; [exact Hx | exact Hb |].
      rewrite Vx, Vn. apply mod_add_sub, Rb.
    + destruct (IPv6_next_prefix m q Hm Hq) as (x & Ex & Hx & Vx).
      rewrite Ex. f_equal. apply IPv6_to_Z_inj; [exact Hx | exact Hb |].
      rewrite Vx, Vm. apply mod_sub_add, Rb.
Qed.

Lemma next_previous_prefix_witness :
  IPv4.wf (IPv4.IPv4 0xffffff00) /\ 1 <= 24 <= 32 /\
  IPv6.wf (IPv6.IPv6 0x20010db800000000 0) /\ 1 <= 48 <= 128 /\
  exists n m,
    IPv4.next (IPv4.IPv4 0xffffff00) 24 = Ok n /\
    IPv4.previous (IPv4.IPv4 0xffffff00) 24 = Ok m /\ IPv4.wf n /\ IPv4.wf m /\
    IPv4_to_Z n = (IPv4_to_Z (IPv4.IPv4 0xffffff00) + 2 ^ (32 - 24)) mod 2 ^ 32 /\
    IPv4_to_Z m = (IPv4_to_Z (IPv4.IPv4 0xffffff00) - 2 ^ (32 - 24)) mod 2 ^ 32 /\
    IPv4.previous n 24 = Ok (IPv4.IPv4 0xffffff00) /\
    IPv4.next m 24 = Ok (IPv4.IPv4 0xffffff00).
Proof.
  assert (H4 : IPv4.wf (IPv4.IPv4 0xffffff00)) by (unfold IPv4.wf; simpl; lia).
  assert (H6 : IPv6.wf (IPv6.IPv6 0x20010db800000000 0)) by (unfold IPv6.wf; simpl; lia).
  split; [exact H4 |]. split; [lia |]. split; [exact H6 |]. split; [lia |].
  apply (next_previous_prefix (IPv4.IPv4 0xffffff00) 24
           (IPv6.IPv6 0x20010db800000000 0) 48 H4 ltac:(lia) H6 ltac:(lia)).
Defined.

(** X5. Prefixes at and beyond the ends of [[0, W]]. For a prefix
    outside of [[0, W]], [next], [previous] and [subnet_mask] throw the
    exception "Invalid prefix size"; [network_zeros] and [network_ones]
    make no such test: the shift they compute has a count that is negative
    or not below the width of the operand, which is undefined, and so is
    reading a line that carries such a prefix, whatever the markers asked
    for and read before. The prefix 0 passes the test of [next] and
    [previous], which then shift by the full width of the operand:
    undefined as well. *)
Theorem prefix_out_of_range (a : IPv4.t) (p : Z) (b : IPv6.t) (q : Z) :
  p < 0 \/ 32 < p -> q < 0 \/ 128 < q ->
  IPv4.next a 0 = Undefined /\ IPv4.previous a 0 = Undefined /\
  IPv6.next b 0 = Undefined /\ IPv6.previous b 0 = Undefined /\
  IPv4.next a p = Throw Invalid_prefix_size /\
  IPv4.previous a p = Throw Invalid_prefix_size /\
  IPv4.subnet_mask p = Throw Invalid_prefix_size /\
  IPv6.next b q = Throw Invalid_prefix_size /\
  IPv6.previous b q = Throw Invalid_prefix_size /\
  IPv4.network_zeros a p = Undefined /\ IPv4.network_ones a p = Undefined /\
  IPv6.network_zeros b q = Undefined /\ IPv6.network_ones b q = Undefined /\
  (forall txt start_ stop_ vector_, IPv4.parse txt = Ok a ->
     read_regexp (T := IPv4.t) [(txt, p)] (InsertAdapter start_ stop_) vector_ =
     Undefined) /\
  (forall txt start_ stop_ vector_, IPv6.parse txt = Ok b ->
     read_regexp (T := IPv6.t) [(txt, q)] (InsertAdapter start_ stop_) vector_ =
     Undefined).
Proof.
  intros Hp Hq.
  assert (Z4 : IPv4.network_zeros a p = Undefined).
  { unfold IPv4.network_zeros.
    replace (p =? 0) with false by (symmetry; apply Z.eqb_neq; lia).
    rewrite shl_out_of_range by lia. reflexivity. }
  assert (O4 : IPv4.network_ones a p = Undefined).
  { unfold IPv4.network_ones.
    replace (p =? 0) with false by (symmetry; apply Z.eqb_neq; lia).
    rewrite shl_out_of_range by lia. reflexivity. }
  assert (Z6 : IPv6.network_zeros b q = Undefined).
  { unfold IPv6.network_zeros.
    replace (q =? 0) with false by (symmetry; apply Z.eqb_neq; lia).
    destruct (Z.gtb_spec q 64); rewrite shl_out_of_range by lia; reflexivity. }
  assert (O6 : IPv6.network_ones b q = Undefined).
  { unfold IPv6.network_ones.
    replace (q =? 0) with false by (symmetry; apply Z.eqb_neq; lia).
    destruct (Z.gtb_spec q 64); rewrite shl_out_of_range by lia; reflexivity. }
  do 4 (split; [reflexivity |]).
  unfold IPv4.next, IPv4.previous, IPv4.subnet_mask, IPv6.next, IPv6.previous.
  change IPv4.bit_length with 32. change IPv6.bit_length with 128.
  rewrite !(prefix_check_fails p 32), !(prefix_check_fails q 128) by lia.
  repeat (split; [reflexivity || assumption |]).
  split; intros txt start_ stop_ vector_ E; unfold read_regexp;
    cbn [for_each fst snd parse IPv4_Address IPv6_Address]; rewrite E;
    cbn [bind callback InsertAdapter IPNode.ip IPNode.prefix network_zeros
         IPv4_Address IPv6_Address].
  - rewrite Z4. reflexivity.
  - rewrite Z6. reflexivity.
Qed.

Lemma prefix_out_of_range_witness :
  (33 < 0 \/ 32 < 33) /\ (129 < 0 \/ 128 < 129) /\
  IPv4.network_zeros (IPv4.IPv4 0x0a000000) 33 = Undefined /\
  IPv6.next (IPv6.IPv6 0 1) 129 = Throw Invalid_prefix_size.
Proof.
  split; [right; lia |]. split; [right; lia |].
  pose proof (prefix_out_of_range (IPv4.IPv4 0x0a000000) 33 (IPv6.IPv6 0 1) 129
                ltac:(right; lia) ltac:(right; lia))
    as (_ & _ & _ & _ & _ & _ & _ & H1 & _ & H2 & _).
  split; [exact H2 | exact H1].
Defined.

(** X6. The six comparison operators of the 128-bit class, which compare
    the two halves one after the other, agree with the order of the
    addresses as 128-bit numbers. *)
Theorem IPv6_comparison_operators (a b : IPv6.t) :
  IPv6.wf a -> IPv6.wf b ->
  IPv6.lt a b = (IPv6_to_Z a <? IPv6_to_Z b) /\
  IPv6.gt a b = (IPv6_to_Z b <? IPv6_to_Z a) /\
  IPv6.le a b = (IPv6_to_Z a <=? IPv6_to_Z b) /\
  IPv6.ge a b = (IPv6_to_Z b <=? IPv6_to_Z a) /\
  IPv6.eq a b = (IPv6_to_Z a =? IPv6_to_Z b) /\
  IPv6.ne a b = negb (IPv6_to_Z a =? IPv6_to_Z b).
Proof.
  intros Ha Hb. unfold IPv6.le, IPv6.ge, IPv6.ne.
  rewrite (IPv6_lt_eq a b Ha Hb), (IPv6_gt_eq a b Ha Hb), (IPv6_eq_eq a b Ha Hb).
  rewrite !Z.leb_antisym. repeat split.
Qed.

Lemma IPv6_comparison_operators_witness :
  IPv6.wf (IPv6.IPv6 1 0) /\ IPv6.wf (IPv6.IPv6 0 0xffffffffffffffff) /\
  IPv6.lt (IPv6.IPv6 1 0) (IPv6.IPv6 0 0xffffffffffffffff) =
    (IPv6_to_Z (IPv6.IPv6 1 0) <? IPv6_to_Z (IPv6.IPv6 0 0xffffffffffffffff)).
Proof.
  assert (H1 : IPv6.wf (IPv6.IPv6 1 0)) by (unfold IPv6.wf; simpl; lia).
  assert (H2 : IPv6.wf (IPv6.IPv6 0 0xffffffffffffffff)) by (unfold IPv6.wf; simpl; lia).
  split; [exact H1 |]. split; [exact H2 |].
  apply (IPv6_comparison_operators (IPv6.IPv6 1 0) (IPv6.IPv6 0 0xffffffffffffffff) H1 H2).
Defined.

(** * Blocks *)

Section BlockOfPrefix.

Context {T : Type} `{AddressLaws T}.

Lemma same_block (x y k : Z) :
  0 <= k -> (x / 2 ^ k * 2 ^ k <= y <= x / 2 ^ k * 2 ^ k + 2 ^ k - 1 <->
             y / 2 ^ k * 2 ^ k = x / 2 ^ k * 2 ^ k).
Proof.
  intros Hk. pose proof (pow2_pos k Hk) as HP.
  pose proof (Z.div_mod y (2 ^ k) ltac:(lia)) as Hy.
  pose proof (Z.mod_pos_bound y (2 ^ k) HP) as Hr.
  split.
  - intros Hin. f_equal. symmetry.
    apply Z.div_unique with (r := y - x / 2 ^ k * 2 ^ k); lia.
  - intros E. lia.
Qed.

(** X3. The block of a prefix. For a prefix [p] in [[0, W]],
    [network_zeros] and [network_ones] return the first and the last of
    the [2 ^ (W - p)] addresses that share their first [p] bits with the
    given one: the address lies between them, the first one is aligned, each
    of them is left unchanged by its own operation and sent to the other end
    by the other one, and an address lies between them exactly when
    [network_zeros] sends it to the same first address. *)
Theorem floor_ceiling_block (a : T) (p : Z) :
  wf a -> 0 <= p <= bit_length ->
  exists z o,
    network_zeros a p = Ok z /\ network_ones a p = Ok o /\ wf z /\ wf o /\
    to_Z z <= to_Z a <= to_Z o /\
    to_Z o = to_Z z + 2 ^ (bit_length - p) - 1 /\
    to_Z z mod 2 ^ (bit_length - p) = 0 /\
    network_zeros z p = Ok z /\ network_ones z p = Ok o /\
    network_zeros o p = Ok z /\ network_ones o p = Ok o /\
    forall b, wf b -> (to_Z z <= to_Z b <= to_Z o <-> network_zeros b p = Ok z).
Proof.
  intros Ha Hp.
  destruct (network_zeros_spec a p Ha Hp) as (z & Ez & Hz & Vz).
  destruct (network_ones_spec a p Ha Hp) as (o & Eo & Ho & Vo).
  set (k := bit_length - p) in *. assert (Hk : 0 <= k) by (unfold k; lia).
  pose proof (pow2_pos k Hk) as HP.
  pose proof (Z.div_mod (to_Z a) (2 ^ k) ltac:(lia)) as Hdm.
  pose proof (Z.mod_pos_bound (to_Z a) (2 ^ k) HP) as Hr.
  assert (Hmem : forall b, wf b ->
            (to_Z z <= to_Z b <= to_Z o <-> network_zeros b p = Ok z)).
  { intros b Hb. destruct (network_zeros_spec b p Hb Hp) as (zb & Ezb & Hzb & Vzb).
    fold k in Vzb. rewrite Ezb, Vz. replace (to_Z o) with (to_Z a / 2 ^ k * 2 ^ k + 2 ^ k - 1) by lia.
    rewrite same_block by exact Hk. rewrite <- Vzb, <- Vz. split.
    - intros E. f_equal. apply to_Z_inj; assumption.
    - intros E. injection E as ->. reflexivity. }
  assert (Hones : forall b, wf b -> to_Z z <= to_Z b <= to_Z o -> network_ones b p = Ok o).
  { intros b Hb Hin. destruct (network_ones_spec b p Hb Hp) as (ob & Eob & Hob & Vob).
    fold k in Vob. rewrite Eob. f_equal. apply to_Z_inj; [exact Hob | exact Ho |].
    rewrite Vob, Vo. do 2 f_equal.
    apply same_block; [exact Hk |]. lia. }
  exists z, o. repeat (split; [assumption || lia |]).
  split; [rewrite Vz; apply Z.mod_mul; lia |].
  split; [apply Hmem; [exact Hz | lia] |].
  split; [apply Hones; [exact Hz | lia] |].
  split; [apply Hmem; [exact Ho | lia] |].
  split; [apply Hones; [exact Ho | lia] |].
  exact Hmem.
Qed.

End BlockOfPrefix.

Lemma floor_ceiling_block_witness :
  wf (IPv4.IPv4 0x0a0102ff) /\ 0 <= 24 <= bit_length (T := IPv4.t) /\
  exists z o,
    network_zeros (IPv4.IPv4 0x0a0102ff) 24 = Ok z /\
    network_ones (IPv4.IPv4 0x0a0102ff) 24 = Ok o /\ wf z /\ wf o /\
    to_Z z <= to_Z (IPv4.IPv4 0x0a0102ff) <= to_Z o /\
    to_Z o = to_Z z + 2 ^ (bit_length (T := IPv4.t) - 24) - 1 /\
    to_Z z mod 2 ^ (bit_length (T := IPv4.t) - 24) = 0 /\
    network_zeros z 24 = Ok z /\ network_ones z 24 = Ok o /\
    network_zeros o 24 = Ok z /\ network_ones o 24 = Ok o /\
    forall b, wf b -> (to_Z z <= to_Z b <= to_Z o <-> network_zeros b 24 = Ok z).
Proof.
  assert (H1 : wf (IPv4.IPv4 0x0a0102ff)) by (cbn; unfold IPv4.wf; simpl; lia).
  assert (H2 : 0 <= 24 <= bit_length (T := IPv4.t)) by (cbn; unfold IPv4.bit_length; lia).
  split; [exact H1 |]. split; [exact H2 |].
  apply (floor_ceiling_block (IPv4.IPv4 0x0a0102ff) 24 H1 H2).
Defined.

(** * Masks and derived prefixes *)

(** X18. [subnet_mask] shifts the 24-bit constant [0xffffff], an [int].
    For a prefix from 24 to 32 the result has 24 one bits from bit
    [32 - p] upwards, which is the mask of [p] leading ones for prefix 24
    only: the mask of prefix 32 comes out as 0.255.255.255. For a prefix
    below 24 the shifted value does not fit the type, which is undefined. *)
Theorem subnet_mask_values (p : Z) :
  0 <= p <= 32 ->
  IPv4.subnet_mask p =
    (if p <? 24 then Undefined else Ok (IPv4.IPv4 (2 ^ (56 - p) - 2 ^ (32 - p)))) /\
  (IPv4.subnet_mask p = Ok (IPv4.IPv4 (2 ^ 32 - 2 ^ (32 - p))) <-> p = 24).
Proof.
  intros Hp. assert (E : exists n, (n <= 32)%nat /\ p = Z.of_nat n)
    by (exists (Z.to_nat p); lia).
  destruct E as (n & Hn & ->). clear Hp.
  do 33 (destruct n as [| n];
         [vm_compute; split; [reflexivity | split; [discriminate || reflexivity | discriminate || reflexivity]] |]).
  lia.
Qed.

Lemma subnet_mask_values_witness :
  0 <= 32 <= 32 /\ IPv4.subnet_mask 32 = Ok (IPv4.IPv4 0x00ffffff).
Proof.
  split; [lia |]. exact (proj1 (subnet_mask_values 32 ltac:(lia))).
Defined.

Lemma lor_disjoint (x y k : Z) :
  0 <= k -> 0 <= y < 2 ^ k -> Z.lor (x * 2 ^ k) y = x * 2 ^ k + y.
Proof.
  intros Hk Hy. rewrite <- Z.lxor_lor, <- Z.add_nocarry_lxor; try reflexivity.
  all: apply Z.bits_inj'; intros i Hi; rewrite Z.land_spec, Z.bits_0;
    destruct (Z.lt_ge_cases i k) as [Hlo | Hhi].
  all: try (rewrite Z.mul_pow2_bits_low by lia; reflexivity).
  all: destruct (Z.eq_dec y 0) as [-> | Hnz];
    [rewrite Z.bits_0; apply andb_false_r |].
  all: rewrite (Z.bits_above_log2 y i); [apply andb_false_r | lia |].
  all: apply Z.lt_le_trans with k; [apply Z.log2_lt_pow2; lia | lia].
Qed.

(** X19. The 6to4 prefix of a 32-bit address: its segments are 2002, the
    two halves of the address, and five zero segments, and it is the first
    address of its block of prefix 48. *)
Theorem prefix_6to4_block (a : IPv4.t) :
  IPv4.wf a ->
  IPv6.wf (IPv6.prefix_6to4 a) /\
  IPv6.segmentize (IPv6.prefix_6to4 a) =
    [0x2002; IPv4.value a / 2 ^ 16; IPv4.value a mod 2 ^ 16; 0; 0; 0; 0; 0] /\
  IPv6.network_zeros (IPv6.prefix_6to4 a) 48 = Ok (IPv6.prefix_6to4 a).
Proof.
  destruct a as [v]. unfold IPv4.wf, IPv6.prefix_6to4. cbn [IPv4.value]. intros Hv.
  assert (E : Z.lor 0x2002000000000000 (wrap 64 (Z.shiftl v 16)) =
              (0x2002 * 2 ^ 32 + v) * 2 ^ 16).
  { unfold wrap. rewrite Z.shiftl_mul_pow2 by lia.
    rewrite Z.mod_small by (change (2 ^ 64) with (2 ^ 48 * 2 ^ 16); lia).
    change 0x2002000000000000 with (0x2002 * 2 ^ 48).
    rewrite lor_disjoint by (change (2 ^ 48) with (2 ^ 32 * 2 ^ 16); lia).
    change (2 ^ 48) with (2 ^ 32 * 2 ^ 16). lia. }
  rewrite E. set (n := (0x2002 * 2 ^ 32 + v) * 2 ^ 16).
  assert (Hn : 0 <= n < 2 ^ 64).
  { unfold n. change (2 ^ 64) with (2 ^ 48 * 2 ^ 16). lia. }
  split; [unfold IPv6.wf; cbn [IPv6.network IPv6.host]; lia |].
  split.
  - unfold IPv6.segmentize. cbn [map app IPv6.network IPv6.host].
    change 0xffff with (Z.ones 16). rewrite !Z.land_ones, !Z.shiftr_div_pow2 by lia.
    change (48 - 0 * 16) with 48. change (48 - 1 * 16) with 32.
    change (48 - 2 * 16) with 16. change (48 - 3 * 16) with 0.
    pose proof (Z.div_mod v (2 ^ 16) ltac:(lia)) as Hdm.
    pose proof (Z.mod_pos_bound v (2 ^ 16) ltac:(lia)) as Hr.
    assert (Hq : 0 <= v / 2 ^ 16 < 2 ^ 16).
    { split; [apply Z.div_pos; lia |]. apply Z.div_lt_upper_bound; lia. }
    assert (E48 : n / 2 ^ 48 = 0x2002).
    { symmetry. apply Z.div_unique with (r := v * 2 ^ 16);
        [left | unfold n]; change (2 ^ 48) with (2 ^ 32 * 2 ^ 16); lia. }
    assert (E32 : n / 2 ^ 32 = 0x2002 * 2 ^ 16 + v / 2 ^ 16).
    { symmetry. apply Z.div_unique with (r := (v mod 2 ^ 16) * 2 ^ 16);
        [left | unfold n]; change (2 ^ 32) with (2 ^ 16 * 2 ^ 16); nia. }
    assert (E16 : n / 2 ^ 16 = 0x2002 * 2 ^ 32 + v).
    { unfold n. apply Z.div_mul. lia. }
    assert (E0 : n mod 2 ^ 16 = 0) by (unfold n; apply Z.mod_mul; lia).
    rewrite E48, E32, E16. change (2 ^ 0) with 1. rewrite Z.div_1_r, E0.
    assert (M32 : (0x2002 * 2 ^ 16 + v / 2 ^ 16) mod 2 ^ 16 = v / 2 ^ 16).
    { rewrite Z.add_comm, Z.mod_add by lia. apply Z.mod_small, Hq. }
    assert (M16 : (0x2002 * 2 ^ 32 + v) mod 2 ^ 16 = v mod 2 ^ 16).
    { change (2 ^ 32) with (2 ^ 16 * 2 ^ 16).
      rewrite Z.add_comm, Z.mul_assoc, Z.mod_add by lia. reflexivity. }
    rewrite M32, M16. reflexivity.
  - unfold IPv6.network_zeros. change (48 =? 0) with false. change (48 >? 64) with false.
    cbv iota. change (64 - 48) with 16. cbn [IPv6.network IPv6.host].
    change 0xffffffffffffffff with (Z.ones 64). rewrite shl_ones by lia. cbn [bind].
    change (64 - 16) with 48. rewrite land_mask by (try lia; exact Hn).
    unfold n at 1. rewrite Z.div_mul by lia. reflexivity.
Qed.

Lemma prefix_6to4_block_witness :
  IPv4.wf (IPv4.IPv4 0xc0a80001) /\
  IPv6.segmentize (IPv6.prefix_6to4 (IPv4.IPv4 0xc0a80001)) =
    [0x2002; 0xc0a80001 / 2 ^ 16; 0xc0a80001 mod 2 ^ 16; 0; 0; 0; 0; 0].
Proof.
  assert (H4 : IPv4.wf (IPv4.IPv4 0xc0a80001)) by (unfold IPv4.wf; simpl; lia).
  split; [exact H4 |]. apply (prefix_6to4_block (IPv4.IPv4 0xc0a80001) H4).
Defined.

(** * The range decomposer, further *)

Lemma add_decomposition_witness :
  wf (IPv4.IPv4 1) /\ wf (IPv4.IPv4 6) /\ to_Z (IPv4.IPv4 1) <= to_Z (IPv4.IPv4 6) /\
  exists bs,
    (forall (O : Type) (cb : OutputAdapter IPv4.t O) (o : O),
       add (IPv4.IPv4 1) (IPv4.IPv4 6) cb o = for_each (callback cb) bs o) /\
    Forall aligned bs /\ ascending bs /\ non_overlapping bs /\ contiguous bs /\
    no_adjacent_mergeable bs /\
    union_is bs (to_Z (IPv4.IPv4 1))
      (if (to_Z (IPv4.IPv4 1) <? to_Z (IPv4.IPv4 6)) && Z.odd (to_Z (IPv4.IPv4 6))
       then to_Z (IPv4.IPv4 6) else to_Z (IPv4.IPv4 6) - 1).
Proof.
  assert (H1 : wf (IPv4.IPv4 1)) by (cbn; unfold IPv4.wf; simpl; lia).
  assert (H2 : wf (IPv4.IPv4 6)) by (cbn; unfold IPv4.wf; simpl; lia).
  assert (H3 : to_Z (IPv4.IPv4 1) <= to_Z (IPv4.IPv4 6)) by (cbn; unfold IPv4_to_Z; simpl; lia).
  split; [exact H1 |]. split; [exact H2 |]. split; [exact H3 |].
  apply (add_decomposition (IPv4.IPv4 1) (IPv4.IPv4 6) H1 H2 H3).
Defined.

Section AddBlock.

Context {T : Type} `{AddressLaws T}.

(** The blocks of the range of one block: the block itself. *)
Lemma add_one_block (a : T) (p : Z) :
  wf a -> 0 <= p < bit_length ->
  exists z o,
    network_zeros a p = Ok z /\ network_ones a p = Ok o /\
    forall (O : Type) (cb : OutputAdapter T O) (out : O),
      add z o cb out = callback cb (IPNode.IPNode z p) out.
Proof.
  intros Ha Hp.
  destruct (network_zeros_spec a p Ha ltac:(lia)) as (z & Ez & Hz & Vz).
  destruct (network_ones_spec a p Ha ltac:(lia)) as (o & Eo & Ho & Vo).
  exists z, o. split; [exact Ez |]. split; [exact Eo |].
  set (k := bit_length - p) in *.
  assert (Hk : 1 <= k) by (unfold k; lia).
  assert (HP : 2 <= 2 ^ k).
  { change 2 with (2 ^ 1) at 1. apply pow2_le. lia. }
  assert (Hmod : to_Z z mod 2 ^ k = 0) by (rewrite Vz; apply Z.mod_mul; lia).
  assert (Hlast : to_Z o = to_Z z + 2 ^ k - 1) by lia.
  destruct (add_returns z o Hz Ho) as (bs & b & Hc & Hend & Hadd).
  replace (to_Z z <? to_Z o) with true in Hend by (symmetry; apply Z.ltb_lt; lia).
  destruct bs as [| x bs]; [cbn [greedy_chain] in Hc; lia |].
  cbn [greedy_chain] in Hc.
  destruct Hc as (Hx & Vx & _ & Hq & [Hqmod Hqend] & Hmin & Hrest).
  assert (Eq : IPNode.prefix x = p).
  { destruct (Z.lt_trichotomy (IPNode.prefix x) p) as [Hlt | [E | Hgt]]; [| exact E |].
    - exfalso.
      assert (2 * 2 ^ k <= 2 ^ (bit_length - IPNode.prefix x)).
      { replace (2 * 2 ^ k) with (2 ^ (k + 1)) by (rewrite pow2_split by lia; lia).
        apply pow2_le. unfold k. lia. }
      lia.
    - exfalso. apply (Hmin p); [lia |]. split; [exact Hmod | fold k; lia]. }
  rewrite Eq in Hrest. fold k in Hrest.
  destruct bs as [| y bs].
  - intros O cb out. rewrite Hadd. cbn [for_each].
    replace x with (IPNode.IPNode z p).
    + apply bind_Ok_r.
    + destruct x as [xi xp]. cbn [IPNode.ip IPNode.prefix] in *. subst xp. f_equal.
      apply to_Z_inj; assumption || lia.
  - exfalso. cbn [greedy_chain] in Hrest. lia.
Qed.

(** X2. Decomposing the range of a block gives the block back. For a
    prefix [p] below the width, [add] called on the first and the last
    address of the block of [p] that holds a given address calls its
    callback exactly once, with the first address and [p]; with [p = 0]
    this is the whole address space as the single block of prefix 0. *)
Theorem add_block_round_trip (a : T) (p : Z) :
  wf a -> 0 <= p < bit_length ->
  exists z o,
    network_zeros a p = Ok z /\ network_ones a p = Ok o /\
    forall (O : Type) (cb : OutputAdapter T O) (out : O),
      add z o cb out = callback cb (IPNode.IPNode z p) out.
Proof. exact (add_one_block a p). Qed.

End AddBlock.

Lemma add_block_round_trip_witness :
  wf (IPv4.IPv4 0x0a0102ff) /\ 0 <= 24 < bit_length (T := IPv4.t) /\
  exists z o,
    network_zeros (IPv4.IPv4 0x0a0102ff) 24 = Ok z /\
    network_ones (IPv4.IPv4 0x0a0102ff) 24 = Ok o /\
    forall (O : Type) (cb : OutputAdapter IPv4.t O) (out : O),
      add z o cb out = callback cb (IPNode.IPNode z 24) out.
Proof.
  assert (H1 : wf (IPv4.IPv4 0x0a0102ff)) by (cbn; unfold IPv4.wf; simpl; lia).
  assert (H2 : 0 <= 24 < bit_length (T := IPv4.t)) by (cbn; unfold IPv4.bit_length; lia).
  split; [exact H1 |]. split; [exact H2 |].
  apply (add_block_round_trip (IPv4.IPv4 0x0a0102ff) 24 H1 H2).
Defined.

(** * Dotted-decimal notation: the texts [parse] accepts *)

Lemma code_inj (c c' : ascii) : code c = code c' -> c = c'.
Proof.
  unfold code. intros E. apply N2Z.inj in E.
  rewrite <- (ascii_N_embedding c), <- (ascii_N_embedding c'), E. reflexivity.
Qed.

Lemma dec_digit_is_digit (c : ascii) :
  is_dec_digit c = true -> is_digit_of_base 10 c.
Proof.
  unfold is_dec_digit. rewrite andb_true_iff, Z.geb_leb, !Z.leb_le.
  change (code "9") with 57. change (code "0") with 48. intros Hc.
  exists (code c - 48). split; [lia |]. apply code_inj.
  destruct (dec_digit_char (code c - 48) ltac:(lia)) as [_ E].
  change (code "0") with 48 in E. lia.
Qed.

Lemma dec_digits_are_digits (d : list ascii) :
  forallb is_dec_digit d = true -> Forall (is_digit_of_base 10) d.
Proof.
  intros Hd. apply Forall_forall. intros c Hc. apply dec_digit_is_digit.
  rewrite forallb_forall in Hd. apply Hd, Hc.
Qed.

Lemma dec_digits_value_ge (d : list ascii) (sofar : Z) :
  forallb is_dec_digit d = true -> 0 <= sofar ->
  sofar <= digits_value dec_val 10 d sofar.
Proof.
  intros Hd. apply digits_value_ge; [lia |].
  eapply Forall_impl; [| apply dec_digits_are_digits, Hd].
  intros c Hc. apply dec_digit_of_base in Hc. lia.
Qed.

Lemma octet_text_digits (d : list ascii) (v : Z) :
  octet_text d v ->
  exists c ds, d = c :: ds /\ Forall (is_digit_of_base 10) (c :: ds) /\
    digits_value dec_val 10 (c :: ds) 0 = v /\ 0 <= v < 256.
Proof.
  intros (Hne & Hd & Hv & Hlt). destruct d as [| c ds]; [contradiction |].
  exists c, ds. split; [reflexivity |]. split; [apply dec_digits_are_digits, Hd |].
  split; [exact Hv |]. pose proof (dec_digits_value_ge (c :: ds) 0 Hd ltac:(lia)). lia.
Qed.

(** Four decimal numbers below 256 separated by dots are read as the
    address with these octets. *)
Lemma IPv4_parse_quad (d3 d2 d1 d0 : list ascii) (o3 o2 o1 o0 : Z) :
  octet_text d3 o3 -> octet_text d2 o2 -> octet_text d1 o1 -> octet_text d0 o0 ->
  IPv4.parse (d3 ++ "."%char :: d2 ++ "."%char :: d1 ++ "."%char :: d0) =
  Ok (IPv4.IPv4 (((o3 * 256 + o2) * 256 + o1) * 256 + o0)).
Proof.
  intros T3 T2 T1 T0.
  destruct (octet_text_digits d3 o3 T3) as (c3 & e3 & -> & F3 & V3 & H3).
  destruct (octet_text_digits d2 o2 T2) as (c2 & e2 & -> & F2 & V2 & H2).
  destruct (octet_text_digits d1 o1 T1) as (c1 & e1 & -> & F1 & V1 & H1).
  destruct (octet_text_digits d0 o0 T0) as (c0 & e0 & -> & F0 & V0 & H0).
  set (text := (c3 :: e3) ++ "."%char :: (c2 :: e2) ++ "."%char ::
               (c1 :: e1) ++ "."%char :: c0 :: e0).
  assert (Hc3 : (code c3 =? code ".") = false).
  { apply Z.eqb_neq. inversion F3 as [| ? ? (d & Hd & ->) _].
    destruct (dec_digit_char d Hd) as [_ E].
    change (code ".") with 46. change (code "0") with 48 in E. lia. }
  unfold IPv4.parse. change text with (c3 :: e3 ++ "."%char :: (c2 :: e2) ++ "."%char ::
               (c1 :: e1) ++ "."%char :: c0 :: e0) at 1.
  cbv iota. rewrite Hc3.
  unfold text at 2.
  rewrite IPv4_parse_loop_digits by (try assumption; try lia; rewrite V3; unfold INT_MAX; lia).
  rewrite V3. cbn [app].
  rewrite IPv4_parse_loop_dot by (try lia; inversion F2; assumption).
  rewrite (lor_octet 0 o3) by (cbn; lia). change (0 * 256 + o3) with o3.
  change (c2 :: e2 ++ "."%char :: c1 :: e1 ++ "."%char :: c0 :: e0)
    with ((c2 :: e2) ++ "."%char :: (c1 :: e1) ++ "."%char :: c0 :: e0).
  rewrite IPv4_parse_loop_digits by (try assumption; try lia; rewrite V2; unfold INT_MAX; lia).
  rewrite V2. cbn [app].
  rewrite IPv4_parse_loop_dot by (try lia; inversion F1; assumption).
  rewrite (lor_octet o3 o2) by (cbn; lia).
  change (c1 :: e1 ++ "."%char :: c0 :: e0) with ((c1 :: e1) ++ "."%char :: c0 :: e0).
  rewrite IPv4_parse_loop_digits by (try assumption; try lia; rewrite V1; unfold INT_MAX; lia).
  rewrite V1. cbn [app].
  rewrite IPv4_parse_loop_dot by (try lia; inversion F0; assumption).
  rewrite (lor_octet (o3 * 256 + o2) o1) by (cbn; lia).
  rewrite <- (app_nil_r (c0 :: e0)).
  rewrite IPv4_parse_loop_digits by (try assumption; try lia; rewrite V0; unfold INT_MAX; lia).
  rewrite V0. cbn [IPv4.parse_loop bind].
  change (0 + 1 + 1 + 1 =? 3) with true. cbn [negb orb].
  replace (o0 >=? 256) with false by (symmetry; rewrite Z.geb_leb; apply Z.leb_gt; lia).
  rewrite (lor_octet ((o3 * 256 + o2) * 256 + o1) o0) by (cbn; lia).
  reflexivity.
Qed.

Lemma int_check_Ok (r x : Z) : int_check r = Ok x -> x = r /\ INT_MIN <= r <= INT_MAX.
Proof.
  unfold int_check.
  destruct ((INT_MIN <=? r) && (r <=? INT_MAX)) eqn:E; [| discriminate].
  apply andb_true_iff in E. rewrite !Z.leb_le in E. intros [= ->]. lia.
Qed.

Lemma int_check_in (r : Z) : INT_MIN <= r <= INT_MAX -> int_check r = Ok r.
Proof.
  intros Hr. unfold int_check.
  replace ((INT_MIN <=? r) && (r <=? INT_MAX)) with true; [reflexivity |].
  symmetry. apply andb_true_intro2; apply Z.leb_le; lia.
Qed.

Lemma bind_Ok {A B : Type} (r : result A) (k : A -> result B) (b : B) :
  bind r k = Ok b -> exists a, r = Ok a /\ k a = Ok b.
Proof. destruct r; cbn [bind]; try discriminate. intros E. eauto. Qed.

(** The loop of [parse] up to the next dot, or to the end of the text:
    the digits read are added to the octet, and the loop goes on after a dot
    only when the octet is below 256 and the dot is followed by a character
    that is not a dot. *)
Lemma IPv4_parse_loop_group (text s : list ascii) (value octet count : Z)
  (v' o' c' : Z) :
  0 <= octet -> IPv4.parse_loop text s value octet count = Ok (v', o', c') ->
  exists g rest,
    s = g ++ rest /\ forallb is_dec_digit g = true /\
    0 <= digits_value dec_val 10 g octet /\
    ((rest = [] /\ v' = value /\ o' = digits_value dec_val 10 g octet /\ c' = count) \/
     (exists c1 rest',
        rest = "."%char :: c1 :: rest' /\ c1 <> "."%char /\
        digits_value dec_val 10 g octet < 256 /\
        IPv4.parse_loop text (c1 :: rest')
          (Z.lor (wrap 32 (Z.shiftl value 8)) (digits_value dec_val 10 g octet))
          0 (count + 1) = Ok (v', o', c'))).
Proof.
  revert octet. induction s as [| c s IH]; intros octet Ho E.
  - exists [], []. cbn [IPv4.parse_loop] in E.
    split; [reflexivity |]. split; [reflexivity |]. split; [exact Ho |].
    injection E as Ev Eo Ec.
    left. split; [reflexivity |]. split; [symmetry; exact Ev |].
    split; symmetry; assumption.
  - cbn [IPv4.parse_loop] in E.
    destruct ((code c <=? code "9") && (code c >=? code "0")) eqn:Edig.
    + apply bind_Ok in E. destruct E as (octet' & Echk & E).
      apply int_check_Ok in Echk. destruct Echk as [-> _].
      assert (Hval : 0 <= code c - code "0").
      { apply andb_true_iff in Edig. rewrite Z.geb_leb, !Z.leb_le in Edig. lia. }
      assert (Ho' : 0 <= octet * 10 + (code c - code "0")) by lia.
      destruct (IH _ Ho' E) as (g & rest & -> & Hg & Hv & Hrest).
      exists (c :: g), rest. split; [reflexivity |].
      split; [cbn [forallb]; unfold is_dec_digit at 1; rewrite Edig; exact Hg |].
      exact (conj Hv Hrest).
    + exists [], (c :: s). split; [reflexivity |]. split; [reflexivity |].
      split; [exact Ho |]. right.
      destruct ((code c =? code ".") && (octet <? 256)) eqn:Edot; [| discriminate].
      apply andb_true_iff in Edot. destruct Edot as [Ec Elt].
      apply Z.eqb_eq, code_inj in Ec. subst c. apply Z.ltb_lt in Elt.
      destruct s as [| c1 rest']; [discriminate |].
      destruct (code c1 =? code ".") eqn:Ec1; [discriminate |].
      apply bind_Ok in E. destruct E as (count' & Echk & E).
      apply int_check_Ok in Echk. destruct Echk as [-> _].
      exists c1, rest'. split; [reflexivity |].
      split; [intros ->; rewrite Z.eqb_refl in Ec1; discriminate |].
      split; [exact Elt | exact E].
Qed.

(** The count of dots never goes down. *)
Lemma IPv4_parse_loop_count (text s : list ascii) (value octet count : Z)
  (v' o' c' : Z) :
  IPv4.parse_loop text s value octet count = Ok (v', o', c') -> count <= c'.
Proof.
  revert value octet count. induction s as [| c s IH]; intros value octet count E.
  - cbn [IPv4.parse_loop] in E. injection E as _ _ <-. lia.
  - cbn [IPv4.parse_loop] in E.
    destruct ((code c <=? code "9") && (code c >=? code "0")).
    + apply bind_Ok in E. destruct E as (octet' & _ & E). apply IH in E. exact E.
    + destruct ((code c =? code ".") && (octet <? 256)); [| discriminate].
      destruct s as [| c1 rest']; [discriminate |].
      destruct (code c1 =? code "."); [discriminate |].
      apply bind_Ok in E. destruct E as (count' & Echk & E).
      apply int_check_Ok in Echk. destruct Echk as [-> _].
      apply IH in E. lia.
Qed.

(** A group that starts with a character other than a dot has a digit. *)
Lemma group_not_empty (g rest r : list ascii) (c' : ascii) :
  c' :: r = g ++ rest -> c' <> "."%char ->
  (rest = [] \/ exists x y, rest = "."%char :: x :: y) -> g <> [].
Proof.
  intros E Hc Hrest ->. cbn [app] in E. subst rest.
  destruct Hrest as [Hnil | (x & y & Hdot)]; [discriminate |].
  injection Hdot as -> _. contradiction Hc. reflexivity.
Qed.

Lemma IPv4_parse_characterised (text : list ascii) (a : IPv4.t) :
  IPv4.parse text = Ok a <->
  exists d3 d2 d1 d0 o3 o2 o1 o0,
    text = d3 ++ "."%char :: d2 ++ "."%char :: d1 ++ "."%char :: d0 /\
    octet_text d3 o3 /\ octet_text d2 o2 /\ octet_text d1 o1 /\ octet_text d0 o0 /\
    a = IPv4.IPv4 (((o3 * 256 + o2) * 256 + o1) * 256 + o0).
Proof.
  split.
  - unfold IPv4.parse. destruct text as [| c0 t0] eqn:Etext; [discriminate |].
    rewrite <- Etext. destruct (code c0 =? code ".") eqn:Ec0; [discriminate |].
    assert (Hc0 : c0 <> "."%char) by (intros ->; rewrite Z.eqb_refl in Ec0; discriminate).
    intros E. apply bind_Ok in E. destruct E as ([[v o] c] & Eloop & E).
    destruct (negb (c =? 3) || (o >=? 256)) eqn:Echk; [discriminate |].
    assert (Ea : a = IPv4.IPv4 (Z.lor (wrap 32 (Z.shiftl v 8)) o)) by congruence.
    clear E. apply orb_false_iff in Echk. destruct Echk as [Ec Eo].
    apply negb_false_iff, Z.eqb_eq in Ec. subst c.
    rewrite Z.geb_leb in Eo. apply Z.leb_gt in Eo.
    (* first number *)
    pose proof (fun H => IPv4_parse_loop_group _ _ _ _ _ _ _ _ H Eloop) as G0.
    specialize (G0 ltac:(lia)). destruct G0
      as (d3 & r3 & E3 & D3 & V3 & [(-> & _ & _ & Er) | (c1 & t1 & -> & Hc1 & L3 & Eloop1)]);
      [exfalso; lia |].
    assert (N3 : d3 <> []).
    { eapply (group_not_empty d3 _ t0 c0); [rewrite <- Etext; exact E3 | exact Hc0 |].
      right. eauto. }
    (* second number *)
    pose proof (fun H => IPv4_parse_loop_group _ _ _ _ _ _ _ _ H Eloop1) as G1.
    specialize (G1 ltac:(lia)). destruct G1
      as (d2 & r2 & E2 & D2 & V2 & [(-> & _ & _ & Er) | (c2 & t2 & -> & Hc2 & L2 & Eloop2)]);
      [exfalso; lia |].
    assert (N2 : d2 <> []).
    { eapply (group_not_empty d2 _ t1 c1); [exact E2 | exact Hc1 |]. right. eauto. }
    (* third number *)
    pose proof (fun H => IPv4_parse_loop_group _ _ _ _ _ _ _ _ H Eloop2) as G2.
    specialize (G2 ltac:(lia)). destruct G2
      as (d1 & r1 & E1 & D1 & V1 & [(-> & _ & _ & Er) | (c3 & t3 & -> & Hc3 & L1 & Eloop3)]);
      [exfalso; lia |].
    assert (N1 : d1 <> []).
    { eapply (group_not_empty d1 _ t2 c2); [exact E1 | exact Hc2 |]. right. eauto. }
    (* fourth number *)
    pose proof (fun H => IPv4_parse_loop_group _ _ _ _ _ _ _ _ H Eloop3) as G3.
    specialize (G3 ltac:(lia)). destruct G3
      as (d0 & r0 & E0 & D0 & V0 & [(-> & Hv & Ho & _) | (c4 & t4 & -> & _ & _ & Eloop4)]);
      [| apply IPv4_parse_loop_count in Eloop4; lia].
    assert (N0 : d0 <> []).
    { eapply (group_not_empty d0 _ t3 c3); [exact E0 | exact Hc3 |]. left. reflexivity. }
    rewrite app_nil_r in E0.
    set (o3 := digits_value dec_val 10 d3 0) in *.
    set (o2 := digits_value dec_val 10 d2 0) in *.
    set (o1 := digits_value dec_val 10 d1 0) in *.
    set (o0 := digits_value dec_val 10 d0 0) in *.
    exists d3, d2, d1, d0, o3, o2, o1, o0.
    split; [rewrite E3, E2, E1, E0; reflexivity |].
    split; [unfold octet_text; repeat split; assumption || reflexivity |].
    split; [unfold octet_text; repeat split; assumption || reflexivity |].
    split; [unfold octet_text; repeat split; assumption || reflexivity |].
    split; [unfold octet_text; repeat split; assumption || reflexivity || lia |].
    rewrite Ea, Hv, Ho. f_equal.
    rewrite (lor_octet 0 o3) by (cbn; lia). change (0 * 256 + o3) with o3.
    rewrite (lor_octet o3 o2) by (cbn; lia).
    rewrite (lor_octet (o3 * 256 + o2) o1) by (cbn; lia).
    rewrite (lor_octet ((o3 * 256 + o2) * 256 + o1) o0) by (cbn; lia).
    reflexivity.
  - intros (d3 & d2 & d1 & d0 & o3 & o2 & o1 & o0 & -> & T3 & T2 & T1 & T0 & ->).
    apply IPv4_parse_quad; assumption.
Qed.

(** With no more than nine digits in a row no number overflows an [int]
    while it is read: the loop of [parse] runs to its end or throws. *)
Lemma IPv4_parse_loop_defined (text s : list ascii) :
  forall (value octet count : Z) (cur : nat),
    digit_runs_within 9 s cur = true -> (cur <= 9)%nat ->
    0 <= octet < 10 ^ Z.of_nat cur ->
    0 <= count -> count + Z.of_nat (length s) <= INT_MAX ->
    (exists st, IPv4.parse_loop text s value octet count = Ok st) \/
    IPv4.parse_loop text s value octet count = Throw (Invalid_IPv4_format text).
Proof.
  induction s as [| c rest IH]; intros value octet count cur Hruns Hcur Ho Hc Hlen.
  - left. eexists. reflexivity.
  - cbn [IPv4.parse_loop]. cbn [digit_runs_within] in Hruns. unfold is_dec_digit in Hruns.
    cbn [length] in Hlen. rewrite Nat2Z.inj_succ in Hlen.
    destruct ((code c <=? code "9") && (code c >=? code "0")) eqn:Edigit.
    + apply andb_true_iff in Hruns. destruct Hruns as [Hn Hruns].
      apply Nat.leb_le in Hn.
      apply andb_true_iff in Edigit. destruct Edigit as [E9 E0].
      apply Z.leb_le in E9. rewrite Z.geb_leb in E0. apply Z.leb_le in E0.
      change (code "9") with 57 in E9. change (code "0") with 48 in E0 |- *.
      assert (Hpow : 10 ^ Z.of_nat (S cur) = 10 ^ Z.of_nat cur * 10)
        by (rewrite Nat2Z.inj_succ, Z.pow_succ_r by lia; lia).
      assert (Hmax : 10 ^ Z.of_nat (S cur) <= 10 ^ 9)
        by (apply Z.pow_le_mono_r; lia).
      rewrite int_check_in by (unfold INT_MIN, INT_MAX; change (10 ^ 9) with 1000000000 in Hmax; lia).
      cbn [bind]. apply (IH value _ count (S cur) Hruns Hn); [rewrite Hpow; lia | exact Hc | lia].
    + destruct ((code c =? code ".") && (octet <? 256)); [| right; reflexivity].
      destruct rest as [| c' rest']; [right; reflexivity |].
      destruct (code c' =? code "."); [right; reflexivity |].
      rewrite int_check_in by (unfold INT_MIN, INT_MAX in *; lia).
      cbn [bind]. apply (IH _ 0 (count + 1) 0%nat Hruns); [lia | cbn; lia | lia |].
      cbn [length] in *. lia.
Qed.

(** X13. For a text that is not empty and holds no more than nine decimal
    digits in a row, so that no number overflows an [int] while it is read
    (with a longer number the behaviour is undefined), [parse] of the 32-bit
    class accepts the text exactly when it is made of four decimal numbers
    separated by dots, each of one digit or more (leading zeros are allowed
    and are not read as octal) and of value below 256; it then returns the
    address whose octets are these values, the first one the most
    significant. On every other such text it throws the exception "Invalid
    IPv4 format". *)
Theorem IPv4_parse_dotted_quad (text : list ascii) :
  text <> [] -> digit_runs_within 9 text 0 = true ->
  Z.of_nat (length text) <= INT_MAX ->
  (forall a, IPv4.parse text = Ok a <-> dotted_quad text a) /\
  ((forall a, ~ dotted_quad text a) ->
   IPv4.parse text = Throw (Invalid_IPv4_format text)).
Proof.
  intros Hne Hruns Hlen. split; [intros a; exact (IPv4_parse_characterised text a) |].
  intros Hnot.
  assert (Hcases : (exists a, IPv4.parse text = Ok a) \/
                   IPv4.parse text = Throw (Invalid_IPv4_format text)).
  { unfold IPv4.parse. destruct text as [| c rest] eqn:Etext; [contradiction Hne; reflexivity |].
    rewrite <- Etext in *. destruct (code c =? code "."); [right; reflexivity |].
    destruct (IPv4_parse_loop_defined text text 0 0 0 0%nat Hruns) as [([[v o] n] & E) | E];
      try (cbn; lia).
    - rewrite E. cbn [bind].
      destruct (negb (n =? 3) || (o >=? 256)); [right; reflexivity |].
      left. eexists. reflexivity.
    - rewrite E. right. reflexivity. }
  destruct Hcases as [(a & E) | E]; [| exact E].
  exfalso. apply (Hnot a). apply (IPv4_parse_characterised text a). exact E.
Qed.

Lemma IPv4_parse_dotted_quad_witness :
  text "010.1.2.3" <> [] /\ digit_runs_within 9 (text "010.1.2.3") 0 = true /\
  Z.of_nat (length (text "010.1.2.3")) <= INT_MAX /\
  (forall a, IPv4.parse (text "010.1.2.3") = Ok a <-> dotted_quad (text "010.1.2.3") a) /\
  ((forall a, ~ dotted_quad (text "010.1.2.3") a) ->
   IPv4.parse (text "010.1.2.3") = Throw (Invalid_IPv4_format (text "010.1.2.3"))) /\
  IPv4.parse (text "010.1.2.3") = Ok (IPv4.IPv4 0x0a010203).
Proof.
  assert (H1 : text "010.1.2.3" <> []) by discriminate.
  assert (H2 : digit_runs_within 9 (text "010.1.2.3") 0 = true) by reflexivity.
  assert (H3 : Z.of_nat (length (text "010.1.2.3")) <= INT_MAX)
    by (unfold INT_MAX; simpl; lia).
  split; [exact H1 |]. split; [exact H2 |]. split; [exact H3 |].
  pose proof (IPv4_parse_dotted_quad (text "010.1.2.3") H1 H2 H3) as [Hiff Hrefuse].
  split; [exact Hiff |]. split; [exact Hrefuse |]. vm_compute. reflexivity.
Defined.

Lemma IPv4_parse_wf (text : list ascii) (a : IPv4.t) :
  IPv4.parse text = Ok a -> IPv4.wf a.
Proof.
  intros E. apply IPv4_parse_characterised in E.
  destruct E as (d3 & d2 & d1 & d0 & o3 & o2 & o1 & o0 & _ & T3 & T2 & T1 & T0 & ->).
  destruct (octet_text_digits _ _ T3) as (_ & _ & _ & _ & _ & H3).
  destruct (octet_text_digits _ _ T2) as (_ & _ & _ & _ & _ & H2).
  destruct (octet_text_digits _ _ T1) as (_ & _ & _ & _ & _ & H1).
  destruct (octet_text_digits _ _ T0) as (_ & _ & _ & _ & _ & H0).
  unfold IPv4.wf. cbn [IPv4.value]. change (2 ^ 32) with (256 * 256 * 256 * 256). lia.
Qed.

(** * What [parse] returns fits the fields *)

Lemma lor_range (n x y : Z) :
  0 <= n -> 0 <= x < 2 ^ n -> 0 <= y < 2 ^ n -> 0 <= Z.lor x y < 2 ^ n.
Proof.
  intros Hn Hx Hy.
  assert (H0 : 0 <= Z.lor x y) by (apply Z.lor_nonneg; lia).
  split; [exact H0 |].
  destruct (Z.eq_dec (Z.lor x y) 0) as [-> | Hnz]; [lia |].
  apply Z.log2_lt_pow2; [lia |]. rewrite Z.log2_lor by lia.
  assert (Hlog : forall v, 0 <= v < 2 ^ n -> 0 < n -> Z.log2 v < n).
  { intros v Hv Hpos. destruct (Z.eq_dec v 0) as [-> | Hv0]; [cbn; lia |].
    apply Z.log2_lt_pow2; lia. }
  assert (Hpos : 0 < n).
  { destruct (Z.eq_dec n 0) as [-> | ]; [| lia]. exfalso. apply Hnz.
    change (2 ^ 0) with 1 in *. replace x with 0 by lia. replace y with 0 by lia.
    reflexivity. }
  apply Z.max_lub_lt; apply Hlog; assumption.
Qed.

Lemma place_first_wf (s : list Z) (i : Z) (a : IPv6.t) :
  IPv6.wf a -> IPv6.wf (IPv6.place_first s i a).
Proof.
  revert i a. induction s as [| x s IH]; intros i a Ha; [exact Ha |].
  cbn [IPv6.place_first]. apply IH. destruct Ha as [Hn Hh].
  destruct (i <? 4); split; cbn [IPv6.network IPv6.host]; try assumption;
    apply lor_range; try lia; try assumption; apply (wrap_range 64); lia.
Qed.

Lemma place_second_wf (s : list Z) (i : Z) (a : IPv6.t) :
  IPv6.wf a -> IPv6.wf (IPv6.place_second s i a).
Proof.
  revert i a. induction s as [| x s IH]; intros i a Ha; [exact Ha |].
  cbn [IPv6.place_second]. apply IH. destruct Ha as [Hn Hh].
  destruct (i <? 4); split; cbn [IPv6.network IPv6.host]; try assumption;
    apply lor_range; try lia; try assumption; apply (wrap_range 64); lia.
Qed.

Lemma IPv6_parse_finish_wf (text : list ascii) (back : ascii) (st : IPv6.scan)
  (a : IPv6.t) :
  IPv6.parse_finish text back st = Ok a -> IPv6.wf a.
Proof.
  unfold IPv6.parse_finish.
  destruct ((code back =? code ":") &&
            negb (IPv6.in_second st && (Z.of_nat (length (IPv6.segments_second st)) =? 0)));
    [discriminate |].
  intros E. apply bind_Ok in E. destruct E as (st' & _ & E).
  destruct (if negb (IPv6.in_second st')
            then negb (Z.of_nat (length (IPv6.segments_first st')) =? 8)
            else Z.of_nat (length (IPv6.segments_first st')) +
                 Z.of_nat (length (IPv6.segments_second st')) >=? 8);
    [discriminate |].
  assert (Ea : a = IPv6.place_second (rev (IPv6.segments_second st')) 0
                     (IPv6.place_first (IPv6.segments_first st') 0 (IPv6.IPv6 0 0)))
    by congruence.
  rewrite Ea. apply place_second_wf, place_first_wf.
  unfold IPv6.wf. cbn [IPv6.network IPv6.host]. lia.
Qed.

Lemma IPv6_parse_wf (text : list ascii) (a : IPv6.t) :
  IPv6.parse text = Ok a -> IPv6.wf a.
Proof.
  unfold IPv6.parse. destruct text as [| c rest]; [discriminate |].
  intros E. apply bind_Ok in E. destruct E as (st & _ & E).
  eapply IPv6_parse_finish_wf, E.
Qed.

(** * Reading the input *)

#[export] Instance IPv4_InputLaws : InputLaws IPv4.t.
Proof.
  split.
  - cbn. unfold IPv4.wf. cbn. lia.
  - exact IPv4_parse_wf.
  - intros a p Hp. change bit_length with 32 in Hp.
    cbn [network_zeros IPv4_Address]. unfold IPv4.network_zeros.
    replace (p =? 0) with false by (symmetry; apply Z.eqb_neq; lia).
    rewrite shl_out_of_range by lia. reflexivity.
Qed.

#[export] Instance IPv6_InputLaws : InputLaws IPv6.t.
Proof.
  split.
  - cbn. unfold IPv6.wf. cbn. lia.
  - exact IPv6_parse_wf.
  - intros a p Hp. change bit_length with 128 in Hp.
    cbn [network_zeros IPv6_Address]. unfold IPv6.network_zeros.
    replace (p =? 0) with false by (symmetry; apply Z.eqb_neq; lia).
    destruct (Z.gtb_spec p 64); rewrite shl_out_of_range by lia; reflexivity.
Qed.

Section Input.

Context {T : Type} `{InputLaws T}.

Lemma valid_line_markers (start_ stop_ : IPMarkerType) (line : list ascii * Z) :
  valid_line (T := T) line ->
  exists ms, line_markers start_ stop_ line ms /\
    forall vector_ : list (IPMarker.t T),
      (a <- parse (fst line) ;;
       callback (InsertAdapter start_ stop_) (IPNode.IPNode a (snd line)) vector_) =
      Ok (vector_ ++ ms).
Proof.
  intros [(a & Ea) Hp]. pose proof (parse_wf _ _ Ea) as Ha.
  destruct (network_zeros_spec a (snd line) Ha Hp) as (z & Ez & Hz & Vz).
  destruct (network_ones_spec a (snd line) Ha Hp) as (o & Eo & Ho & Vo).
  exists [IPMarker.IPMarker z start_; IPMarker.IPMarker o stop_]. split.
  - exists a, z, o. repeat (split; [assumption |]). split; [| reflexivity].
    assert (HP : 0 < 2 ^ (bit_length - snd line)) by (apply pow2_pos; lia).
    assert (HP' : 2 ^ (bit_length - snd line) <> 0) by lia.
    pose proof (Z.div_mod (to_Z a) (2 ^ (bit_length - snd line)) HP').
    pose proof (Z.mod_pos_bound (to_Z a) (2 ^ (bit_length - snd line)) HP). lia.
  - intros vector_. rewrite Ea.
    cbn [bind callback InsertAdapter IPNode.ip IPNode.prefix]. rewrite Ez, Eo.
    cbn [bind]. rewrite <- app_assoc. reflexivity.
Qed.

Lemma read_regexp_run (lines : list (list ascii * Z))
  (start_ stop_ : IPMarkerType) (vector_ : list (IPMarker.t T)) :
  Forall valid_line lines ->
  exists pairs,
    Forall2 (line_markers start_ stop_) lines pairs /\
    read_regexp lines (InsertAdapter start_ stop_) vector_ = Ok (vector_ ++ concat pairs).
Proof.
  unfold read_regexp. intros Hlines. revert vector_.
  induction Hlines as [| line lines Hline Hlines IH]; intros vector_.
  - exists []. split; [constructor |]. cbn [for_each concat]. rewrite app_nil_r. reflexivity.
  - destruct (valid_line_markers start_ stop_ line Hline) as (ms & Hms & Erun).
    destruct (IH (vector_ ++ ms)) as (pairs & Hpairs & Erest).
    exists (ms :: pairs). split; [constructor; assumption |].
    cbn [for_each concat]. rewrite Erun. cbn [bind]. rewrite Erest, <- app_assoc.
    reflexivity.
Qed.

Lemma read_regexp_refused (good : list (list ascii * Z)) (bad : list ascii * Z)
  (rest : list (list ascii * Z)) (start_ stop_ : IPMarkerType)
  (vector_ : list (IPMarker.t T)) (e : runtime_error) :
  Forall valid_line good -> parse (fst bad) = Throw e ->
  read_regexp (good ++ bad :: rest) (InsertAdapter start_ stop_) vector_ = Throw e.
Proof.
  intros Hgood Ebad.
  destruct (read_regexp_run good start_ stop_ vector_ Hgood) as (pairs & _ & E).
  unfold read_regexp in *. rewrite for_each_app, E. cbn [bind for_each].
  rewrite Ebad. reflexivity.
Qed.

(** X7. Reading one input. When every line holds an address that [parse]
    accepts and a prefix within [[0, W]], [read_regexp] with an
    [InsertAdapter] returns normally and appends to the marker vector, line
    after line, two markers per line: the opening marker at the first
    address of the block of the line and the closing marker at its last
    address, with the address of the line between the two. When such lines
    are followed by a line whose address [parse] refuses, [read_regexp]
    ends with the exception of [parse], whatever follows that line. *)
Theorem read_regexp_markers (lines : list (list ascii * Z)) (bad : list ascii * Z)
  (rest : list (list ascii * Z)) (start_ stop_ : IPMarkerType)
  (vector_ : list (IPMarker.t T)) (e : runtime_error) :
  Forall valid_line lines ->
  (exists pairs,
     Forall2 (line_markers start_ stop_) lines pairs /\
     read_regexp lines (InsertAdapter start_ stop_) vector_ =
       Ok (vector_ ++ concat pairs)) /\
  (parse (fst bad) = Throw e ->
   read_regexp (lines ++ bad :: rest) (InsertAdapter start_ stop_) vector_ = Throw e).
Proof.
  intros Hlines. split.
  - exact (read_regexp_run lines start_ stop_ vector_ Hlines).
  - exact (read_regexp_refused lines bad rest start_ stop_ vector_ e Hlines).
Qed.

End Input.

Lemma read_regexp_markers_witness :
  Forall (valid_line (T := IPv4.t)) [(text "10.1.2.3", 24)] /\
  parse (T := IPv4.t) (fst (text "10.1.2", 24)) =
    Throw (Invalid_IPv4_format (text "10.1.2")) /\
  (exists pairs,
     Forall2 (line_markers ipm_a_open ipm_a_close) [(text "10.1.2.3", 24)] pairs /\
     read_regexp (T := IPv4.t) [(text "10.1.2.3", 24)]
       (InsertAdapter ipm_a_open ipm_a_close) [] = Ok ([] ++ concat pairs)) /\
  read_regexp (T := IPv4.t)
    ([(text "10.1.2.3", 24)] ++ (text "10.1.2", 24) :: [(text "10.2.0.0", 16)])
    (InsertAdapter ipm_a_open ipm_a_close) [] =
    Throw (Invalid_IPv4_format (text "10.1.2")).
Proof.
  assert (H1 : Forall (valid_line (T := IPv4.t)) [(text "10.1.2.3", 24)]).
  { constructor; [| constructor].
    split; [exists (IPv4.IPv4 0x0a010203); vm_compute; reflexivity |].
    change (0 <= 24 <= 32). lia. }
  assert (H2 : parse (T := IPv4.t) (fst (text "10.1.2", 24)) =
               Throw (Invalid_IPv4_format (text "10.1.2")))
    by (vm_compute; reflexivity).
  split; [exact H1 |]. split; [exact H2 |].
  pose proof (read_regexp_markers (T := IPv4.t) [(text "10.1.2.3", 24)]
                (text "10.1.2", 24) [(text "10.2.0.0", 16)]
                ipm_a_open ipm_a_close [] (Invalid_IPv4_format (text "10.1.2")) H1)
    as [Hrun Hrefused].
  split; [exact Hrun | exact (Hrefused H2)].
Defined.

(** * The sweep, as a whole *)

Section SweepBlocks.

Context {T : Type} `{AddressLaws T}.

Lemma count_marker_Ok (m : IPMarker.t T) (A B : batch_data) :
  INT_MIN < count A < INT_MAX -> INT_MIN < count B < INT_MAX ->
  exists ca cb,
    count_marker m (A, B) =
      Ok (Batch ca (inside A) (start A), Batch cb (inside B) (start B)) /\
    count A - 1 <= ca <= count A + 1 /\ count B - 1 <= cb <= count B + 1.
Proof.
  intros HA HB. unfold count_marker.
  destruct (IPMarker.type m); cbn [IPMarkerType_eqb];
    rewrite ?int_check_in by lia; cbn [bind];
    rewrite ?int_check_in by lia; cbn [bind];
    eexists; eexists; (split; [reflexivity | lia]).
Qed.

(** The loop of [traverse], from any state: the blocks handed out and
    the track of each do not depend on the callbacks, only on whether the
    second one is empty. *)
Lemma traverse_loop_blocks (kernel : ComparisonKernel) (second : bool)
  (markers : list (IPMarker.t T)) :
  forall (K : Z) (A B : batch_data),
    Forall (fun m => wf (IPMarker.ip m)) markers ->
    wf (start A) -> wf (start B) ->
    0 <= K -> K + Z.of_nat (length markers) <= INT_MAX ->
    - K <= count A <= K -> - K <= count B <= K ->
    exists ems A' B',
      Forall (fun e => aligned (snd e)) ems /\
      (second = false -> Forall (fun e => fst e = true) ems) /\
      forall (O : Type) (callback_a callback_b : OutputAdapter T O) (o : O),
        empty callback_b = negb second ->
        traverse_loop markers kernel callback_a callback_b (A, B, o) =
        (o' <- for_each (emit callback_a callback_b) ems o ;; Ok (A', B', o')).
Proof.
  induction markers as [| m rest IH]; intros K A B Hms HA HB HK Hlen HcA HcB.
  - exists [], A, B. split; [constructor |]. split; [intros _; constructor |].
    reflexivity.
  - inversion Hms as [| ? ? Hm Hrest]; subst. cbn [length] in Hlen.
    unfold INT_MIN, INT_MAX in *.
    destruct (count_marker_Ok m A B) as (ca & cb & Ecount & Hca & Hcb);
      [unfold INT_MIN, INT_MAX; lia | unfold INT_MIN, INT_MAX; lia |].
    set (A1 := Batch ca (inside A) (start A)) in *.
    set (B1 := Batch cb (inside B) (start B)) in *.
    assert (HcA1 : - (K + 1) <= count A1 <= K + 1) by (unfold A1; cbn [count]; lia).
    assert (HcB1 : - (K + 1) <= count B1 <= K + 1) by (unfold B1; cbn [count]; lia).
    assert (HK1 : 0 <= K + 1) by lia.
    assert (Hlen1 : K + 1 + Z.of_nat (length rest) <= INT_MAX) by (unfold INT_MAX; lia).
    destruct (match rest with
              | m' :: _ => eq (IPMarker.ip m') (IPMarker.ip m)
              | [] => false
              end) eqn:Eskip.
    + destruct (IH (K + 1) A1 B1 Hrest HA HB) as (ems & A' & B' & Hal & Hfst & Hrun);
        try (cbn [count A1 B1]; unfold INT_MAX; lia).
      exists ems, A', B'. split; [exact Hal |]. split; [exact Hfst |].
      intros O callback_a callback_b o Hempty. cbn [traverse_loop].
      rewrite Ecount. cbn [bind]. rewrite Eskip. apply Hrun, Hempty.
    + destruct (track_flush kernel (is_open m) (IPMarker.ip m) A1 B1 Hm HA)
        as (A2 & chunkA & HrunA & HA2 & HcA2 & HalA & _).
      destruct second.
      * destruct (track_flush kernel (is_open m) (IPMarker.ip m) B1 A2 Hm HB)
          as (B2 & chunkB & HrunB & HB2 & HcB2 & HalB & _).
        rewrite <- HcA2 in HcA1. rewrite <- HcB2 in HcB1.
        destruct (IH (K + 1) A2 B2 Hrest HA2 HB2 HK1 Hlen1 HcA1 HcB1)
          as (ems & A' & B' & Hal & Hfst & Hrun).
        exists (map (pair true) chunkA ++ map (pair false) chunkB ++ ems), A', B'.
        split.
        { apply Forall_app. split; [| apply Forall_app; split; [| exact Hal]];
            apply Forall_map; cbn [snd]; assumption. }
        split; [intros N; discriminate N |].
        intros O callback_a callback_b o Hempty. cbn [traverse_loop].
        rewrite Ecount. cbn [bind]. rewrite Eskip. unfold visit.
        rewrite Hempty. cbn [negb]. rewrite HrunA.
        rewrite for_each_app, for_each_emit, !bind_assoc.
        apply bind_ext. intros o1. cbn [bind].
        rewrite HrunB, for_each_app, for_each_emit, !bind_assoc.
        apply bind_ext. intros o2. cbn [bind]. apply Hrun, Hempty.
      * rewrite <- HcA2 in HcA1.
        destruct (IH (K + 1) A2 B1 Hrest HA2 HB HK1 Hlen1 HcA1 HcB1)
          as (ems & A' & B' & Hal & Hfst & Hrun).
        exists (map (pair true) chunkA ++ ems), A', B'.
        split.
        { apply Forall_app. split; [| exact Hal]. apply Forall_map; cbn [snd]; assumption. }
        split.
        { intros _. apply Forall_app. split; [| apply Hfst; reflexivity].
          apply Forall_map, Forall_forall. reflexivity. }
        intros O callback_a callback_b o Hempty. cbn [traverse_loop].
        rewrite Ecount. cbn [bind]. rewrite Eskip. unfold visit.
        rewrite Hempty. cbn [negb]. rewrite HrunA.
        rewrite for_each_app, for_each_emit, !bind_assoc.
        apply bind_ext. intros o1. cbn [bind]. apply Hrun, Hempty.
Qed.

End SweepBlocks.

Section SweepWhole.

Context {T : Type} `{InputLaws T}.

Lemma traverse_blocks (markers : list (IPMarker.t T)) (kernel : ComparisonKernel)
  (second : bool) :
  Forall (fun m => wf (IPMarker.ip m)) markers ->
  Z.of_nat (length markers) <= INT_MAX ->
  exists ems,
    Forall (fun e => aligned (snd e)) ems /\
    (second = false -> Forall (fun e => fst e = true) ems) /\
    forall (O : Type) (callback_a callback_b : OutputAdapter T O) (o : O),
      empty callback_b = negb second ->
      traverse markers kernel callback_a callback_b o =
      for_each (emit callback_a callback_b) ems o.
Proof.
  intros Hms Hlen.
  destruct (traverse_loop_blocks kernel second markers 0
              (Batch 0 false ctor) (Batch 0 false ctor) Hms ctor_wf ctor_wf)
    as (ems & A' & B' & Hal & Hfst & Hrun); cbn [count]; try lia.
  exists ems. split; [exact Hal |]. split; [exact Hfst |].
  intros O callback_a callback_b o Hempty. unfold traverse.
  rewrite Hrun by exact Hempty. rewrite bind_assoc. cbn [bind]. apply bind_Ok_r.
Qed.

(** X8. The sweep as a whole. On a marker vector of at most [INT_MAX]
    markers, [traverse] returns normally whenever its callbacks do: no
    exception is thrown and the counts do not overflow. The blocks it hands
    out, and the track that hands out each, depend on the markers, on the
    kernel and on whether the second callback is empty, not on what the
    callbacks do; every block is aligned, and with an empty second callback
    every block goes to the first one. *)
Theorem sweep_blocks (markers : list (IPMarker.t T)) (kernel : ComparisonKernel)
  (second : bool) :
  Forall (fun m => wf (IPMarker.ip m)) markers ->
  Z.of_nat (length markers) <= INT_MAX ->
  exists ems,
    Forall (fun e => aligned (snd e)) ems /\
    (second = false -> Forall (fun e => fst e = true) ems) /\
    forall (O : Type) (callback_a callback_b : OutputAdapter T O) (o : O),
      empty callback_b = negb second ->
      traverse markers kernel callback_a callback_b o =
      for_each (emit callback_a callback_b) ems o.
Proof. exact (traverse_blocks markers kernel second). Qed.

Lemma for_each_output (kernel : ComparisonKernel) (ems : list (bool * IPNode.t T))
  (cout : ostream) :
  (symetric kernel = true -> Forall (fun e => fst e = true) ems) ->
  for_each (emit (if symetric kernel then SimpleAdapter else DiffAdapter ["+"%char])
                 (if symetric kernel then EmptyOutputAdapter else DiffAdapter ["-"%char]))
           ems cout =
  Ok (cout ++ map (output_line kernel) ems).
Proof.
  intros Hfst. revert cout. induction ems as [| [first b] ems IH]; intros cout.
  - cbn [for_each map]. rewrite app_nil_r. reflexivity.
  - cbn [for_each map]. unfold emit at 1, output_line at 1. cbn [fst snd].
    assert (Hrest : symetric kernel = true -> Forall (fun e => fst e = true) ems).
    { intros E. specialize (Hfst E). inversion Hfst; assumption. }
    destruct (symetric kernel) eqn:Esym.
    + assert (first = true) as ->.
      { specialize (Hfst eq_refl). inversion Hfst; assumption. }
      cbn [callback SimpleAdapter bind app]. rewrite (IH Hrest), <- app_assoc. reflexivity.
    + destruct first; cbn [callback DiffAdapter bind app];
        rewrite (IH Hrest), <- app_assoc; reflexivity.
Qed.

Lemma line_markers_wf (start_ stop_ : IPMarkerType) (lines : list (list ascii * Z))
  (pairs : list (list (IPMarker.t T))) :
  Forall2 (line_markers start_ stop_) lines pairs ->
  Forall (fun m => wf (IPMarker.ip m)) (concat pairs) /\
  Z.of_nat (length (concat pairs)) = 2 * Z.of_nat (length lines).
Proof.
  induction 1 as [| line ms lines pairs Hms _ [IHwf IHlen]].
  - split; [constructor | reflexivity].
  - destruct Hms as (a & z & o & _ & _ & _ & Hz & Ho & _ & ->).
    cbn [concat app length]. split; [repeat constructor; assumption | lia].
Qed.

Variable sort : list (IPMarker.t T) -> list (IPMarker.t T).
Hypothesis sort_ok : sorts sort.

(** X9. The program, end to end. When every line of both inputs holds an
    address that [parse] accepts and a prefix within [[0, W]], and the
    markers, two per line, are at most [INT_MAX], [process] returns
    normally, whichever the kernel and whichever way the sort arranges
    markers of equal address. It appends to the output one line per block:
    the text of the address of the block, a slash and the prefix, after the
    label "+" or "-" of the track for a kernel that is not symmetric; every
    block is aligned. *)
Theorem process_prints (file1 file2 : list (list ascii * Z))
  (kernel : ComparisonKernel) (cout : ostream) :
  Forall valid_line file1 -> Forall valid_line file2 ->
  2 * (Z.of_nat (length file1) + Z.of_nat (length file2)) <= INT_MAX ->
  exists ems,
    Forall (fun e => aligned (snd e)) ems /\
    (symetric kernel = true -> Forall (fun e => fst e = true) ems) /\
    process sort file1 file2 kernel cout = Ok (cout ++ map (output_line kernel) ems).
Proof.
  intros Hf1 Hf2 Hlen.
  destruct (read_regexp_run file1 ipm_a_open ipm_a_close [] Hf1)
    as (pairs1 & Hp1 & E1).
  destruct (read_regexp_run file2 ipm_b_open ipm_b_close ([] ++ concat pairs1) Hf2)
    as (pairs2 & Hp2 & E2).
  destruct (line_markers_wf _ _ _ _ Hp1) as [W1 L1].
  destruct (line_markers_wf _ _ _ _ Hp2) as [W2 L2].
  set (markers := ([] ++ concat pairs1) ++ concat pairs2) in *.
  destruct (sort_ok markers) as [Hperm _].
  assert (Hwf : Forall (fun m => wf (IPMarker.ip m)) (sort markers)).
  { eapply Permutation_Forall; [exact Hperm |]. unfold markers. cbn [app].
    apply Forall_app. split; assumption. }
  assert (Hcount : Z.of_nat (length (sort markers)) <= INT_MAX).
  { rewrite <- (Permutation_length Hperm). unfold markers. cbn [app].
    rewrite length_app. lia. }
  destruct (traverse_blocks (sort markers) kernel (negb (symetric kernel)) Hwf Hcount)
    as (ems & Hal & Hfst & Hrun).
  exists ems. split; [exact Hal |].
  assert (Hfst' : symetric kernel = true -> Forall (fun e => fst e = true) ems).
  { intros E. apply Hfst. rewrite E. reflexivity. }
  split; [exact Hfst' |].
  unfold process. rewrite E1. cbn [bind]. rewrite E2. cbn [bind]. fold markers.
  rewrite <- (for_each_output kernel ems cout Hfst').
  destruct (symetric kernel); apply Hrun; reflexivity.
Qed.

End SweepWhole.

Lemma sweep_blocks_witness :
  Forall (fun m => wf (IPMarker.ip m))
    [IPMarker.IPMarker (IPv4.IPv4 0x0a000000) ipm_a_open;
     IPMarker.IPMarker (IPv4.IPv4 0x0a0000ff) ipm_a_close] /\
  Z.of_nat (length [IPMarker.IPMarker (IPv4.IPv4 0x0a000000) ipm_a_open;
                    IPMarker.IPMarker (IPv4.IPv4 0x0a0000ff) ipm_a_close]) <= INT_MAX /\
  exists ems,
    Forall (fun e => aligned (snd e)) ems /\
    (true = false -> Forall (fun e => fst e = true) ems) /\
    forall (O : Type) (callback_a callback_b : OutputAdapter IPv4.t O) (o : O),
      empty callback_b = negb true ->
      traverse [IPMarker.IPMarker (IPv4.IPv4 0x0a000000) ipm_a_open;
                IPMarker.IPMarker (IPv4.IPv4 0x0a0000ff) ipm_a_close]
        DifferenceKernel callback_a callback_b o =
      for_each (emit callback_a callback_b) ems o.
Proof.
  assert (H1 : Forall (fun m => wf (IPMarker.ip m))
                 [IPMarker.IPMarker (IPv4.IPv4 0x0a000000) ipm_a_open;
                  IPMarker.IPMarker (IPv4.IPv4 0x0a0000ff) ipm_a_close])
    by (repeat constructor; cbn; unfold IPv4.wf; simpl; lia).
  assert (H2 : Z.of_nat (length [IPMarker.IPMarker (IPv4.IPv4 0x0a000000) ipm_a_open;
                                 IPMarker.IPMarker (IPv4.IPv4 0x0a0000ff) ipm_a_close])
               <= INT_MAX) by (vm_compute; discriminate).
  split; [exact H1 |]. split; [exact H2 |].
  apply (sweep_blocks _ DifferenceKernel true H1 H2).
Defined.

Lemma process_prints_witness :
  sorts (insertion_sort (T := IPv4.t)) /\
  Forall (valid_line (T := IPv4.t)) [(text "10.0.0.0", 24)] /\
  Forall (valid_line (T := IPv4.t)) [(text "10.0.0.0", 25)] /\
  2 * (Z.of_nat (length [(text "10.0.0.0", 24)]) +
       Z.of_nat (length [(text "10.0.0.0", 25)])) <= INT_MAX /\
  exists ems : list (bool * IPNode.t IPv4.t),
    Forall (fun e => aligned (snd e)) ems /\
    (symetric DifferenceKernel = true -> Forall (fun e => fst e = true) ems) /\
    process (T := IPv4.t) insertion_sort [(text "10.0.0.0", 24)] [(text "10.0.0.0", 25)]
      DifferenceKernel [] = Ok ([] ++ map (output_line DifferenceKernel) ems).
Proof.
  assert (H1 : Forall (valid_line (T := IPv4.t)) [(text "10.0.0.0", 24)]).
  { constructor; [| constructor].
    split; [eexists; vm_compute; reflexivity | cbn; unfold IPv4.bit_length; lia]. }
  assert (H2 : Forall (valid_line (T := IPv4.t)) [(text "10.0.0.0", 25)]).
  { constructor; [| constructor].
    split; [eexists; vm_compute; reflexivity | cbn; unfold IPv4.bit_length; lia]. }
  assert (H3 : 2 * (Z.of_nat (length [(text "10.0.0.0", 24)]) +
                    Z.of_nat (length [(text "10.0.0.0", 25)])) <= INT_MAX)
    by (vm_compute; discriminate).
  split; [exact insertion_sort_IPv4 |]. split; [exact H1 |]. split; [exact H2 |].
  split; [exact H3 |].
  apply (process_prints insertion_sort insertion_sort_IPv4
           [(text "10.0.0.0", 24)] [(text "10.0.0.0", 25)] DifferenceKernel [] H1 H2 H3).
Defined.

(** * Exchanging the two inputs *)

Section Exchange.

Context {T : Type} `{Address T}.

Variable kernel : ComparisonKernel.
Hypothesis kernel_symmetric : forall a b, call kernel a b = call kernel b a.

(** The first track looks at the second one through its count only. *)
Lemma track_exchange {O : Type} (open : bool) (ip : T) (A1 B1 A2 B2 : batch_data)
  (cb : OutputAdapter T O) (o : O) :
  count A1 = count B2 -> count B1 = count A2 ->
  inside A1 = inside A2 -> start A1 = start A2 ->
  track kernel open ip A1 B1 cb o =
  (' (A', o') <- track kernel open ip A2 B2 cb o ;;
   Ok (Batch (count A1) (inside A') (start A'), o')).
Proof.
  intros EA EB Ei Es. unfold track.
  rewrite EA, EB, (kernel_symmetric (count B2) (count A2)), Ei, Es.
  clear EB. destruct A1 as [c1 i1 s1], A2 as [c2 i2 s2].
  cbn [count inside start] in *. subst c1 i1 s1.
  destruct (call kernel c2 (count B2)), i2, open;
    cbn [negb bind]; try reflexivity;
    try (destruct (next ip bit_length); reflexivity).
  - destruct (previous ip bit_length) as [p | | |]; cbn [bind]; try reflexivity.
    destruct (add s2 p cb o); reflexivity.
  - destruct (add s2 ip cb o); reflexivity.
Qed.

Lemma track_count {O : Type} (k : ComparisonKernel) (open : bool) (ip : T)
  (A B A' : batch_data) (cb : OutputAdapter T O) (o o' : O) :
  track k open ip A B cb o = Ok (A', o') -> count A' = count A.
Proof.
  unfold track.
  destruct (call k (count A) (count B)), (inside A), open; cbn [negb];
    intros E; try (injection E as <- _; reflexivity);
    repeat (apply bind_Ok in E; destruct E as (? & _ & E));
    injection E as <- _; reflexivity.
Qed.

Lemma count_marker_exchange (m : IPMarker.t T) (A1 B1 A2 B2 : batch_data) :
  count A1 = count B2 -> count B1 = count A2 ->
  count_marker (swap_marker m) (A1, B1) =
  (' (A', B') <- count_marker m (A2, B2) ;;
   Ok (Batch (count B') (inside A1) (start A1), Batch (count A') (inside B1) (start B1))).
Proof.
  intros EA EB. unfold count_marker, swap_marker. cbn [IPMarker.type].
  rewrite EA, EB.
  destruct (IPMarker.type m); cbn [swap_type IPMarkerType_eqb bind];
    try reflexivity;
    match goal with
    | |- context [int_check ?r] => destruct (int_check r); reflexivity
    end.
Qed.

Lemma count_marker_shape (m : IPMarker.t T) (A B : batch_data) :
  count_marker m (A, B) =
  (' (A', B') <- count_marker m (A, B) ;;
   Ok (Batch (count A') (inside A) (start A), Batch (count B') (inside B) (start B))).
Proof.
  unfold count_marker.
  destruct (IPMarker.type m); cbn [IPMarkerType_eqb bind]; try reflexivity;
    match goal with
    | |- context [int_check ?r] => destruct (int_check r); reflexivity
    end.
Qed.

Lemma traverse_loop_exchange {O : Type} (cb : OutputAdapter T O)
  (markers : list (IPMarker.t T)) :
  forall (A1 B1 A2 B2 : batch_data) (o : O),
    count A1 = count B2 -> count B1 = count A2 ->
    inside A1 = inside A2 -> start A1 = start A2 ->
    (' (_, _, o') <- traverse_loop (map swap_marker markers) kernel cb
                       EmptyOutputAdapter (A1, B1, o) ;; Ok o') =
    (' (_, _, o') <- traverse_loop markers kernel cb
                       EmptyOutputAdapter (A2, B2, o) ;; Ok o').
Proof.
  induction markers as [| m rest IH]; intros A1 B1 A2 B2 o EA EB Ei Es.
  - reflexivity.
  - cbn [map traverse_loop].
    rewrite (count_marker_exchange m A1 B1 A2 B2 EA EB).
    rewrite (count_marker_shape m A2 B2), !bind_assoc.
    apply bind_ext. intros [A' B']. cbn [bind count inside start].
    set (A2' := Batch (count A') (inside A2) (start A2)).
    set (B2' := Batch (count B') (inside B2) (start B2)).
    replace (match map swap_marker rest with
             | m' :: _ => eq (IPMarker.ip m') (IPMarker.ip (swap_marker m))
             | [] => false
             end)
      with (match rest with
            | m' :: _ => eq (IPMarker.ip m') (IPMarker.ip m)
            | [] => false
            end) by (destruct rest; reflexivity).
    assert (Hopen : is_open (swap_marker m) = is_open m).
    { unfold is_open, swap_marker. cbn [IPMarker.type].
      destruct (IPMarker.type m); reflexivity. }
    destruct (match rest with
              | m' :: _ => eq (IPMarker.ip m') (IPMarker.ip m)
              | [] => false
              end).
    + apply IH; cbn [count inside start]; try reflexivity; assumption.
    + unfold visit. cbn [empty EmptyOutputAdapter negb].
      rewrite Hopen. cbn [IPMarker.ip swap_marker].
      rewrite (track_exchange (is_open m) (IPMarker.ip m)
                 (Batch (count B') (inside A1) (start A1))
                 (Batch (count A') (inside B1) (start B1)) A2' B2' cb o)
        by (cbn [count inside start]; try reflexivity; assumption).
      rewrite !bind_assoc.
      destruct (track kernel (is_open m) (IPMarker.ip m) A2' B2' cb o)
        as [[A3 o3] | | |] eqn:Etrack; cbn [bind]; try reflexivity.
      apply track_count in Etrack.
      apply IH; cbn [count inside start]; try reflexivity. exact (eq_sym Etrack).
Qed.

(** X10. Exchanging the two inputs. For a kernel whose value does not
    depend on the order of its two counts, which is the case of the union
    and of the intersection kernel, and with an empty second callback, the
    sweep gives the same result on a marker vector and on the vector in
    which every marker of the first input is made one of the second and
    conversely. *)
Theorem sweep_exchange {O : Type} (markers : list (IPMarker.t T))
  (cb : OutputAdapter T O) (o : O) :
  traverse (map swap_marker markers) kernel cb EmptyOutputAdapter o =
  traverse markers kernel cb EmptyOutputAdapter o.
Proof.
  unfold traverse.
  apply (traverse_loop_exchange cb markers); reflexivity.
Qed.

End Exchange.

Lemma kernels_symmetric :
  (forall a b, call UnionKernel a b = call UnionKernel b a) /\
  (forall a b, call IntersectionKernel a b = call IntersectionKernel b a).
Proof.
  split; intros a b; cbn [call UnionKernel IntersectionKernel];
    [apply orb_comm | apply andb_comm].
Qed.

Lemma sweep_exchange_witness :
  (forall a b, call UnionKernel a b = call UnionKernel b a) /\
  traverse
    (map swap_marker
       [IPMarker.IPMarker (IPv4.IPv4 0x0a000000) ipm_a_open;
        IPMarker.IPMarker (IPv4.IPv4 0x0a000080) ipm_b_open;
        IPMarker.IPMarker (IPv4.IPv4 0x0a0000ff) ipm_a_close;
        IPMarker.IPMarker (IPv4.IPv4 0x0a0000ff) ipm_b_close])
    UnionKernel Recorder EmptyOutputAdapter [] =
  traverse
    [IPMarker.IPMarker (IPv4.IPv4 0x0a000000) ipm_a_open;
     IPMarker.IPMarker (IPv4.IPv4 0x0a000080) ipm_b_open;
     IPMarker.IPMarker (IPv4.IPv4 0x0a0000ff) ipm_a_close;
     IPMarker.IPMarker (IPv4.IPv4 0x0a0000ff) ipm_b_close]
    UnionKernel Recorder EmptyOutputAdapter [].
Proof.
  split; [exact (proj1 kernels_symmetric) |].
  apply (sweep_exchange UnionKernel (proj1 kernels_symmetric)).
Defined.

(** * One block as the whole input *)

Lemma sort_two {T : Type} `{Address T}
  (sort : list (IPMarker.t T) -> list (IPMarker.t T)) (x y : IPMarker.t T) :
  sorts sort -> sort [x; y] = [x; y] \/ sort [x; y] = [y; x].
Proof.
  intros Hs. destruct (Hs [x; y]) as [Hp _].
  pose proof (Permutation_length Hp) as Hl.
  destruct (sort [x; y]) as [| u [| v [| w r]]]; try discriminate Hl.
  apply Permutation_length_2 in Hp. destruct Hp as [[-> ->] | [-> ->]]; auto.
Qed.

Lemma sort_two_ordered {T : Type} `{Address T}
  (sort : list (IPMarker.t T) -> list (IPMarker.t T)) (x y : IPMarker.t T) :
  sorts sort -> IPMarker.lt x y = true -> sort [x; y] = [x; y].
Proof.
  intros Hs Hlt. destruct (sort_two sort x y Hs) as [E | E]; [exact E | exfalso].
  destruct (Hs [x; y]) as [_ Ho]. rewrite E in Ho.
  inversion Ho as [| ? ? _ Hall]; subst. inversion Hall as [| ? ? Hxy _]; subst.
  rewrite Hlt in Hxy. discriminate.
Qed.

Section OneBlock.

Context {T : Type} `{InputLaws T}.

Variable sort : list (IPMarker.t T) -> list (IPMarker.t T).
Hypothesis sort_ok : sorts sort.

Local Ltac sweep_simpl :=
  repeat first
    [ progress cbn [traverse_loop count_marker bind count inside start negb andb orb
                    is_open IPMarker.ip IPMarker.type IPMarkerType_eqb]
    | rewrite int_check_in by (unfold INT_MIN, INT_MAX; lia)
    | progress change (0 + 1) with 1
    | progress change (1 - 1) with 0
    | progress change (0 - 1) with (-1)
    | progress change (-1 + 1) with 0
    | progress unfold visit, track ].

(** The sweep over the two markers of one block of prefix below the
    width, whichever input it belongs to. *)
Lemma traverse_one_block {O : Type} (z o : T) (p : Z) (first : bool)
  (kernel : ComparisonKernel) (callback_a callback_b : OutputAdapter T O) (out : O) :
  wf z -> wf o -> to_Z z < to_Z o ->
  (forall (cb : OutputAdapter T O) (out : O),
     add z o cb out = callback cb (IPNode.IPNode z p) out) ->
  call kernel 0 0 = false ->
  let cA := if first then 1 else 0 in
  let cB := if first then 0 else 1 in
  traverse [IPMarker.IPMarker z (if first then ipm_a_open else ipm_b_open);
            IPMarker.IPMarker o (if first then ipm_a_close else ipm_b_close)]
    kernel callback_a callback_b out =
  (out1 <- (if call kernel cA cB
            then callback callback_a (IPNode.IPNode z p) out else Ok out) ;;
   if negb (empty callback_b) && call kernel cB cA
   then callback callback_b (IPNode.IPNode z p) out1 else Ok out1).
Proof.
  intros Hz Ho Hlt Hadd Hk00. cbv zeta.
  assert (Eoz : eq o z = false).
  { rewrite (eq_spec o z Ho Hz). apply Z.eqb_neq. lia. }
  unfold traverse.
  destruct first, (call kernel 1 0) eqn:E10, (call kernel 0 1) eqn:E01,
           (empty callback_b) eqn:Eempty.
  all: repeat first
         [ progress sweep_simpl
         | rewrite Hadd | rewrite Hk00 | rewrite Eoz
         | rewrite E10 | rewrite E01 | rewrite Eempty
         | reflexivity
         | match goal with
           | |- context [callback ?cb ?n ?x] => destruct (callback cb n x)
           end ].
Qed.

(** The sweep over the two markers of a block of one address. *)
Lemma traverse_one_address {O : Type} (a : T) (first swapped : bool)
  (kernel : ComparisonKernel) (callback_a callback_b : OutputAdapter T O) (out : O) :
  wf a -> call kernel 0 0 = false ->
  let open_ := IPMarker.IPMarker a (if first then ipm_a_open else ipm_b_open) in
  let close_ := IPMarker.IPMarker a (if first then ipm_a_close else ipm_b_close) in
  traverse (if swapped then [close_; open_] else [open_; close_])
    kernel callback_a callback_b out = Ok out.
Proof.
  intros Ha Hk00. cbv zeta.
  assert (Eaa : eq a a = true).
  { rewrite (eq_spec a a Ha Ha). apply Z.eqb_refl. }
  unfold traverse.
  destruct first, swapped, (empty callback_b) eqn:Eempty.
  all: repeat first
         [ progress sweep_simpl
         | rewrite Hk00 | rewrite Eaa | rewrite Eempty
         | reflexivity ].
Qed.

Lemma read_one_line (txt : list ascii) (p : Z) (a z o : T)
  (start_ stop_ : IPMarkerType) (vector_ : list (IPMarker.t T)) :
  parse txt = Ok a -> network_zeros a p = Ok z -> network_ones a p = Ok o ->
  read_regexp [(txt, p)] (InsertAdapter start_ stop_) vector_ =
  Ok ((vector_ ++ [IPMarker.IPMarker z start_]) ++ [IPMarker.IPMarker o stop_]).
Proof.
  intros Ea Ez Eo. unfold read_regexp. cbn [for_each fst snd]. rewrite Ea.
  cbn [bind callback InsertAdapter IPNode.ip IPNode.prefix]. rewrite Ez, Eo.
  reflexivity.
Qed.

Lemma process_one_line (txt : list ascii) (p : Z) (a z o : T) (first : bool)
  (kernel : ComparisonKernel) (cout : ostream) :
  parse txt = Ok a -> network_zeros a p = Ok z -> network_ones a p = Ok o ->
  process sort (if first then [(txt, p)] else []) (if first then [] else [(txt, p)])
    kernel cout =
  let markers :=
    sort [IPMarker.IPMarker z (if first then ipm_a_open else ipm_b_open);
          IPMarker.IPMarker o (if first then ipm_a_close else ipm_b_close)] in
  if symetric kernel
  then traverse markers kernel SimpleAdapter EmptyOutputAdapter cout
  else traverse markers kernel (DiffAdapter ["+"%char]) (DiffAdapter ["-"%char]) cout.
Proof.
  intros Ea Ez Eo. unfold process. destruct first.
  - rewrite (read_one_line txt p a z o) by assumption. reflexivity.
  - unfold read_regexp at 1. cbn [for_each bind].
    rewrite (read_one_line txt p a z o) by assumption. reflexivity.
Qed.

(** [process] on one block of prefix below the width, in the first or in
    the second input. *)
Lemma process_one_block (txt : list ascii) (p : Z) (a : T) (first : bool)
  (kernel : ComparisonKernel) (cout : ostream) :
  parse txt = Ok a -> 0 <= p < bit_length -> call kernel 0 0 = false ->
  exists z,
    network_zeros a p = Ok z /\
    process sort (if first then [(txt, p)] else []) (if first then [] else [(txt, p)])
      kernel cout =
    let e := (true, IPNode.IPNode z p) in
    let cA := if first then 1 else 0 in
    let cB := if first then 0 else 1 in
    if symetric kernel
    then Ok (if call kernel cA cB then cout ++ [output_line kernel e] else cout)
    else Ok ((if call kernel cA cB
              then cout ++ [output_line kernel (true, IPNode.IPNode z p)] else cout) ++
             (if call kernel cB cA
              then [output_line kernel (false, IPNode.IPNode z p)] else [])).
Proof.
  intros Ea Hp Hk00. pose proof (parse_wf _ _ Ea) as Ha.
  destruct (add_one_block a p Ha Hp) as (z & o & Ez & Eo & Hadd).
  destruct (network_zeros_spec a p Ha ltac:(lia)) as (z' & Ez' & Hz & Vz).
  destruct (network_ones_spec a p Ha ltac:(lia)) as (o' & Eo' & Ho & Vo).
  assert (z' = z) by congruence. assert (o' = o) by congruence. subst z' o'.
  assert (HP : 2 <= 2 ^ (bit_length - p)).
  { change 2 with (2 ^ 1) at 1. apply pow2_le. lia. }
  assert (Hlt : to_Z z < to_Z o) by lia.
  exists z. split; [exact Ez |]. cbv zeta.
  set (open_ := IPMarker.IPMarker z (if first then ipm_a_open else ipm_b_open)).
  set (close_ := IPMarker.IPMarker o (if first then ipm_a_close else ipm_b_close)).
  assert (Esort : sort [open_; close_] = [open_; close_]).
  { apply sort_two_ordered; [exact sort_ok |].
    unfold IPMarker.lt, open_, close_. cbn [IPMarker.ip].
    rewrite (lt_spec z o Hz Ho). apply Z.ltb_lt, Hlt. }
  rewrite (process_one_line txt p a z o first kernel cout Ea Ez Eo). cbv zeta.
  fold open_ close_. rewrite Esort. unfold open_, close_.
  destruct (symetric kernel) eqn:Esym;
    rewrite (traverse_one_block z o p first kernel _ _ cout Hz Ho Hlt (Hadd ostream) Hk00);
    cbn [empty EmptyOutputAdapter DiffAdapter negb andb];
    unfold output_line; rewrite Esym; cbn [fst snd IPNode.ip IPNode.prefix app].
  - destruct (call kernel (if first then 1 else 0) (if first then 0 else 1));
      cbn [callback SimpleAdapter bind]; reflexivity.
  - destruct (call kernel (if first then 1 else 0) (if first then 0 else 1)),
             (call kernel (if first then 0 else 1) (if first then 1 else 0));
      cbn [callback DiffAdapter bind app]; rewrite ?app_nil_r; reflexivity.
Qed.

(** X11. One block as the whole input. When one input holds a single
    line, of prefix [p] below the width, and the other input is empty, the
    union is the block of the line, written with its first address; the
    intersection is empty; the difference is that block, under the label
    "-" when the line is in the first input and under the label "+" when it
    is in the second one. This holds whichever way the sort arranges
    markers of equal address. *)
Theorem process_single_block (txt : list ascii) (p : Z) (a : T) (cout : ostream) :
  parse txt = Ok a -> 0 <= p < bit_length ->
  exists z,
    network_zeros a p = Ok z /\
    let line := to_string z ++ "/"%char :: put_short p in
    process sort [(txt, p)] [] UnionKernel cout = Ok (cout ++ [line]) /\
    process sort [] [(txt, p)] UnionKernel cout = Ok (cout ++ [line]) /\
    process sort [(txt, p)] [] IntersectionKernel cout = Ok cout /\
    process sort [] [(txt, p)] IntersectionKernel cout = Ok cout /\
    process sort [(txt, p)] [] DifferenceKernel cout = Ok (cout ++ ["-"%char :: line]) /\
    process sort [] [(txt, p)] DifferenceKernel cout = Ok (cout ++ ["+"%char :: line]).
Proof.
  intros Ea Hp.
  assert (KU : call UnionKernel 0 0 = false) by reflexivity.
  assert (KI : call IntersectionKernel 0 0 = false) by reflexivity.
  assert (KD : call DifferenceKernel 0 0 = false) by reflexivity.
  destruct (process_one_block txt p a true UnionKernel cout Ea Hp KU) as (z & Ez & U1).
  exists z. split; [exact Ez |]. cbv zeta.
  assert (Hz : forall (first : bool) (kernel : ComparisonKernel), call kernel 0 0 = false ->
            process sort (if first then [(txt, p)] else []) (if first then [] else [(txt, p)])
              kernel cout =
            if symetric kernel
            then Ok (if call kernel (if first then 1 else 0) (if first then 0 else 1)
                     then cout ++ [output_line kernel (true, IPNode.IPNode z p)] else cout)
            else Ok ((if call kernel (if first then 1 else 0) (if first then 0 else 1)
                      then cout ++ [output_line kernel (true, IPNode.IPNode z p)] else cout) ++
                     (if call kernel (if first then 0 else 1) (if first then 1 else 0)
                      then [output_line kernel (false, IPNode.IPNode z p)] else []))).
  { intros first kernel Hk.
    destruct (process_one_block txt p a first kernel cout Ea Hp Hk) as (z' & Ez' & E).
    assert (z' = z) by congruence. subst z'. exact E. }
  split; [exact (Hz true UnionKernel KU) |].
  split; [exact (Hz false UnionKernel KU) |].
  split; [exact (Hz true IntersectionKernel KI) |].
  split; [exact (Hz false IntersectionKernel KI) |].
  split.
  - rewrite (Hz true DifferenceKernel KD). reflexivity.
  - rewrite (Hz false DifferenceKernel KD). cbn [symetric DifferenceKernel call].
    cbn. rewrite app_nil_r. reflexivity.
Qed.

(** X12. A block of one address as the whole input. When one input holds
    a single line whose prefix is the width (a host route) and the other
    input is empty, nothing is printed, by any of the three operations and
    whichever way the sort arranges the two markers: the markers of the
    block open and close it at the same address, so that no visit sees it
    open. *)
Theorem process_host_route (txt : list ascii) (a : T) (cout : ostream) :
  parse txt = Ok a ->
  process sort [(txt, bit_length)] [] UnionKernel cout = Ok cout /\
  process sort [] [(txt, bit_length)] UnionKernel cout = Ok cout /\
  process sort [(txt, bit_length)] [] IntersectionKernel cout = Ok cout /\
  process sort [] [(txt, bit_length)] IntersectionKernel cout = Ok cout /\
  process sort [(txt, bit_length)] [] DifferenceKernel cout = Ok cout /\
  process sort [] [(txt, bit_length)] DifferenceKernel cout = Ok cout.
Proof.
  intros Ea. pose proof (parse_wf _ _ Ea) as Ha.
  pose proof bit_length_pos as HW.
  assert (HpW : 0 <= bit_length <= bit_length) by lia.
  destruct (network_zeros_spec a bit_length Ha HpW) as (z & Ez & Hz & Vz).
  destruct (network_ones_spec a bit_length Ha HpW) as (o & Eo & Ho & Vo).
  rewrite Z.sub_diag in Vz, Vo. change (2 ^ 0) with 1 in Vz, Vo.
  rewrite Z.div_1_r, Z.mul_1_r in Vz, Vo.
  assert (z = a) by (apply to_Z_inj; assumption). subst z.
  assert (o = a) by (apply to_Z_inj; [assumption | assumption | lia]). subst o.
  assert (Hall : forall (first : bool) (kernel : ComparisonKernel), call kernel 0 0 = false ->
            process sort (if first then [(txt, bit_length)] else [])
              (if first then [] else [(txt, bit_length)]) kernel cout = Ok cout).
  { intros first kernel Hk.
    set (open_ := IPMarker.IPMarker a (if first then ipm_a_open else ipm_b_open)).
    set (close_ := IPMarker.IPMarker a (if first then ipm_a_close else ipm_b_close)).
    rewrite (process_one_line txt bit_length a a a first kernel cout Ea Ez Eo). cbv zeta.
    fold open_ close_.
    destruct (sort_two sort open_ close_ sort_ok) as [-> | ->];
      destruct (symetric kernel).
    - apply (traverse_one_address a first false kernel _ _ cout Ha Hk).
    - apply (traverse_one_address a first false kernel _ _ cout Ha Hk).
    - apply (traverse_one_address a first true kernel _ _ cout Ha Hk).
    - apply (traverse_one_address a first true kernel _ _ cout Ha Hk). }
  assert (KU : call UnionKernel 0 0 = false) by reflexivity.
  assert (KI : call IntersectionKernel 0 0 = false) by reflexivity.
  assert (KD : call DifferenceKernel 0 0 = false) by reflexivity.
  split; [exact (Hall true UnionKernel KU) |].
  split; [exact (Hall false UnionKernel KU) |].
  split; [exact (Hall true IntersectionKernel KI) |].
  split; [exact (Hall false IntersectionKernel KI) |].
  split; [exact (Hall true DifferenceKernel KD) |].
  exact (Hall false DifferenceKernel KD).
Qed.

End OneBlock.

Lemma process_single_block_witness :
  sorts (insertion_sort (T := IPv4.t)) /\
  parse (text "10.1.2.3") = Ok (IPv4.IPv4 0x0a010203) /\
  0 <= 24 < bit_length (T := IPv4.t) /\
  exists z,
    network_zeros (IPv4.IPv4 0x0a010203) 24 = Ok z /\
    let line := to_string z ++ "/"%char :: put_short 24 in
    process (T := IPv4.t) insertion_sort [(text "10.1.2.3", 24)] [] UnionKernel [] = Ok ([] ++ [line]) /\
    process (T := IPv4.t) insertion_sort [] [(text "10.1.2.3", 24)] UnionKernel [] = Ok ([] ++ [line]) /\
    process (T := IPv4.t) insertion_sort [(text "10.1.2.3", 24)] [] IntersectionKernel [] = Ok [] /\
    process (T := IPv4.t) insertion_sort [] [(text "10.1.2.3", 24)] IntersectionKernel [] = Ok [] /\
    process (T := IPv4.t) insertion_sort [(text "10.1.2.3", 24)] [] DifferenceKernel [] =
      Ok ([] ++ ["-"%char :: line]) /\
    process (T := IPv4.t) insertion_sort [] [(text "10.1.2.3", 24)] DifferenceKernel [] =
      Ok ([] ++ ["+"%char :: line]).
Proof.
  assert (H1 : parse (text "10.1.2.3") = Ok (IPv4.IPv4 0x0a010203))
    by (vm_compute; reflexivity).
  assert (H2 : 0 <= 24 < bit_length (T := IPv4.t)) by (cbn; unfold IPv4.bit_length; lia).
  split; [exact insertion_sort_IPv4 |]. split; [exact H1 |]. split; [exact H2 |].
  apply (process_single_block insertion_sort insertion_sort_IPv4
           (text "10.1.2.3") 24 (IPv4.IPv4 0x0a010203) [] H1 H2).
Defined.

Lemma process_host_route_witness :
  sorts (insertion_sort (T := IPv4.t)) /\
  parse (text "10.1.2.3") = Ok (IPv4.IPv4 0x0a010203) /\
  process (T := IPv4.t) insertion_sort [(text "10.1.2.3", bit_length (T := IPv4.t))] []
    UnionKernel [] = Ok [].
Proof.
  assert (H1 : parse (text "10.1.2.3") = Ok (IPv4.IPv4 0x0a010203))
    by (vm_compute; reflexivity).
  split; [exact insertion_sort_IPv4 |]. split; [exact H1 |].
  apply (process_host_route insertion_sort insertion_sort_IPv4
           (text "10.1.2.3") (IPv4.IPv4 0x0a010203) [] H1).
Defined.

(** * Colon-hexadecimal notation: the last segment *)

Lemma hex_digit_range (c : ascii) :
  IPv6.is_hex c = true -> 0 <= IPv6.hex_digit c < 16.
Proof.
  unfold IPv6.is_hex, IPv6.hex_digit.
  rewrite !orb_true_iff, !andb_true_iff, !Z.geb_leb, !Z.leb_le.
  change (code "a") with 97. change (code "f") with 102.
  change (code "A") with 65. change (code "F") with 70.
  change (code "0") with 48. change (code "9") with 57.
  intros Hc.
  destruct (Z.leb_spec 97 (code c)), (Z.leb_spec (code c) 102),
           (Z.leb_spec 65 (code c)), (Z.leb_spec (code c) 70); cbn [andb]; lia.
Qed.

Lemma parse_segment_range (t : list ascii) :
  forallb IPv6.is_hex t = true -> 0 <= IPv6.parse_segment t <= 0xffff.
Proof.
  intros Ht. unfold IPv6.parse_segment.
  fold (digits_value IPv6.hex_digit 16 t 0).
  assert (H0 : 0 <= digits_value IPv6.hex_digit 16 t 0).
  { apply (digits_value_ge IPv6.hex_digit 16 t 0); [lia | | lia].
    apply Forall_forall. intros c Hc. rewrite forallb_forall in Ht.
    apply hex_digit_range, Ht, Hc. }
  destruct (Z.gtb_spec (digits_value IPv6.hex_digit 16 t 0) 65535); lia.
Qed.

(** X15. The length of the last segment is not checked. A segment of more
    than four hexadecimal digits is refused when a colon follows it; at the
    end of the text it is accepted, whatever its length: after a leading
    ["::"] the address returned has it as its last segment, with the value
    [parse_segment] reads, which is at most [ffff]. *)
Theorem IPv6_last_segment_unchecked (t rest : list ascii) :
  forallb IPv6.is_hex t = true -> (4 < length t)%nat ->
  IPv6.parse (t ++ ":"%char :: rest) =
    Throw (Invalid_IPv6_format (t ++ ":"%char :: rest)) /\
  IPv6.parse (":"%char :: ":"%char :: t) = Ok (IPv6.IPv6 0 (IPv6.parse_segment t)) /\
  0 <= IPv6.parse_segment t <= 0xffff.
Proof.
  intros Ht Hlen. pose proof (parse_segment_range t Ht) as Hv.
  assert (Hne : t <> []) by (intros ->; cbn [length] in Hlen; lia).
  split; [| split; [| exact Hv]].
  - set (text := t ++ ":"%char :: rest). unfold IPv6.parse.
    destruct t as [| c t'] eqn:Et; [contradiction |].
    assert (Hc : IPv6.is_hex c = true).
    { cbn [forallb] in Ht. apply andb_true_iff in Ht. apply Ht. }
    change text with (c :: (t' ++ ":"%char :: rest)) at 1. cbv iota.
    rewrite (proj1 (is_hex_not_colon c Hc)).
    unfold text at 2. rewrite IPv6_parse_loop_token by exact Ht.
    cbn [app IPv6.parse_loop]. change (IPv6.is_hex ":") with false.
    change (code ":" =? code ":") with true. cbv iota.
    replace (Z.of_nat (length (c :: t')) >? 4) with true
      by (symmetry; rewrite Z.gtb_ltb; apply Z.ltb_lt; lia).
    reflexivity.
  - set (text := ":"%char :: ":"%char :: t). unfold IPv6.parse.
    unfold text at 1. cbv iota. change (code ":" =? code ":") with true. cbn [negb].
    rewrite <- (app_nil_r t) at 1. rewrite IPv6_parse_loop_token by exact Ht.
    cbn [app IPv6.parse_loop bind]. unfold IPv6.parse_finish.
    assert (Eback : (code (last text ":"%char) =? code ":") = false).
    { unfold text. apply (back_is_hex [":"; ":"]%char t); assumption. }
    rewrite !Eback.
    cbn [andb negb IPv6.IPv4_embedded bind IPv6.push_back IPv6.in_second
         IPv6.segments_first IPv6.segments_second IPv6.segment_start app length
         Z.of_nat rev IPv6.place_first IPv6.place_second].
    change (0 + Z.pos (Pos.of_succ_nat 0) >=? 8) with false. cbv iota.
    change (0 <? 4) with true. cbv iota. cbn [IPv6.network IPv6.host].
    rewrite Z.shiftl_0_r, Z.lor_0_l. unfold wrap.
    rewrite Z.mod_small by lia. reflexivity.
Qed.

Lemma IPv6_last_segment_unchecked_witness :
  forallb IPv6.is_hex (text "12345") = true /\ (4 < length (text "12345"))%nat /\
  IPv6.parse (":"%char :: ":"%char :: text "12345") =
    Ok (IPv6.IPv6 0 (IPv6.parse_segment (text "12345"))) /\
  IPv6.parse_segment (text "12345") = 0xffff.
Proof.
  assert (H1 : forallb IPv6.is_hex (text "12345") = true) by reflexivity.
  assert (H2 : (4 < length (text "12345"))%nat) by (simpl; lia).
  split; [exact H1 |]. split; [exact H2 |].
  split; [apply (IPv6_last_segment_unchecked (text "12345") [] H1 H2) | reflexivity].
Defined.

(** * Mixed notation: a dotted-decimal suffix *)

Lemma dec_digit_is_hex (c : ascii) : is_digit_of_base 10 c -> IPv6.is_hex c = true.
Proof.
  intros Hc. apply dec_digit_of_base in Hc. destruct Hc as [Hd _].
  unfold is_dec_digit in Hd. apply andb_true_iff in Hd. destruct Hd as [H9 H0].
  unfold IPv6.is_hex. rewrite H0. rewrite Z.geb_leb in H0. rewrite Z.leb_le in H0, H9.
  replace (code c <=? code "9") with true by (symmetry; apply Z.leb_le; lia).
  rewrite !orb_true_r. reflexivity.
Qed.

Lemma put_octet_hex (o : Z) :
  0 <= o < 256 ->
  put_unsigned 10 o <> [] /\ forallb IPv6.is_hex (put_unsigned 10 o) = true.
Proof.
  intros Ho.
  destruct (put_unsigned_spec 10 ltac:(lia) dec_val
              (fun d Hd => proj2 (dec_digit_char d Hd)) 3%nat o)
    as (ds & Eds & Hlen & _ & Hall & _); [cbn; lia | lia |].
  rewrite Eds. split; [intros ->; cbn [length] in Hlen; lia |].
  apply forallb_forall. intros c Hc. rewrite Forall_forall in Hall.
  apply dec_digit_is_hex, Hall, Hc.
Qed.

(** The text of a 32-bit address starts with digits followed by a dot, and
    ends with a digit. *)
Lemma IPv4_text_shape (a : IPv4.t) :
  exists d r l t,
    IPv4.to_string a = d ++ "."%char :: r /\ forallb IPv6.is_hex d = true /\
    IPv4.to_string a = l ++ t /\ t <> [] /\ forallb IPv6.is_hex t = true.
Proof.
  unfold IPv4.to_string.
  destruct (put_octet_hex _ (octet_range (IPv4.value a) 24)) as [_ H3].
  destruct (put_octet_hex _ (octet_range (IPv4.value a) 0)) as [N0 H0].
  eexists. eexists.
  exists (put_unsigned 10 (Z.land (Z.shiftr (IPv4.value a) 24) 255) ++ "."%char ::
          put_unsigned 10 (Z.land (Z.shiftr (IPv4.value a) 16) 255) ++ "."%char ::
          put_unsigned 10 (Z.land (Z.shiftr (IPv4.value a) 8) 255) ++ ["."%char]),
         (put_unsigned 10 (Z.land (Z.shiftr (IPv4.value a) 0) 255)).
  split; [reflexivity |]. split; [exact H3 |].
  split; [| split; [exact N0 | exact H0]].
  repeat (rewrite <- app_assoc; cbn [app]). reflexivity.
Qed.

(** The loop of [parse] stops at the first dot, the text of the segment
    before it included in what is left for the 32-bit class to read. *)
Lemma IPv6_parse_loop_embedded (text d r : list ascii) (first second : list Z)
  (b : bool) :
  forallb IPv6.is_hex d = true ->
  IPv6.parse_loop text (d ++ "."%char :: r) [] first second b =
  Ok (IPv6.Scan first second b (d ++ "."%char :: r) true).
Proof.
  intros Hd. rewrite IPv6_parse_loop_token by exact Hd. reflexivity.
Qed.

Lemma embedded_halves (hi lo : Z) :
  0 <= hi < 65536 -> 0 <= lo < 65536 ->
  exists v, shl_int hi 16 = Ok v /\ IPv4.wf (IPv4.IPv4 (Z.lor v lo)) /\
    Z.shiftr (Z.lor v lo) 16 = hi /\ Z.land (Z.lor v lo) 0xffff = lo.
Proof.
  intros Hhi Hlo. exists (hi * 2 ^ 16). split.
  - unfold shl_int.
    replace ((0 <=? 16) && (16 <? 32) && (0 <=? hi) && (hi * 2 ^ 16 <? 2 ^ 32)) with true;
      [reflexivity |].
    symmetry. rewrite !andb_true_iff, !Z.leb_le, !Z.ltb_lt.
    change (2 ^ 32) with (65536 * 2 ^ 16). lia.
  - rewrite lor_disjoint by (change (2 ^ 16) with 65536; lia).
    split; [unfold IPv4.wf; cbn [IPv4.value]; change (2 ^ 32) with (65536 * 2 ^ 16); lia |].
    split.
    + rewrite Z.shiftr_div_pow2 by lia. symmetry.
      apply Z.div_unique with (r := lo); [left; change (2 ^ 16) with 65536; lia | lia].
    + change 0xffff with (Z.ones 16). rewrite Z.land_ones by lia. symmetry.
      apply Z.mod_unique with (q := hi); [left; change (2 ^ 16) with 65536; lia | lia].
Qed.

(** The statements after the loop, when the text ends with an embedded
    32-bit address. *)
Lemma IPv6_parse_finish_embedded (text v4text : list ascii) (back : ascii)
  (first second : list Z) (b : bool) (v : Z) :
  (code back =? code ":") = false -> IPv4.parse v4text = Ok (IPv4.IPv4 v) ->
  (if b then (length first + length second + 2 < 8)%nat
   else (length first + 2 = 8)%nat /\ second = []) ->
  IPv6.parse_finish text back (IPv6.Scan first second b v4text true) =
  Ok (if b
      then IPv6.place_second (rev (second ++ [Z.shiftr v 16; Z.land v 0xffff])) 0
             (IPv6.place_first first 0 (IPv6.IPv6 0 0))
      else IPv6.place_first (first ++ [Z.shiftr v 16; Z.land v 0xffff]) 0 (IPv6.IPv6 0 0)).
Proof.
  intros Eback E4 Hsize. unfold IPv6.parse_finish. rewrite Eback.
  cbn [andb IPv6.IPv4_embedded IPv6.segment_start]. rewrite E4.
  cbn [bind IPv4.value]. unfold IPv6.push_back. destruct b.
  - cbn [IPv6.in_second IPv6.segments_first IPv6.segments_second IPv6.segment_start
         IPv6.IPv4_embedded negb].
    rewrite <- app_assoc. cbn [app].
    replace (Z.of_nat (length first) +
             Z.of_nat (length (second ++ [Z.shiftr v 16; Z.land v 65535])) >=? 8)
      with false; [reflexivity |].
    symmetry. rewrite Z.geb_leb. apply Z.leb_gt. rewrite length_app. cbn [length]. lia.
  - destruct Hsize as [Hlen ->].
    cbn [IPv6.in_second IPv6.segments_first IPv6.segments_second IPv6.segment_start
         IPv6.IPv4_embedded negb].
    rewrite <- app_assoc. cbn [app rev IPv6.place_second].
    replace (Z.of_nat (length (first ++ [Z.shiftr v 16; Z.land v 65535])) =? 8) with true;
      [reflexivity |].
    symmetry. apply Z.eqb_eq. rewrite length_app. cbn [length]. lia.
Qed.

(** The text up to and including a ["::"]. *)
Lemma IPv6_parse_to_collapse (pre : list Z) (tail : list ascii) :
  Forall (fun x => 0 <= x < 65536) pre ->
  let text := join_colon (map hex pre) ++ [":"; ":"]%char ++ tail in
  exists c, IPv6.parse text =
    (st <- IPv6.parse_loop text tail [] pre [] true ;;
     IPv6.parse_finish text (last text c) st).
Proof.
  intros Hpre text. destruct pre as [| x pre].
  - exists ":"%char. reflexivity.
  - destruct (join_colon_ends (x :: pre) ltac:(discriminate) Hpre)
      as (ch & rest & _ & _ & E1 & Hch & _).
    exists ch. unfold IPv6.parse.
    assert (Etext : text = ch :: rest ++ [":"; ":"]%char ++ tail).
    { unfold text. rewrite E1. reflexivity. }
    rewrite Etext at 1. cbv iota.
    rewrite (proj1 (is_hex_not_colon ch Hch)).
    change (IPv6.parse_loop text text [] [] [] false)
      with (IPv6.parse_loop text
              (join_colon (map hex (x :: pre)) ++ ":"%char :: ":"%char :: tail)
              [] [] [] false).
    rewrite IPv6_parse_loop_join_colon by (discriminate || assumption).
    reflexivity.
Qed.

(** The text [to_string_v4_mapped] returns is read back as the address. *)
Lemma IPv6_mixed_parse (a : IPv6.t) :
  IPv6.wf a ->
  exists text,
    IPv6.to_string_v4_mapped a = Ok text /\ IPv6.parse text = Ok a.
Proof.
  intros Ha.
  pose proof (segmentize_range a) as Hrange.
  pose proof (place_first_segmentize a Ha) as Hplace.
  unfold IPv6.to_string_v4_mapped.
  assert (Esegs : exists s0 s1 s2 s3 s4 s5 s6 s7,
             IPv6.segmentize a = [s0; s1; s2; s3; s4; s5; s6; s7])
    by (repeat eexists; reflexivity).
  destruct Esegs as (s0 & s1 & s2 & s3 & s4 & s5 & s6 & s7 & Esegs).
  rewrite Esegs in *. cbn [length Nat.sub firstn nth].
  set (six := [s0; s1; s2; s3; s4; s5]).
  assert (Hsix : Forall (fun x => 0 <= x < 65536) six).
  { unfold six. repeat (inversion Hrange as [| ? ? ? Hrange']; subst; clear Hrange;
                         rename Hrange' into Hrange; constructor; [assumption |]).
    constructor. }
  assert (H6 : 0 <= s6 < 65536) by (rewrite Forall_forall in Hrange; apply Hrange; cbn; tauto).
  assert (H7 : 0 <= s7 < 65536) by (rewrite Forall_forall in Hrange; apply Hrange; cbn; tauto).
  destruct (embedded_halves s6 s7 H6 H7) as (v & Ev & Hv & Ehi & Elo).
  rewrite Ev. cbn [bind].
  destruct (IPv4_text_shape (IPv4.IPv4 (Z.lor v s7))) as (d & r & l4 & t4 & Ed & Hd & El4 & Ht4 & Hhex4).
  pose proof (IPv4_round_trip _ Hv) as E4.
  set (v4text := IPv4.to_string (IPv4.IPv4 (Z.lor v s7))) in *.
  destruct (collapse_spec six) as (s & len & Hrun & _ & Etext).
  destruct (2 <=? len)%nat eqn:Elen.
  - (* the segments are written with a "::" *)
    apply Nat.leb_le in Elen. pose proof Hrun as [Hle _]. cbn [length six] in Hle.
    pose proof (zero_run_split six s len Hrun) as Esplit.
    set (pre := firstn s six) in *. set (post := skipn (s + len) six) in *.
    assert (Hpre : Forall (fun x => 0 <= x < 65536) pre)
      by apply (Forall_firstn_skipn _ six s Hsix).
    assert (Hpost : Forall (fun x => 0 <= x < 65536) post)
      by apply (Forall_firstn_skipn _ six (s + len) Hsix).
    assert (Lpre : length pre = s) by (unfold pre; rewrite length_firstn; cbn [length six]; lia).
    assert (Lpost : length post = (6 - (s + len))%nat)
      by (unfold post; rewrite length_skipn; reflexivity).
    set (sep := if match post with [] => true | _ => false end
                then [] else join_colon (map hex post) ++ [":"%char]).
    set (text := join_colon (map hex pre) ++ [":"; ":"]%char ++ sep ++ v4text).
    assert (Eout : match IPv6.collapse six with
                   | [] => Undefined
                   | c :: _ =>
                     Ok (IPv6.collapse six ++
                         (if code (last (IPv6.collapse six) c) =? code ":"
                          then [] else [":"%char]) ++ v4text)
                   end = Ok text).
    { destruct (IPv6.collapse six) as [| c rest] eqn:Ec;
        [destruct (join_colon (map hex pre)); discriminate Etext |].
      f_equal. rewrite Etext. unfold text, sep. rewrite <- !app_assoc. do 2 f_equal.
      destruct post as [| y post'].
      - cbn [map join_colon app].
        rewrite last_app_nonempty by discriminate. reflexivity.
      - destruct (join_colon_ends (y :: post') ltac:(discriminate) Hpost)
          as (_ & _ & l & t & _ & _ & E2 & Ht & Hhex).
        replace (code (last (join_colon (map hex pre) ++ [":"; ":"]%char ++
                             join_colon (map hex (y :: post'))) c) =? code ":")
          with false.
        + rewrite <- !app_assoc. reflexivity.
        + symmetry. rewrite E2, !app_assoc. apply back_is_hex; assumption. }
    fold six. rewrite Eout. exists text. split; [reflexivity |].
    destruct (IPv6_parse_to_collapse pre (sep ++ v4text) Hpre) as (c & Eparse).
    cbv zeta in Eparse. fold text in Eparse. rewrite Eparse.
    assert (Eloop : IPv6.parse_loop text (sep ++ v4text) [] pre [] true =
                    Ok (IPv6.Scan pre post true v4text true)).
    { unfold sep. destruct post as [| y post'].
      - cbn [app]. rewrite Ed. apply IPv6_parse_loop_embedded, Hd.
      - rewrite <- app_assoc. cbn [app].
        rewrite IPv6_parse_loop_join_colon by (discriminate || assumption).
        cbn [app]. rewrite Ed. apply IPv6_parse_loop_embedded, Hd. }
    rewrite Eloop. cbn [bind].
    assert (Eback : (code (last text c) =? code ":") = false).
    { unfold text. rewrite El4, !app_assoc. apply back_is_hex; assumption. }
    rewrite (IPv6_parse_finish_embedded text v4text (last text c) pre post true
               (Z.lor v s7) Eback E4) by (rewrite Lpre, Lpost; lia).
    rewrite Ehi, Elo. f_equal.
    rewrite place_second_rev by (rewrite ?length_app; cbn [length]; lia).
    rewrite <- Hplace.
    change [s0; s1; s2; s3; s4; s5; s6; s7] with (six ++ [s6; s7]).
    rewrite Esplit, <- !app_assoc.
    rewrite (place_first_app pre (repeat 0 len ++ post ++ [s6; s7])), place_first_zeros.
    f_equal.
    rewrite length_app, Lpre, Lpost. cbn [length]. lia.
  - (* all six segments are written *)
    apply Nat.leb_gt in Elen.
    destruct (join_colon_ends six ltac:(discriminate) Hsix)
      as (ch & rest & l & t & E1 & Hch & E2 & Ht & Hhex).
    set (text := join_colon (map hex six) ++ ":"%char :: v4text).
    assert (Eout : match IPv6.collapse six with
                   | [] => Undefined
                   | c :: _ =>
                     Ok (IPv6.collapse six ++
                         (if code (last (IPv6.collapse six) c) =? code ":"
                          then [] else [":"%char]) ++ v4text)
                   end = Ok text).
    { rewrite Etext, E1. rewrite <- E1.
      replace (code (last (join_colon (map hex six)) ch) =? code ":") with false
        by (symmetry; rewrite E2; apply back_is_hex; assumption).
      reflexivity. }
    fold six. rewrite Eout. exists text. split; [reflexivity |].
    unfold IPv6.parse.
    assert (Etext' : text = ch :: rest ++ ":"%char :: v4text)
      by (unfold text; rewrite E1; reflexivity).
    rewrite Etext' at 1. cbv iota. rewrite (proj1 (is_hex_not_colon ch Hch)).
    unfold text at 2.
    rewrite IPv6_parse_loop_join_colon by (discriminate || assumption).
    cbn [app]. rewrite Ed, IPv6_parse_loop_embedded by exact Hd. cbn [bind].
    rewrite <- Ed.
    assert (Eback : (code (last text ch) =? code ":") = false).
    { unfold text. rewrite El4.
      change (join_colon (map hex six) ++ ":"%char :: l4 ++ t4)
        with (join_colon (map hex six) ++ [":"%char] ++ l4 ++ t4).
      rewrite !app_assoc. apply back_is_hex; assumption. }
    rewrite (IPv6_parse_finish_embedded text v4text (last text ch) six [] false
               (Z.lor v s7) Eback E4) by (split; reflexivity).
    rewrite Ehi, Elo. f_equal. exact Hplace.
Qed.

(** * Mixed notation: the text *)

(** What [buf << std::dec] writes for an octet. *)
Lemma dec_written (o : Z) : 0 <= o < 256 -> written_dec o (put_unsigned 10 o).
Proof.
  intros Ho.
  destruct (put_unsigned_spec 10 ltac:(lia) dec_val
              (fun d Hd => proj2 (dec_digit_char d Hd)) 3%nat o)
    as (ds & Eds & Hlen & Hval & Hall & Hlead); [cbn; lia | lia |].
  rewrite Eds. split; [exact Hlen |].
  split.
  { apply forallb_forall. intros ch Hch. rewrite Forall_forall in Hall.
    destruct (Hall ch Hch) as (d & Hd & ->). apply dec_digit_char, Hd. }
  split; [| exact Hval].
  destruct Hlead as [[_ ->] | (d & rest & -> & Hd)]; [exact I |].
  destruct rest; [exact I |]. cbn [no_leading_zero].
  intros E. pose proof (proj2 (dec_digit_char d ltac:(lia))) as Ed.
  rewrite E in Ed. change (code "0" - code "0") with 0 in Ed. lia.
Qed.

Lemma last_default {A : Type} (l : list A) (d d' : A) :
  l <> [] -> last l d = last l d'.
Proof.
  induction l as [| x l IH]; intros Hl; [contradiction Hl; reflexivity |].
  destruct l as [| y l]; [reflexivity |].
  change (last (y :: l) d = last (y :: l) d'). apply IH. discriminate.
Qed.

(** The octets of the 32 bits that the last two segments hold. *)
Lemma mapped_octet (V k : Z) :
  0 <= k -> k + 8 <= 32 ->
  Z.land (Z.shiftr (Z.lor (((V / 2 ^ 16) mod 2 ^ 16) * 2 ^ 16) (V mod 2 ^ 16)) k) 0xff =
  (V / 2 ^ k) mod 2 ^ 8.
Proof.
  intros Hk Hk8.
  rewrite lor_disjoint by (try apply Z.mod_pos_bound; lia).
  replace ((V / 2 ^ 16) mod 2 ^ 16 * 2 ^ 16 + V mod 2 ^ 16) with (V mod 2 ^ 32)
    by (change (2 ^ 32) with (2 ^ 16 * 2 ^ 16); rewrite Z.rem_mul_r by lia; lia).
  change 0xff with (Z.ones 8). rewrite land_shiftr_div by lia.
  rewrite <- !Z.shiftr_div_pow2, <- !Z.land_ones by lia.
  apply Z.bits_inj'. intros i Hi.
  rewrite !Z.land_spec, !Z.shiftr_spec, Z.land_spec by lia.
  destruct (Z.lt_ge_cases i 8) as [Hlo | Hhi].
  - rewrite (Z.ones_spec_low 32) by lia. rewrite andb_true_r. reflexivity.
  - rewrite (Z.ones_spec_high 8) by lia. rewrite !andb_false_r. reflexivity.
Qed.

(** The text [to_string_v4_mapped] returns: the compressed notation of the
    first six groups, then the last 32 bits as four decimal numbers. *)
Lemma to_string_v4_mapped_text (a : IPv6.t) :
  IPv6.wf a ->
  exists v6part d3 d2 d1 d0,
    compressed (firstn 6 (groups (IPv6_to_Z a))) v6part /\
    written_dec ((IPv6_to_Z a / 2 ^ 24) mod 2 ^ 8) d3 /\
    written_dec ((IPv6_to_Z a / 2 ^ 16) mod 2 ^ 8) d2 /\
    written_dec ((IPv6_to_Z a / 2 ^ 8) mod 2 ^ 8) d1 /\
    written_dec ((IPv6_to_Z a / 2 ^ 0) mod 2 ^ 8) d0 /\
    IPv6.to_string_v4_mapped a =
      Ok (v6part ++
          (if code (last v6part ":"%char) =? code ":" then [] else [":"%char]) ++
          d3 ++ "."%char :: d2 ++ "."%char :: d1 ++ "."%char :: d0).
Proof.
  intros Ha. unfold IPv6.to_string_v4_mapped.
  pose proof (segmentize_range a) as Hrange.
  rewrite (segmentize_groups a Ha) in *.
  set (V := IPv6_to_Z a) in *.
  assert (Hsix : Forall (fun x => 0 <= x < 65536) (firstn 6 (groups V))).
  { apply (Forall_firstn_skipn _ (groups V) 6 Hrange). }
  pose proof (collapse_compressed _ Hsix) as C.
  change (firstn (length (groups V) - 2) (groups V)) with (firstn 6 (groups V)).
  set (v6part := IPv6.collapse (firstn 6 (groups V))) in *.
  assert (Hne : v6part <> []).
  { destruct C as (s & len & texts & _ & _ & Htexts & ->).
    destruct (2 <=? len)%nat; [destruct (join_colon (firstn s texts)); discriminate |].
    unfold groups in Htexts. cbn [map firstn] in Htexts.
    inversion Htexts as [| x t ? ts Hx Hts]; subst.
    destruct Hx as (Hlen & _). destruct t as [| c t]; [cbn [length] in Hlen; lia |].
    destruct ts; discriminate. }
  assert (H6 : nth 6 (groups V) 0 = (V / 2 ^ 16) mod 2 ^ 16) by reflexivity.
  assert (H7 : nth 7 (groups V) 0 = V mod 2 ^ 16).
  { unfold groups. cbn [map nth]. change (16 * (7 - 7)) with 0.
    rewrite Z.pow_0_r, Z.div_1_r. reflexivity. }
  rewrite H6, H7.
  assert (R6 : 0 <= (V / 2 ^ 16) mod 2 ^ 16 < 65536) by (apply Z.mod_pos_bound; lia).
  assert (R7 : 0 <= V mod 2 ^ 16 < 65536) by (apply Z.mod_pos_bound; lia).
  destruct (embedded_halves _ _ R6 R7) as (v & Ev & _).
  assert (Ev' : v = (V / 2 ^ 16) mod 2 ^ 16 * 2 ^ 16).
  { unfold shl_int in Ev.
    destruct ((0 <=? 16) && (16 <? 32) && (0 <=? (V / 2 ^ 16) mod 2 ^ 16) &&
              ((V / 2 ^ 16) mod 2 ^ 16 * 2 ^ 16 <? 2 ^ 32)); congruence. }
  destruct v6part as [| c rest] eqn:Ec; [contradiction Hne; reflexivity |].
  rewrite Ev. cbn [bind]. rewrite <- Ec in *. subst v.
  exists v6part, (put_unsigned 10 ((V / 2 ^ 24) mod 2 ^ 8)),
    (put_unsigned 10 ((V / 2 ^ 16) mod 2 ^ 8)), (put_unsigned 10 ((V / 2 ^ 8) mod 2 ^ 8)),
    (put_unsigned 10 ((V / 2 ^ 0) mod 2 ^ 8)).
  split; [exact C |].
  repeat (split; [apply dec_written, Z.mod_pos_bound; lia |]).
  rewrite (last_default v6part c ":"%char Hne).
  unfold IPv4.to_string. cbn [IPv4.value]. rewrite !mapped_octet by lia. reflexivity.
Qed.

(** X16. Mixed notation. [to_string_v4_mapped] returns, for every address
    whose fields hold values of their type, the compressed notation of the
    first six 16-bit groups of its number (the first of their longest runs
    of zero groups replaced by ["::"] when it has two groups or more), then
    the four octets of the last 32 bits as decimal numbers without leading
    zeros, separated by dots, with a colon in between unless the text of the
    six groups ends with a colon; and [parse] reads that text back as the
    address. *)
Theorem IPv6_mixed_round_trip (a : IPv6.t) :
  IPv6.wf a ->
  exists v6part d3 d2 d1 d0,
    compressed (firstn 6 (groups (IPv6_to_Z a))) v6part /\
    written_dec ((IPv6_to_Z a / 2 ^ 24) mod 2 ^ 8) d3 /\
    written_dec ((IPv6_to_Z a / 2 ^ 16) mod 2 ^ 8) d2 /\
    written_dec ((IPv6_to_Z a / 2 ^ 8) mod 2 ^ 8) d1 /\
    written_dec ((IPv6_to_Z a / 2 ^ 0) mod 2 ^ 8) d0 /\
    IPv6.to_string_v4_mapped a =
      Ok (v6part ++
          (if code (last v6part ":"%char) =? code ":" then [] else [":"%char]) ++
          d3 ++ "."%char :: d2 ++ "."%char :: d1 ++ "."%char :: d0) /\
    IPv6.parse
      (v6part ++
       (if code (last v6part ":"%char) =? code ":" then [] else [":"%char]) ++
       d3 ++ "."%char :: d2 ++ "."%char :: d1 ++ "."%char :: d0) = Ok a.
Proof.
  intros Ha.
  destruct (to_string_v4_mapped_text a Ha)
    as (v6part & d3 & d2 & d1 & d0 & C & W3 & W2 & W1 & W0 & Etext).
  destruct (IPv6_mixed_parse a Ha) as (text & Etext' & Eparse).
  exists v6part, d3, d2, d1, d0. repeat (split; [assumption |]).
  rewrite Etext in Etext'. injection Etext' as <-. exact Eparse.
Qed.

Lemma IPv6_mixed_round_trip_witness :
  IPv6.wf (IPv6.IPv6 0x20010db800000000 0x00000000102000ff) /\
  IPv6.to_string_v4_mapped (IPv6.IPv6 0x20010db800000000 0x00000000102000ff) =
    Ok (text "2001:db8::16.32.0.255") /\
  exists v6part d3 d2 d1 d0,
    compressed
      (firstn 6 (groups (IPv6_to_Z (IPv6.IPv6 0x20010db800000000 0x00000000102000ff))))
      v6part /\
    written_dec
      ((IPv6_to_Z (IPv6.IPv6 0x20010db800000000 0x00000000102000ff) / 2 ^ 24) mod 2 ^ 8) d3 /\
    written_dec
      ((IPv6_to_Z (IPv6.IPv6 0x20010db800000000 0x00000000102000ff) / 2 ^ 16) mod 2 ^ 8) d2 /\
    written_dec
      ((IPv6_to_Z (IPv6.IPv6 0x20010db800000000 0x00000000102000ff) / 2 ^ 8) mod 2 ^ 8) d1 /\
    written_dec
      ((IPv6_to_Z (IPv6.IPv6 0x20010db800000000 0x00000000102000ff) / 2 ^ 0) mod 2 ^ 8) d0 /\
    IPv6.to_string_v4_mapped (IPv6.IPv6 0x20010db800000000 0x00000000102000ff) =
      Ok (v6part ++
          (if code (last v6part ":"%char) =? code ":" then [] else [":"%char]) ++
          d3 ++ "."%char :: d2 ++ "."%char :: d1 ++ "."%char :: d0) /\
    IPv6.parse
      (v6part ++
       (if code (last v6part ":"%char) =? code ":" then [] else [":"%char]) ++
       d3 ++ "."%char :: d2 ++ "."%char :: d1 ++ "."%char :: d0) =
    Ok (IPv6.IPv6 0x20010db800000000 0x00000000102000ff).
Proof.
  assert (H6 : IPv6.wf (IPv6.IPv6 0x20010db800000000 0x00000000102000ff))
    by (unfold IPv6.wf; simpl; lia).
  split; [exact H6 |]. split; [vm_compute; reflexivity |].
  exact (IPv6_mixed_round_trip (IPv6.IPv6 0x20010db800000000 0x00000000102000ff) H6).
Defined.

(** * Colon-hexadecimal notation: the texts of segments *)

Section SegmentTexts.

Variable text : list ascii.

Lemma IPv6_parse_loop_group (t rest : list ascii) (first second : list Z) (b : bool) :
  segment_text t ->
  IPv6.parse_loop text (t ++ ":"%char :: rest) [] first second b =
  if b then IPv6.parse_loop text rest [] first (second ++ [IPv6.parse_segment t]) true
  else IPv6.parse_loop text rest [] (first ++ [IPv6.parse_segment t]) second false.
Proof.
  intros [Hlen Hhex]. rewrite IPv6_parse_loop_token by exact Hhex. cbn [app].
  apply IPv6_parse_loop_colon, Hlen.
Qed.

Lemma IPv6_parse_loop_groups (ts : list (list ascii)) (rest : list ascii)
  (first second : list Z) (b : bool) :
  ts <> [] -> Forall segment_text ts ->
  IPv6.parse_loop text (join_colon ts ++ ":"%char :: rest) [] first second b =
  if b then IPv6.parse_loop text rest [] first (second ++ map IPv6.parse_segment ts) true
  else IPv6.parse_loop text rest [] (first ++ map IPv6.parse_segment ts) second false.
Proof.
  intros Hne Hts. revert first second.
  induction Hts as [| t ts Ht Hts IH]; intros first second; [contradiction |].
  destruct ts as [| u ts].
  - cbn [map join_colon]. apply IPv6_parse_loop_group, Ht.
  - change (join_colon (t :: u :: ts)) with (t ++ ":"%char :: join_colon (u :: ts)).
    rewrite <- app_assoc. cbn [app].
    rewrite IPv6_parse_loop_group by exact Ht.
    change (map IPv6.parse_segment (t :: u :: ts))
      with ([IPv6.parse_segment t] ++ map IPv6.parse_segment (u :: ts)).
    destruct b; rewrite IH by discriminate; rewrite <- app_assoc; reflexivity.
Qed.

Lemma IPv6_parse_loop_groups_end (ts : list (list ascii)) (first second : list Z)
  (b : bool) :
  ts <> [] -> Forall segment_text ts ->
  exists st,
    IPv6.parse_loop text (join_colon ts) [] first second b = Ok st /\
    IPv6.IPv4_embedded st = false /\
    IPv6.push_back st (IPv6.parse_segment (IPv6.segment_start st)) =
    if b then IPv6.Scan first (second ++ map IPv6.parse_segment ts) true
                (IPv6.segment_start st) false
    else IPv6.Scan (first ++ map IPv6.parse_segment ts) second false
           (IPv6.segment_start st) false.
Proof.
  intros Hne Hts. revert first second.
  induction Hts as [| t ts Ht Hts IH]; intros first second; [contradiction |].
  destruct ts as [| u ts].
  - cbn [map join_colon]. destruct Ht as [_ Hhex].
    assert (E : IPv6.parse_loop text t [] first second b =
                IPv6.parse_loop text [] ([] ++ t) first second b).
    { rewrite <- (IPv6_parse_loop_token text t [] [] first second b Hhex), app_nil_r.
      reflexivity. }
    rewrite E. cbn [app IPv6.parse_loop]. eexists. split; [reflexivity |].
    split; [reflexivity |].
    unfold IPv6.push_back. cbn [IPv6.in_second IPv6.segment_start IPv6.segments_first
                                 IPv6.segments_second IPv6.IPv4_embedded].
    destruct b; reflexivity.
  - change (join_colon (t :: u :: ts)) with (t ++ ":"%char :: join_colon (u :: ts)).
    rewrite IPv6_parse_loop_group by exact Ht.
    change (map IPv6.parse_segment (t :: u :: ts))
      with ([IPv6.parse_segment t] ++ map IPv6.parse_segment (u :: ts)).
    destruct b.
    + destruct (IH ltac:(discriminate) first (second ++ [IPv6.parse_segment t]))
        as (st & E & Hemb & Hpush).
      exists st. rewrite <- app_assoc in Hpush. tauto.
    + destruct (IH ltac:(discriminate) (first ++ [IPv6.parse_segment t]) second)
        as (st & E & Hemb & Hpush).
      exists st. rewrite <- app_assoc in Hpush. tauto.
Qed.

End SegmentTexts.

Lemma join_groups_ends (ts : list (list ascii)) :
  ts <> [] -> Forall segment_text ts ->
  exists ch rest l t,
    join_colon ts = ch :: rest /\ IPv6.is_hex ch = true /\
    join_colon ts = l ++ t /\ t <> [] /\ forallb IPv6.is_hex t = true.
Proof.
  intros Hne Hts. induction Hts as [| x ts Hx Hts IH]; [contradiction |].
  destruct Hx as [Hlen Hhex].
  destruct x as [| ch t] eqn:Et; [cbn [length] in Hlen; lia |].
  assert (Hch : IPv6.is_hex ch = true).
  { cbn [forallb] in Hhex. apply andb_true_iff in Hhex. apply Hhex. }
  destruct ts as [| y ts].
  - cbn [join_colon].
    exists ch, t, [], (ch :: t). repeat split; try assumption. discriminate.
  - destruct (IH ltac:(discriminate)) as (ch0 & rest0 & l' & t' & _ & _ & El & Ht' & Hhex').
    change (join_colon ((ch :: t) :: y :: ts))
      with ((ch :: t) ++ ":"%char :: join_colon (y :: ts)).
    rewrite El.
    exists ch, (t ++ ":"%char :: l' ++ t'), ((ch :: t) ++ ":"%char :: l'), t'.
    split; [reflexivity |]. split; [exact Hch |].
    split; [rewrite <- app_assoc; reflexivity |]. split; assumption.
Qed.

(** The text up to and including a ["::"]. *)
Lemma IPv6_parse_to_collapse_groups (pre : list (list ascii)) (tail : list ascii) :
  Forall segment_text pre ->
  let text := join_colon pre ++ [":"; ":"]%char ++ tail in
  exists c, IPv6.parse text =
    (st <- IPv6.parse_loop text tail [] (map IPv6.parse_segment pre) [] true ;;
     IPv6.parse_finish text (last text c) st).
Proof.
  intros Hpre text. destruct pre as [| x pre].
  - exists ":"%char. reflexivity.
  - destruct (join_groups_ends (x :: pre) ltac:(discriminate) Hpre)
      as (ch & rest & _ & _ & E1 & Hch & _).
    exists ch. unfold IPv6.parse.
    assert (Etext : text = ch :: rest ++ [":"; ":"]%char ++ tail).
    { unfold text. rewrite E1. reflexivity. }
    rewrite Etext at 1. cbv iota.
    rewrite (proj1 (is_hex_not_colon ch Hch)).
    change (IPv6.parse_loop text text [] [] [] false)
      with (IPv6.parse_loop text
              (join_colon (x :: pre) ++ ":"%char :: ":"%char :: tail) [] [] [] false).
    rewrite IPv6_parse_loop_groups by (discriminate || assumption).
    reflexivity.
Qed.

Lemma IPv6_parse_eight (ts : list (list ascii)) :
  ts <> [] -> Forall segment_text ts ->
  IPv6.parse (join_colon ts) =
  if (length ts =? 8)%nat
  then Ok (IPv6.place_first (map IPv6.parse_segment ts) 0 (IPv6.IPv6 0 0))
  else Throw (Invalid_IPv6_format (join_colon ts)).
Proof.
  intros Hne Hts.
  destruct (join_groups_ends ts Hne Hts) as (ch & rest & l & t & E1 & Hch & E2 & Ht & Hhex).
  destruct (IPv6_parse_loop_groups_end (join_colon ts) ts [] [] false Hne Hts)
    as (st & Eloop & Hemb & Hpush).
  unfold IPv6.parse. rewrite E1. cbv iota.
  rewrite (proj1 (is_hex_not_colon ch Hch)). rewrite <- E1.
  rewrite Eloop. cbn [bind]. unfold IPv6.parse_finish.
  assert (Eback : (code (last (join_colon ts) ch) =? code ":") = false)
    by (rewrite E2; apply back_is_hex; assumption).
  rewrite !Eback. cbn [andb negb].
  rewrite Hemb. cbn [bind]. rewrite Hpush.
  cbn [IPv6.in_second IPv6.segments_first IPv6.segments_second negb app].
  rewrite length_map. destruct (Nat.eqb_spec (length ts) 8) as [E8 | N8].
  - rewrite E8. reflexivity.
  - replace (Z.of_nat (length ts) =? 8) with false by (symmetry; apply Z.eqb_neq; lia).
    reflexivity.
Qed.




(** * The full notation *)

Lemma nibble_range (x : Z) : 0 <= Z.land x 0xf < 16.
Proof.
  change 0xf with (Z.ones 4). rewrite Z.land_ones by lia.
  apply Z.mod_pos_bound. reflexivity.
Qed.

Lemma put_nibble (d : Z) : 0 <= d < 16 -> put_unsigned 16 d = [digit_char d].
Proof.
  intros Hd. unfold put_unsigned. cbn [put_digits].
  rewrite Z.div_small, Z.mod_small by lia. reflexivity.
Qed.

Lemma nibble_of_segment (part sh j : Z) :
  0 <= sh -> 0 <= j <= 12 ->
  Z.land (Z.shiftr (Z.land (Z.shiftr part sh) 0xffff) j) 0xf =
  Z.land (Z.shiftr part (sh + j)) 0xf.
Proof.
  intros Hsh Hj. apply Z.bits_inj'. intros i Hi.
  rewrite !Z.land_spec, !Z.shiftr_spec, Z.land_spec, Z.shiftr_spec by lia.
  change 0xffff with (Z.ones 16). change 0xf with (Z.ones 4).
  destruct (Z.lt_ge_cases i 4) as [Hlo | Hhi].
  - rewrite (Z.ones_spec_low 16), (Z.ones_spec_low 4) by lia.
    rewrite !andb_true_r. f_equal. lia.
  - rewrite (Z.ones_spec_high 4) by lia. rewrite !andb_false_r. reflexivity.
Qed.

Lemma nibbles_value (x : Z) :
  0 <= x < 65536 ->
  ((Z.land (Z.shiftr x 12) 0xf * 16 + Z.land (Z.shiftr x 8) 0xf) * 16 +
   Z.land (Z.shiftr x 4) 0xf) * 16 + Z.land (Z.shiftr x 0) 0xf = x.
Proof.
  intros Hx. change 0xf with (Z.ones 4). rewrite !Z.land_ones by lia.
  rewrite !Z.shiftr_div_pow2 by lia.
  change (2 ^ 12) with (2 ^ 4 * (2 ^ 4 * 2 ^ 4)). change (2 ^ 8) with (2 ^ 4 * 2 ^ 4).
  change (2 ^ 0) with 1. rewrite Z.div_1_r.
  rewrite <- !Z.div_div by lia. change (2 ^ 4) with 16.
  pose proof (Z.div_mod x 16 ltac:(lia)).
  pose proof (Z.div_mod (x / 16) 16 ltac:(lia)).
  pose proof (Z.div_mod (x / 16 / 16) 16 ltac:(lia)).
  assert (x / 16 / 16 / 16 < 16).
  { rewrite !Z.div_div by lia. apply Z.div_lt_upper_bound; lia. }
  assert (0 <= x / 16 / 16 / 16) by (repeat apply Z.div_pos; lia).
  rewrite (Z.mod_small (x / 16 / 16 / 16)) by lia. lia.
Qed.

(** A segment written with four digits is a text [parse] takes, and is
    read back as the segment. *)
Lemma hex4_segment (x : Z) :
  0 <= x < 65536 -> segment_text (hex4 x) /\ IPv6.parse_segment (hex4 x) = x.
Proof.
  intros Hx. unfold hex4.
  pose proof (nibble_range (Z.shiftr x 12)) as R3.
  pose proof (nibble_range (Z.shiftr x 8)) as R2.
  pose proof (nibble_range (Z.shiftr x 4)) as R1.
  pose proof (nibble_range (Z.shiftr x 0)) as R0.
  destruct (hex_digit_char _ R3) as (_ & H3 & V3 & _).
  destruct (hex_digit_char _ R2) as (_ & H2 & V2 & _).
  destruct (hex_digit_char _ R1) as (_ & H1 & V1 & _).
  destruct (hex_digit_char _ R0) as (_ & H0 & V0 & _).
  split.
  - split; [cbn [length]; lia |]. cbn [forallb]. rewrite H3, H2, H1, H0. reflexivity.
  - unfold IPv6.parse_segment. cbn [fold_left]. rewrite V3, V2, V1, V0.
    change (0 * 16) with 0. rewrite Z.add_0_l, nibbles_value by exact Hx.
    replace (x >? 65535) with false; [reflexivity |].
    symmetry. rewrite Z.gtb_ltb. apply Z.ltb_ge. lia.
Qed.

Lemma print_digit_spec (part : Z) (buf : list ascii) (i : Z) :
  IPv6.print_digit part buf i =
  (buf ++ [digit_char (Z.land (Z.shiftr part (i * 4)) 0xf)]) ++
  (if (i mod 4 =? 0) && negb (i =? 0) then [":"%char] else []).
Proof.
  unfold IPv6.print_digit. rewrite put_nibble by apply nibble_range.
  destruct ((i mod 4 =? 0) && negb (i =? 0)); [reflexivity |].
  rewrite app_nil_r. reflexivity.
Qed.

(** What [print_part] appends: the four segments of the part, each with
    four digits, with colons between them. *)
Lemma print_part_spec (part : Z) (buf : list ascii) :
  IPv6.print_part part buf =
  buf ++ join_colon (map hex4 [Z.land (Z.shiftr part 48) 0xffff;
                               Z.land (Z.shiftr part 32) 0xffff;
                               Z.land (Z.shiftr part 16) 0xffff;
                               Z.land (Z.shiftr part 0) 0xffff]).
Proof.
  unfold IPv6.print_part.
  change (map Z.of_nat (rev (seq 0 16)))
    with [15; 14; 13; 12; 11; 10; 9; 8; 7; 6; 5; 4; 3; 2; 1; 0].
  cbn [fold_left]. rewrite !print_digit_spec.
  cbn [map join_colon]. unfold hex4. rewrite !nibble_of_segment by lia.
  cbv - [digit_char Z.land Z.shiftr app].
  repeat (rewrite <- !app_assoc; cbn [app]).
  reflexivity.
Qed.

Lemma to_string_full_spec (a : IPv6.t) :
  IPv6.to_string_full a = join_colon (map hex4 (IPv6.segmentize a)).
Proof.
  unfold IPv6.to_string_full. rewrite !print_part_spec.
  unfold IPv6.segmentize. cbn [map app join_colon].
  repeat (rewrite <- !app_assoc; cbn [app]). reflexivity.
Qed.

(** X17. The full notation. [to_string_full] writes the eight segments
    with four hexadecimal digits each and a colon between each two, 39
    characters in all, and [parse] reads that text back as the address. *)
Theorem IPv6_full_round_trip (a : IPv6.t) :
  IPv6.wf a ->
  IPv6.to_string_full a = join_colon (map hex4 (IPv6.segmentize a)) /\
  length (IPv6.to_string_full a) = 39%nat /\
  IPv6.parse (IPv6.to_string_full a) = Ok a.
Proof.
  intros Ha. pose proof (segmentize_range a) as Hrange.
  split; [apply to_string_full_spec |]. rewrite to_string_full_spec.
  split; [reflexivity |].
  rewrite IPv6_parse_eight.
  - rewrite length_map. change (length (IPv6.segmentize a) =? 8)%nat with true. cbv iota.
    f_equal. rewrite map_map.
    rewrite (map_ext_in _ (fun x => x)), map_id.
    + apply place_first_segmentize, Ha.
    + intros x Hx. rewrite Forall_forall in Hrange. apply hex4_segment, Hrange, Hx.
  - discriminate.
  - apply Forall_map. eapply Forall_impl; [| exact Hrange].
    intros x Hx. apply hex4_segment, Hx.
Qed.

Lemma IPv6_full_round_trip_witness :
  IPv6.wf (IPv6.IPv6 0x20010db800000000 0x00000000102000ff) /\
  IPv6.to_string_full (IPv6.IPv6 0x20010db800000000 0x00000000102000ff) =
    text "2001:0db8:0000:0000:0000:0000:1020:00ff" /\
  IPv6.parse (IPv6.to_string_full (IPv6.IPv6 0x20010db800000000 0x00000000102000ff)) =
    Ok (IPv6.IPv6 0x20010db800000000 0x00000000102000ff).
Proof.
  assert (H6 : IPv6.wf (IPv6.IPv6 0x20010db800000000 0x00000000102000ff))
    by (unfold IPv6.wf; simpl; lia).
  split; [exact H6 |].
  pose proof (IPv6_full_round_trip (IPv6.IPv6 0x20010db800000000 0x00000000102000ff) H6)
    as (E & _ & P).
  split; [rewrite E; reflexivity | exact P].
Defined.

(** * Colon-hexadecimal notation: texts that are refused *)

(** X20. Texts that are refused. Each segment being written with one to
    four hexadecimal digits: a text with a second ["::"] is refused,
    whatever follows it; so is a text that ends with a single colon, after
    segments separated by colons or after segments that follow a ["::"]. *)
Theorem IPv6_parse_refuses (pre mid ts post : list (list ascii)) (rest : list ascii) :
  Forall segment_text pre -> Forall segment_text mid ->
  Forall segment_text ts -> Forall segment_text post -> ts <> [] -> post <> [] ->
  (exists e, IPv6.parse (join_colon pre ++ [":"; ":"]%char ++
                         join_colon mid ++ [":"; ":"]%char ++ rest) = Throw e /\
             MalformedAddress e) /\
  (exists e, IPv6.parse (join_colon ts ++ [":"%char]) = Throw e /\ MalformedAddress e) /\
  (exists e, IPv6.parse (join_colon pre ++ [":"; ":"]%char ++
                         join_colon post ++ [":"%char]) = Throw e /\
             MalformedAddress e).
Proof.
  intros Hpre Hmid Hts Hpost Nts Npost.
  split; [| split].
  - set (tail := join_colon mid ++ [":"; ":"]%char ++ rest).
    destruct (IPv6_parse_to_collapse_groups pre tail Hpre) as (c & ->).
    exists (Invalid_IPv6_format (join_colon pre ++ [":"; ":"]%char ++ tail)).
    split; [| exact I].
    unfold tail. destruct mid as [| m mid].
    + cbn [join_colon app IPv6.parse_loop]. reflexivity.
    + cbn [app]. rewrite IPv6_parse_loop_groups by (discriminate || assumption).
      cbn [IPv6.parse_loop]. reflexivity.
  - destruct (join_groups_ends ts Nts Hts) as (ch & r & _ & _ & E1 & Hch & _).
    set (text := join_colon ts ++ [":"%char]).
    exists (Invalid_IPv6_format text). split; [| exact I]. unfold IPv6.parse.
    assert (Etext : text = ch :: r ++ [":"%char]) by (unfold text; rewrite E1; reflexivity).
    rewrite Etext at 1. cbv iota. rewrite (proj1 (is_hex_not_colon ch Hch)).
    unfold text at 2. rewrite IPv6_parse_loop_groups by assumption.
    cbn [IPv6.parse_loop bind]. unfold IPv6.parse_finish.
    replace (last text ch) with ":"%char
      by (unfold text; rewrite last_app_nonempty by discriminate; reflexivity).
    reflexivity.
  - set (tail := join_colon post ++ [":"%char]).
    destruct (IPv6_parse_to_collapse_groups pre tail Hpre) as (c & ->).
    exists (Invalid_IPv6_format (join_colon pre ++ [":"; ":"]%char ++ tail)).
    split; [| exact I].
    unfold tail. rewrite IPv6_parse_loop_groups by assumption.
    cbn [IPv6.parse_loop bind]. unfold IPv6.parse_finish.
    match goal with
    | |- context [last ?t c] =>
      replace (last t c) with ":"%char
        by (rewrite !app_assoc, last_app_nonempty by discriminate; reflexivity)
    end.
    cbn [IPv6.in_second IPv6.segments_second app].
    destruct post as [| y post]; [contradiction |].
    reflexivity.
Qed.

Lemma IPv6_parse_refuses_witness :
  Forall segment_text [text "2001"] /\ Forall segment_text [text "db8"] /\
  Forall segment_text [text "1"; text "2"] /\ Forall segment_text [text "1"] /\
  (exists e, IPv6.parse (text "2001::db8::1") = Throw e /\ MalformedAddress e) /\
  (exists e, IPv6.parse (text "1:2:") = Throw e /\ MalformedAddress e) /\
  (exists e, IPv6.parse (text "2001::1:") = Throw e /\ MalformedAddress e).
Proof.
  assert (H1 : Forall segment_text [text "2001"]) by (repeat constructor; simpl; lia).
  assert (H2 : Forall segment_text [text "db8"]) by (repeat constructor; simpl; lia).
  assert (H3 : Forall segment_text [text "1"; text "2"])
    by (repeat constructor; simpl; lia).
  assert (H4 : Forall segment_text [text "1"]) by (repeat constructor; simpl; lia).
  assert (N3 : [text "1"; text "2"] <> []) by discriminate.
  assert (N4 : [text "1"] <> []) by discriminate.
  split; [exact H1 |]. split; [exact H2 |]. split; [exact H3 |]. split; [exact H4 |].
  exact (IPv6_parse_refuses [text "2001"] [text "db8"] [text "1"; text "2"] [text "1"]
           (text "1") H1 H2 H3 H4 N3 N4).
Defined.

(** * The characters of the texts [parse] accepts *)

Lemma IPv4_parse_chars (text : list ascii) (a : IPv4.t) :
  IPv4.parse text = Ok a -> forallb IPv4_char text = true.
Proof.
  intros E. apply IPv4_parse_characterised in E.
  destruct E as (d3 & d2 & d1 & d0 & o3 & o2 & o1 & o0 & -> & T3 & T2 & T1 & T0 & _).
  assert (Hd : forall d o, octet_text d o -> forallb IPv4_char d = true).
  { intros d o (_ & Hd & _). apply forallb_forall. intros c Hc.
    rewrite forallb_forall in Hd. unfold IPv4_char. rewrite (Hd c Hc). reflexivity. }
  assert (Hdot : IPv4_char "." = true) by reflexivity.
  rewrite !forallb_app. cbn [forallb]. rewrite !forallb_app. cbn [forallb].
  rewrite !forallb_app. cbn [forallb].
  rewrite (Hd _ _ T3), (Hd _ _ T2), (Hd _ _ T1), (Hd _ _ T0), Hdot. reflexivity.
Qed.

Lemma IPv4_char_IPv6 (c : ascii) : IPv4_char c = true -> IPv6_char c = true.
Proof.
  unfold IPv4_char, IPv6_char, is_dec_digit, IPv6.is_hex.
  rewrite !orb_true_iff, !andb_true_iff. intros [[H9 H0] | Hdot].
  - left. left. right. split; [exact H0 | exact H9].
  - right. exact Hdot.
Qed.

(** The loop of [parse]: up to the end of the text, or to the first dot,
    there are only hexadecimal digits and colons; with a dot, what follows
    it is the end of what is left for the 32-bit class to read. *)
Lemma IPv6_parse_loop_chars (text s seg : list ascii) (first second : list Z)
  (b : bool) (st : IPv6.scan) :
  IPv6.parse_loop text s seg first second b = Ok st ->
  if IPv6.IPv4_embedded st
  then exists s1 r seg',
         s = s1 ++ "."%char :: r /\ forallb IPv6_char s1 = true /\
         IPv6.segment_start st = seg' ++ "."%char :: r
  else forallb IPv6_char s = true.
Proof.
  revert seg first second b. induction s as [| c s IH]; intros seg first second b E.
  - cbn [IPv6.parse_loop] in E. injection E as <-. reflexivity.
  - cbn [IPv6.parse_loop] in E.
    assert (Hstep : forall seg' first' second' b',
              IPv6.parse_loop text s seg' first' second' b' = Ok st ->
              IPv6_char c = true ->
              if IPv6.IPv4_embedded st
              then exists s1 r seg'',
                     c :: s = s1 ++ "."%char :: r /\ forallb IPv6_char s1 = true /\
                     IPv6.segment_start st = seg'' ++ "."%char :: r
              else forallb IPv6_char (c :: s) = true).
    { intros seg' first' second' b' E' Hc. specialize (IH _ _ _ _ E').
      destruct (IPv6.IPv4_embedded st).
      - destruct IH as (s1 & r & seg'' & -> & Hs1 & Est).
        exists (c :: s1), r, seg''. split; [reflexivity |].
        split; [cbn [forallb]; rewrite Hc, Hs1; reflexivity | exact Est].
      - cbn [forallb]. rewrite Hc, IH. reflexivity. }
    destruct (IPv6.is_hex c) eqn:Ehex.
    + apply (Hstep _ _ _ _ E). unfold IPv6_char. rewrite Ehex. reflexivity.
    + destruct (code c =? code ":") eqn:Ecolon.
      * assert (Hc : IPv6_char c = true)
          by (unfold IPv6_char; rewrite Ecolon, orb_true_r; reflexivity).
        destruct (Z.of_nat (length seg) >? 4); [discriminate |].
        destruct (Z.of_nat (length seg) =? 0).
        { destruct b; [discriminate |]. apply (Hstep _ _ _ _ E Hc). }
        destruct b; apply (Hstep _ _ _ _ E Hc).
      * destruct (code c =? code ".") eqn:Edot; [| discriminate].
        apply Z.eqb_eq, code_inj in Edot. subst c.
        injection E as <-. cbn [IPv6.IPv4_embedded IPv6.segment_start].
        exists [], s, seg. repeat split.
Qed.

(** X21. The characters of the texts that are accepted. A text that
    [parse] of the 32-bit class accepts is made of decimal digits and dots;
    a text that [parse] of the 128-bit class accepts is made of hexadecimal
    digits, colons and dots. *)
Theorem parse_characters :
  (forall (text : list ascii) (a : IPv4.t),
     IPv4.parse text = Ok a -> forallb IPv4_char text = true) /\
  (forall (text : list ascii) (a : IPv6.t),
     IPv6.parse text = Ok a -> forallb IPv6_char text = true).
Proof.
  split; [exact IPv4_parse_chars |]. intros text6 b E6.
  unfold IPv6.parse in E6. destruct text6 as [| c rest] eqn:Etext; [discriminate |].
  rewrite <- Etext in E6.
  apply bind_Ok in E6. destruct E6 as (st & Eloop & Efinish).
  assert (Hfinish : IPv6.IPv4_embedded st = true ->
            forallb IPv4_char (IPv6.segment_start st) = true).
  { intros Hemb. unfold IPv6.parse_finish in Efinish.
    destruct ((code (last text6 c) =? code ":") &&
              negb (IPv6.in_second st &&
                    (Z.of_nat (length (IPv6.segments_second st)) =? 0)));
      [discriminate |].
    apply bind_Ok in Efinish. destruct Efinish as (st' & Est' & _).
    rewrite Hemb in Est'. apply bind_Ok in Est'. destruct Est' as (e & E4' & _).
    apply (IPv4_parse_chars _ e E4'). }
  assert (Hloop : forall s seg first second flag,
            IPv6.parse_loop text6 s seg first second flag = Ok st ->
            forallb IPv6_char s = true).
  { intros s seg first second flag E. apply IPv6_parse_loop_chars in E.
    destruct (IPv6.IPv4_embedded st); [| exact E].
    destruct E as (s1 & r & seg' & -> & Hs1 & Est).
    specialize (Hfinish eq_refl). rewrite Est, forallb_app in Hfinish.
    apply andb_true_iff in Hfinish. destruct Hfinish as [_ Hr].
    rewrite forallb_app, Hs1. cbn [andb]. apply forallb_forall. intros x Hx.
    rewrite forallb_forall in Hr. apply IPv4_char_IPv6, Hr, Hx. }
  rewrite <- Etext. destruct (code c =? code ":") eqn:Ec.
  - rewrite Etext. destruct rest as [| c' rest']; [discriminate |].
    destruct (code c' =? code ":") eqn:Ec'; cbn [negb] in Eloop; [| discriminate].
    cbn [forallb]. unfold IPv6_char at 1 2. rewrite Ec, Ec', !orb_true_r. cbn [andb].
    apply (Hloop _ _ _ _ _ Eloop).
  - apply (Hloop _ _ _ _ _ Eloop).
Qed.

Lemma parse_characters_witness :
  IPv4.parse (text "10.0.0.1") = Ok (IPv4.IPv4 0x0a000001) /\
  IPv6.parse (text "::ffff:10.0.0.1") = Ok (IPv6.IPv6 0 0x0000ffff0a000001) /\
  forallb IPv4_char (text "10.0.0.1") = true /\
  forallb IPv6_char (text "::ffff:10.0.0.1") = true.
Proof.
  assert (H4 : IPv4.parse (text "10.0.0.1") = Ok (IPv4.IPv4 0x0a000001))
    by (vm_compute; reflexivity).
  assert (H6 : IPv6.parse (text "::ffff:10.0.0.1") = Ok (IPv6.IPv6 0 0x0000ffff0a000001))
    by (vm_compute; reflexivity).
  split; [exact H4 |]. split; [exact H6 |]. split.
  - exact (proj1 parse_characters (text "10.0.0.1") _ H4).
  - exact (proj2 parse_characters (text "::ffff:10.0.0.1") _ H6).
Defined.
